(** * GWProperty: the normalization and query layer of the listings catalog

    A shallow embedding of [src/components/ListingsApp.jsx] (normalizer,
    price and completion-date parsers, filter, sort, feed loader, facets,
    selection, reset and the fallback images of the cards) and of the
    capped [MapView] component (pins, markers, popups and the view of the
    map), with the properties of the catalog proved over it.

    Conventions of the embedding.
    - A JavaScript string is a [string]; an ASCII character is one [ascii].
      Characters above 127 stand for the bytes of non-ASCII text: case
      mapping leaves them alone and they are not white space, so the model
      is exact on ASCII text and carries other text through unchanged.
      ECMAScript also trims, and maps the case of, characters outside
      ASCII (the no-break space, accented letters): a statement that
      depends on white space or on case says so, by the hypothesis
      [isAscii] on the text it reads.
    - A JavaScript Number is a [number]: NaN, an infinity, or a finite
      binary64 value kept as the pair (m, e) standing for m * 2^e.  Results
      of arithmetic are rounded to binary64 (nearest, ties to even) by
      [of_ratio].  The sign of zero is not tracked; no modelled operation
      observes it.
    - A value of the feed is a [value] (the JSON values and [undefined]).
    - A JavaScript exception is the [Throw] case of [result].
    - What the host supplies and the repository does not define
      (Number-to-string conversion, the URL parser, locale collation) is a
      field of [Host]; the number format of the popups and the resolution
      of an image URL are variables of the sections that use them. *)

From Stdlib Require Import ZArith List String Ascii Bool Lia.
From Stdlib Require Import Sorting.Permutation Sorting.Sorted.
From Stdlib Require Import Structures.OrderedTypeEx.
Import ListNotations.

Set Warnings "-register-all".

Local Open Scope string_scope.
Local Open Scope Z_scope.

(** ** Characters and strings *)

Module Str.

Definition code (c : ascii) : Z := Z.of_N (N_of_ascii c).

Definition isDigit (c : ascii) : bool := (48 <=? code c) && (code c <=? 57).

(** White space and line terminators of ECMAScript within ASCII: TAB, LF,
    VT, FF, CR and SPACE.  This is the set of [trim] and of [\s] on ASCII
    text; ECMAScript adds the no-break space, the byte order mark, the
    line and paragraph separators and the space separators of Unicode,
    which lie outside ASCII. *)
Definition isSpace (c : ascii) : bool :=
  ((9 <=? code c) && (code c <=? 13)) || (code c =? 32).

(** Case mapping of the letters of ASCII; ECMAScript maps the letters
    outside ASCII too. *)
Definition toUpperChar (c : ascii) : ascii :=
  if (97 <=? code c) && (code c <=? 122)
  then ascii_of_N (Z.to_N (code c - 32)) else c.

Definition toLowerChar (c : ascii) : ascii :=
  if (65 <=? code c) && (code c <=? 90)
  then ascii_of_N (Z.to_N (code c + 32)) else c.

Fixpoint map (f : ascii -> ascii) (s : string) : string :=
  match s with
  | EmptyString => EmptyString
  | String c r => String (f c) (map f r)
  end.

Definition toUpperCase : string -> string := map toUpperChar.
Definition toLowerCase : string -> string := map toLowerChar.

Fixpoint all (p : ascii -> bool) (s : string) : bool :=
  match s with
  | EmptyString => true
  | String c r => p c && all p r
  end.

Definition isEmpty (s : string) : bool :=
  match s with EmptyString => true | _ => false end.

Fixpoint trimStart (s : string) : string :=
  match s with
  | String c r => if isSpace c then trimStart r else s
  | EmptyString => EmptyString
  end.

Fixpoint trimEnd (s : string) : string :=
  match s with
  | EmptyString => EmptyString
  | String c r =>
      let r' := trimEnd r in
      if isSpace c && isEmpty r' then EmptyString else String c r'
  end.

(** [String.prototype.trim] *)
Definition trim (s : string) : string := trimEnd (trimStart s).

(** The longest prefix of [s] whose characters satisfy [p], and the rest:
    what a greedy [[class]*] consumes. *)
Fixpoint span (p : ascii -> bool) (s : string) : string * string :=
  match s with
  | String c r =>
      if p c then let '(a, b) := span p r in (String c a, b)
      else (EmptyString, s)
  | EmptyString => (EmptyString, EmptyString)
  end.

Fixpoint startsWith (pre s : string) : bool :=
  match pre, s with
  | EmptyString, _ => true
  | String a p, String b r => Ascii.eqb a b && startsWith p r
  | String _ _, EmptyString => false
  end.

(** [String.prototype.includes] *)
Fixpoint includes (hay needle : string) : bool :=
  startsWith needle hay ||
  match hay with
  | EmptyString => false
  | String _ r => includes r needle
  end.

(** [Array.prototype.join] on strings *)
Fixpoint join (sep : string) (l : list string) : string :=
  match l with
  | [] => EmptyString
  | [x] => x
  | x :: r => x ++ sep ++ join sep r
  end.

(** [replaceAll(" ", "%20")] *)
Fixpoint escapeSpaces (s : string) : string :=
  match s with
  | EmptyString => EmptyString
  | String c r =>
      if Ascii.eqb c " " then "%20" ++ escapeSpaces r
      else String c (escapeSpaces r)
  end.

Definition digitVal (c : ascii) : Z := code c - 48.

(** The value of a run of decimal digits, most significant first. *)
Fixpoint decimalFrom (acc : Z) (s : string) : Z :=
  match s with
  | EmptyString => acc
  | String c r => decimalFrom (10 * acc + digitVal c) r
  end.

Definition decimal (s : string) : Z := decimalFrom 0 s.

Definition len (s : string) : Z := Z.of_nat (String.length s).

End Str.

(** ** Numbers *)

Module Num.

Inductive number : Type :=
| NaN
| Inf (negative : bool)
| Fin (m e : Z).

(** The integer nearest to p/q, ties to even (q > 0, p >= 0). *)
Definition round_half_even (p q : Z) : Z :=
  let d := p / q in
  match 2 * (p mod q) ?= q with
  | Lt => d
  | Gt => d + 1
  | Eq => if Z.even d then d else d + 1
  end.

(** floor (log2 (p/q)) for p, q > 0. *)
Definition ilog2 (p q : Z) : Z :=
  let l := Z.log2 p - Z.log2 q in
  let below := if 0 <=? l then p <? q * 2 ^ l else p * 2 ^ (- l) <? q in
  if below then l - 1 else l.

(** The binary64 value nearest to p/q for p, q > 0: a 53-bit significand
    at exponent [e], at least the subnormal exponent -1074; overflow past
    the largest finite value gives infinity. *)
Definition nearest (p q : Z) : Z * Z :=
  let e := Z.max (ilog2 p q - 52) (-1074) in
  let n := if 0 <=? e then round_half_even p (q * 2 ^ e)
           else round_half_even (p * 2 ^ (- e)) q in
  (n, e).

Definition overflows (n e : Z) : bool :=
  (971 <? e) || ((e =? 971) && (2 ^ 53 <=? n)).

(** Finite values are kept in lowest terms: an integer is [(z, 0)], any
    other value is [(m, e)] with [m] odd and [e < 0]. *)
Fixpoint reduce (n : positive) (k : nat) : positive * nat :=
  match k, n with
  | S k', xO p => reduce p k'
  | _, _ => (n, k)
  end.

Definition lowest (n e : Z) : Z * Z :=
  if 0 <=? e then (n * 2 ^ e, 0)
  else let '(p, k) := reduce (Z.to_pos n) (Z.to_nat (- e)) in
       (Zpos p, - Z.of_nat k).

Definition of_ratio (p q : Z) : number :=
  if p =? 0 then Fin 0 0
  else
    let '(n, e) := nearest (Z.abs p) q in
    if n =? 0 then Fin 0 0
    else if overflows n e then Inf (p <? 0)
    else let '(m, e') := lowest n e in
         Fin (if p <? 0 then - m else m) e'.

(** m * 2^e as a fraction. *)
Definition ratio (m e : Z) : Z * Z :=
  if 0 <=? e then (m * 2 ^ e, 1) else (m, 2 ^ (- e)).

Definition of_Z (z : Z) : number := of_ratio z 1.

Definition isFinite (x : number) : bool :=
  match x with Fin _ _ => true | _ => false end.

Definition isNaN (x : number) : bool :=
  match x with NaN => true | _ => false end.

(** Comparison of two finite values m1 * 2^e1 and m2 * 2^e2. *)
Definition cmpFin (m1 e1 m2 e2 : Z) : comparison :=
  let e := Z.min e1 e2 in
  (m1 * 2 ^ (e1 - e)) ?= (m2 * 2 ^ (e2 - e)).

(** The order of two numbers, [None] when one is NaN. *)
Definition compare (x y : number) : option comparison :=
  match x, y with
  | NaN, _ | _, NaN => None
  | Inf a, Inf b => Some (if Bool.eqb a b then Eq else if a then Lt else Gt)
  | Inf a, Fin _ _ => Some (if a then Lt else Gt)
  | Fin _ _, Inf b => Some (if b then Gt else Lt)
  | Fin m1 e1, Fin m2 e2 => Some (cmpFin m1 e1 m2 e2)
  end.

(** [x <= y], [x >= y], [x < y], [x > y]: false when one side is NaN. *)
Definition leb (x y : number) : bool :=
  match compare x y with Some Lt | Some Eq => true | _ => false end.
Definition geb (x y : number) : bool := leb y x.
Definition ltb (x y : number) : bool :=
  match compare x y with Some Lt => true | _ => false end.
Definition gtb (x y : number) : bool := ltb y x.

(** [x === y] on numbers *)
Definition eqb (x y : number) : bool :=
  match compare x y with Some Eq => true | _ => false end.

Definition isZero (x : number) : bool :=
  match x with Fin m _ => m =? 0 | _ => false end.

Definition isNegative (x : number) : bool :=
  match x with Fin m _ => m <? 0 | Inf s => s | NaN => false end.

(** [x * y] *)
Definition mul (x y : number) : number :=
  match x, y with
  | NaN, _ | _, NaN => NaN
  | Fin m1 e1, Fin m2 e2 =>
      let '(p, q) := ratio (m1 * m2) (e1 + e2) in of_ratio p q
  | Inf _, Inf _ => Inf (xorb (isNegative x) (isNegative y))
  | Inf _, Fin _ _ | Fin _ _, Inf _ =>
      if isZero x || isZero y then NaN
      else Inf (xorb (isNegative x) (isNegative y))
  end.

(** [x + y] *)
Definition add (x y : number) : number :=
  match x, y with
  | NaN, _ | _, NaN => NaN
  | Fin m1 e1, Fin m2 e2 =>
      let e := Z.min e1 e2 in
      let '(p, q) := ratio (m1 * 2 ^ (e1 - e) + m2 * 2 ^ (e2 - e)) e in
      of_ratio p q
  | Inf a, Inf b => if Bool.eqb a b then Inf a else NaN
  | Inf a, Fin _ _ => Inf a
  | Fin _ _, Inf b => Inf b
  end.

Definition neg (x : number) : number :=
  match x with
  | NaN => NaN
  | Inf s => Inf (negb s)
  | Fin m e => Fin (- m) e
  end.

(** [x - y] *)
Definition sub (x y : number) : number := add x (neg y).

(** [Math.round]: the nearest integer, ties toward +infinity, that is
    floor (x + 1/2), exact on a finite value. *)
Definition round (x : number) : number :=
  match x with
  | Fin m e =>
      if 0 <=? e then Fin (m * 2 ^ e) 0
      else Fin ((2 * m + 2 ^ (- e)) / 2 ^ (- e + 1)) 0
  | _ => x
  end.

(** [Math.min(a, b)] *)
Definition min2 (x y : number) : number :=
  match compare x y with
  | None => NaN
  | Some Gt => y
  | Some _ => x
  end.

(** The sign of a number as a sort comparator's result is read: a NaN
    counts as zero. *)
Definition sign (x : number) : comparison :=
  match x with
  | NaN => Eq
  | Inf s => if s then Lt else Gt
  | Fin m _ => m ?= 0
  end.

(** Truthiness of a number: zero and NaN are falsy. *)
Definition truthy (x : number) : bool :=
  match x with
  | NaN => false
  | Inf _ => true
  | Fin m _ => negb (m =? 0)
  end.

(** The Number with the decimal value  digits * 10^x. *)
Definition of_decimal (negative : bool) (digits x : Z) : number :=
  let d := if negative then - digits else digits in
  if 0 <=? x then of_ratio (d * 10 ^ x) 1 else of_ratio d (10 ^ (- x)).

Definition signOf (s : string) : bool * string :=
  match s with
  | String c r =>
      if Ascii.eqb c "+" then (false, r)
      else if Ascii.eqb c "-" then (true, r)
      else (false, s)
  | EmptyString => (false, s)
  end.

(** The fraction after the integer part: the digits that follow a dot. *)
Definition fractionOf (s : string) : string * string :=
  match s with
  | String c r =>
      if Ascii.eqb c "." then Str.span Str.isDigit r else (EmptyString, s)
  | EmptyString => (EmptyString, s)
  end.

(** The exponent part [e|E][+|-]digits of a decimal literal, 0 when the
    text is not one. *)
Definition exponentOf (s : string) : Z :=
  match s with
  | String c r =>
      if Ascii.eqb c "e" || Ascii.eqb c "E" then
        let '(neg, r1) := signOf r in
        let '(ds, _) := Str.span Str.isDigit r1 in
        if Str.isEmpty ds then 0
        else if neg then - Str.decimal ds else Str.decimal ds
      else 0
  | EmptyString => 0
  end.

(** [parseFloat] on a string: leading white space is skipped, then the
    longest prefix that is a decimal literal is read (sign, [Infinity], or
    digits with an optional fraction and exponent); NaN when there is none. *)
Definition parseFloat (s : string) : number :=
  let '(neg, t) := signOf (Str.trimStart s) in
  if Str.startsWith "Infinity" t then Inf neg
  else
    let '(ip, r1) := Str.span Str.isDigit t in
    let '(fp, r2) := fractionOf r1 in
    if Str.isEmpty ip && Str.isEmpty fp then NaN
    else of_decimal neg (Str.decimal (ip ++ fp)) (exponentOf r2 - Str.len fp).

(** [parseInt(s, 10)] on a run of decimal digits. *)
Definition parseInt (digits : string) : Z := Str.decimal digits.

End Num.

Import Num.

(** ** Exceptions *)

Inductive error : Type := TypeError.

Inductive result (A : Type) : Type :=
| OK (a : A)
| Throw (e : error).

Arguments OK {A} a.
Arguments Throw {A} e.

Definition bind {A B : Type} (r : result A) (k : A -> result B) : result B :=
  match r with
  | OK a => k a
  | Throw e => Throw e
  end.

Notation "x <- c ;; k" := (bind c (fun x => k))
  (at level 61, c at next level, right associativity).

(** [Array.prototype.map] with a callback that may throw: the elements are
    visited in order and the first exception ends the call. *)
Fixpoint mapM {A B : Type} (f : A -> result B) (l : list A) : result (list B) :=
  match l with
  | [] => OK []
  | x :: r => y <- f x ;; ys <- mapM f r ;; OK (y :: ys)
  end.

(** [Array.prototype.filter] with a callback that may throw. *)
Fixpoint filterM {A : Type} (f : A -> result bool) (l : list A) : result (list A) :=
  match l with
  | [] => OK []
  | x :: r => b <- f x ;; ys <- filterM f r ;; OK (if b then x :: ys else ys)
  end.

(** ** Values of the feed *)

(** The JSON values, [undefined] for what is absent, and [VNative] for a
    built-in reached through [Object.prototype] (a method such as
    [toString], or the prototype object itself), named by the key that
    reaches it. *)
Inductive value : Type :=
| VUndefined
| VNull
| VBool (b : bool)
| VNum (n : number)
| VStr (s : string)
| VArr (items : list value)
| VObj (fields : list (string * value))
| VNative (key : string).

(** What the host environment supplies. *)
Record Host : Type := {
  (** [Number::toString] of a finite value that is not an integer below
      2^53: the shortest decimal that reads back as the value *)
  fractionToString : number -> string;
  (** the text of a built-in converted to a string *)
  nativeToString : string -> string;
  (** [new URL(s).toString()], [None] when the constructor throws *)
  parseURL : string -> option string;
  (** [String.prototype.localeCompare]: [Lt] for a negative result, [Eq]
      for zero, [Gt] for a positive one; the program reads nothing else of
      the result *)
  localeCompare : string -> string -> comparison;
  (** the message the engine gives a [TypeError] it raises *)
  typeErrorMessage : string;
  (** the message of the [SyntaxError] of [Response.json] on a body that is
      not JSON *)
  syntaxErrorMessage : string
}.

Fixpoint assoc (k : string) (fields : list (string * value)) : option value :=
  match fields with
  | [] => None
  | (k', v) :: r => if String.eqb k k' then Some v else assoc k r
  end.

(** The names every object inherits from [Object.prototype]. *)
Definition objectPrototypeKeys : list string :=
  [ "constructor"; "__defineGetter__"; "__defineSetter__"; "hasOwnProperty";
    "__lookupGetter__"; "__lookupSetter__"; "isPrototypeOf";
    "propertyIsEnumerable"; "toString"; "valueOf"; "__proto__";
    "toLocaleString" ].

Definition inherited (k : string) : bool :=
  existsb (String.eqb k) objectPrototypeKeys.

(** [o[k]] on an object written as a literal or parsed from JSON: an own
    property, else what [Object.prototype] has under that name. *)
Definition getOwnOrInherited (fields : list (string * value)) (k : string) : value :=
  match assoc k fields with
  | Some v => v
  | None => if inherited k then VNative k else VUndefined
  end.

(** [v.k] for the field names the program reads ([latitude], [name],
    [unit_type], ...): none of them is a member of a built-in prototype, so
    only an object has them; reading a property of [undefined] or [null]
    throws. *)
Definition get (v : value) (k : string) : result value :=
  match v with
  | VUndefined | VNull => Throw TypeError
  | VObj fields => OK (getOwnOrInherited fields k)
  | _ => OK VUndefined
  end.

(** [v?.k] *)
Definition getOpt (v : value) (k : string) : value :=
  match v with
  | VObj fields => getOwnOrInherited fields k
  | _ => VUndefined
  end.

(** [a ?? b] *)
Definition nullish (v : value) : bool :=
  match v with VUndefined | VNull => true | _ => false end.

Definition orElse (v d : value) : value := if nullish v then d else v.

(** [!!v], [Boolean(v)] *)
Definition truthy (v : value) : bool :=
  match v with
  | VUndefined | VNull => false
  | VBool b => b
  | VNum n => Num.truthy n
  | VStr s => negb (Str.isEmpty s)
  | VArr _ | VObj _ | VNative _ => true
  end.

Definition isArray (v : value) : bool :=
  match v with VArr _ => true | _ => false end.

(** The decimal digits of a natural number, as [Number::toString] prints
    an integer. *)
Fixpoint digitsOfPos (fuel : nat) (n : Z) (acc : string) : string :=
  match fuel with
  | O => acc
  | S fuel' =>
      let acc' := String (ascii_of_N (Z.to_N (48 + n mod 10))) acc in
      if n / 10 =? 0 then acc' else digitsOfPos fuel' (n / 10) acc'
  end.

Definition decimalString (z : Z) : string :=
  if z <? 0 then String "-" (digitsOfPos (S (Z.to_nat (Z.log2 (- z)))) (- z) EmptyString)
  else digitsOfPos (S (Z.to_nat (Z.log2 z))) z EmptyString.

Section Conversion.

Variable host : Host.

(** [Number::toString]: the names of NaN and the infinities, the digits of
    an integer below 2^53 in magnitude (every one of them is needed to
    read the value back), and the host's shortest decimal otherwise. *)
Definition numberToString (n : number) : string :=
  match n with
  | NaN => "NaN"
  | Inf s => if s then "-Infinity" else "Infinity"
  | Fin m e =>
      if (e =? 0) && (Z.abs m <? 2 ^ 53) then decimalString m
      else fractionToString host n
  end.

(** [String(v)], the conversion of template literals, [join] and property
    keys.  An array joins its converted elements with a comma, [undefined]
    and [null] elements as the empty string.  An object converts through
    its [toString] and [valueOf]: the inherited ones give
    ["[object Object]"]; an own property named [toString] is parsed data,
    not callable, and then no primitive is found, which throws. *)
Fixpoint toString (v : value) : result string :=
  match v with
  | VUndefined => OK "undefined"
  | VNull => OK "null"
  | VBool b => OK (if b then "true" else "false")
  | VNum n => OK (numberToString n)
  | VStr s => OK s
  | VArr items =>
      (fix elems (l : list value) : result string :=
         match l with
         | [] => OK EmptyString
         | x :: r =>
             s <- (if nullish x then OK EmptyString else toString x) ;;
             match r with
             | [] => OK s
             | _ => t <- elems r ;; OK (s ++ "," ++ t)
             end
         end) items
  | VObj fields =>
      match assoc "toString" fields with
      | Some _ => Throw TypeError
      | None => OK "[object Object]"
      end
  | VNative k => OK (nativeToString host k)
  end.

End Conversion.

(** ** The price parser and the completion-date parser *)

Definition isNumChar (c : ascii) : bool := Str.isDigit c || Ascii.eqb c ".".

Definition isMagnitude (c : ascii) : bool := Ascii.eqb c "M" || Ascii.eqb c "K".

(** [s.match(/^([\d.]+)\s*([MK])$/)]: the two groups of the match.  Each
    class is consumed greedily; the classes are disjoint, so no shorter
    choice can match where the greedy one fails. *)
Definition matchPrice (s : string) : option (string * ascii) :=
  let '(m1, r) := Str.span isNumChar s in
  if Str.isEmpty m1 then None
  else
    let '(_, r') := Str.span Str.isSpace r in
    match r' with
    | String c EmptyString => if isMagnitude c then Some (m1, c) else None
    | _ => None
    end.

(** [parsePriceAED(v)]: [None] is [null]. *)
Definition parsePriceAED (v : value) : option number :=
  match v with
  | VStr v' =>
      if Str.isEmpty v' then None
      else
        let s := Str.toUpperCase (Str.trim v') in
        match matchPrice s with
        | None => None
        | Some (m1, m2) =>
            let num := parseFloat m1 in
            if negb (isFinite num) then None
            else
              let mult := if Ascii.eqb m2 "M" then of_Z 1000000 else of_Z 1000 in
              Some (Num.round (Num.mul num mult))
        end
  | _ => None
  end.

Definition isQuarter (c : ascii) : bool := (49 <=? Str.code c) && (Str.code c <=? 52).

(** [t.match(/^Q([1-4])\s+(\d{4})$/)]: the two groups of the match. *)
Definition matchCompletion (t : string) : option (ascii * string) :=
  match t with
  | String c (String q r) =>
      if Ascii.eqb c "Q" && isQuarter q then
        let '(ws, y) := Str.span Str.isSpace r in
        if Str.isEmpty ws then None
        else if Str.all Str.isDigit y && (Str.len y =? 4) then Some (q, y)
        else None
      else None
  | _ => None
  end.

(** [parseCompletionDateSortable(s)]: [None] is [null]. *)
Definition parseCompletionDateSortable (s : value) : option number :=
  match s with
  | VStr s' =>
      if Str.isEmpty s' then None
      else
        let t := Str.toUpperCase (Str.trim s') in
        match matchCompletion t with
        | None => None
        | Some (m1, m2) =>
            let q := of_Z (parseInt (String m1 EmptyString)) in
            let y := of_Z (parseInt m2) in
            Some (Num.add (Num.mul y (of_Z 10)) q)
        end
  | _ => None
  end.

(** ** The normalized listing *)

Module Listing.

(** The object [normalizeProject] returns.  A field the normalizer always
    computes as a string, a boolean or a number-or-null has that type; a
    field it copies from the record is a [value]. *)
Record listing : Type := {
  id : string;
  title : value;
  community : value;
  developer : value;
  coverImage : string;
  lat : option number;
  lng : option number;
  hasPin : bool;
  completionDate : value;
  salesStatusCode : value;
  statusLabel : value;
  minPrice : option number;
  featured : bool;
  unitTypesLabel : string;
  raw : value
}.

End Listing.

Import Listing.

(** ** Sorting *)

(** [Array.prototype.sort(comparefn)]: a stable sort that reads the sign of
    each comparison and ends with the exception of the first comparison
    that throws.  The order of the result does not depend on the algorithm
    when the comparison is consistent; insertion from the right is the one
    written here.  Which pairs an engine compares, and which of the two
    it passes first, is its own choice; the properties proved of the sort
    hold of every such choice: they need a consistent comparison, or that
    every element of a list of two or more is compared at least once. *)
Fixpoint insertM {A : Type} (cmp : A -> A -> result comparison) (x : A) (l : list A)
  : result (list A) :=
  match l with
  | [] => OK [x]
  | y :: r =>
      c <- cmp x y ;;
      match c with
      | Gt => r' <- insertM cmp x r ;; OK (y :: r')
      | _ => OK (x :: l)
      end
  end.

Fixpoint sortM {A : Type} (cmp : A -> A -> result comparison) (l : list A)
  : result (list A) :=
  match l with
  | [] => OK []
  | x :: r => s <- sortM cmp r ;; insertM cmp x s
  end.

(** The same sort with a comparison that cannot throw. *)
Fixpoint insert {A : Type} (cmp : A -> A -> comparison) (x : A) (l : list A) : list A :=
  match l with
  | [] => [x]
  | y :: r =>
      match cmp x y with
      | Gt => y :: insert cmp x r
      | _ => x :: l
      end
  end.

Fixpoint sort {A : Type} (cmp : A -> A -> comparison) (l : list A) : list A :=
  match l with
  | [] => []
  | x :: r => insert cmp x (sort cmp r)
  end.

(** The Number a comparison stands for: -1, 0 or 1. *)
Definition numberOfComparison (c : comparison) : number :=
  match c with
  | Lt => Fin (-1) 0
  | Eq => Fin 0 0
  | Gt => Fin 1 0
  end.

(** ** The normalizer *)

Section Normalizer.

Variable host : Host.

Definition sameValueZero (a b : value) : bool :=
  match a, b with
  | VUndefined, VUndefined | VNull, VNull => true
  | VBool x, VBool y => Bool.eqb x y
  | VNum x, VNum y => Num.eqb x y || (isNaN x && isNaN y)
  | VStr x, VStr y => String.eqb x y
  | VNative x, VNative y => String.eqb x y
  | _, _ => false
  end.

(** [Array.from(new Set(arr))]: the first occurrence of each value, in
    order.  Arrays and objects are compared by identity, and every array or
    object of a parsed document is a distinct one. *)
Fixpoint dedupInto (seen : list value) (arr : list value) : list value :=
  match arr with
  | [] => []
  | x :: r =>
      if existsb (sameValueZero x) seen then dedupInto seen r
      else x :: dedupInto (x :: seen) r
  end.

Definition dedup (arr : list value) : list value := dedupInto [] arr.

(** [a.localeCompare(b)]: only a string has the method. *)
Definition localeCompareValues (a b : value) : result comparison :=
  match a with
  | VStr x => y <- toString host b ;; OK (localeCompare host x y)
  | _ => Throw TypeError
  end.

(** [uniq(arr)] *)
Definition uniq (arr : list value) : result (list value) :=
  sortM localeCompareValues (filter truthy (dedup arr)).

(** [toFloat(v)]: [None] is [null]. *)
Definition toFloat (v : value) : result (option number) :=
  if nullish v then OK None
  else
    s <- toString host v ;;
    let n := parseFloat s in
    OK (if isFinite n then Some n else None).

(** [isFiniteNum(n)] *)
Definition isFiniteNum (n : option number) : bool :=
  match n with
  | Some x => isFinite x
  | None => false
  end.

(** [Math.min(...prices)] *)
Definition mathMin (prices : list number) : number :=
  fold_left Num.min2 prices (Inf false).

Definition finiteOnly (l : list (option number)) : list number :=
  flat_map (fun n => match n with
                     | Some x => if isFinite x then [x] else []
                     | None => []
                     end) l.

(** [computeMinPriceFromUnitVariations(unitVariations)] *)
Definition computeMinPriceFromUnitVariations (unitVariations : value) : option number :=
  let prices :=
    match unitVariations with
    | VArr items =>
        finiteOnly (List.map (fun uv => parsePriceAED (getOpt uv "starting_price")) items)
    | _ => []
    end in
  match prices with
  | [] => None
  | _ => Some (mathMin prices)
  end.

(** [cleanUrl(u)] *)
Definition cleanUrl (u : value) : result string :=
  if negb (truthy u) then OK EmptyString
  else
    match (s <- toString host u ;;
           match parseURL host (Str.trim s) with
           | Some href => OK href
           | None => Throw TypeError
           end) with
    | OK href => OK href
    | Throw _ => s <- toString host u ;; OK (Str.escapeSpaces (Str.trim s))
    end.

Definition statusMap : list (string * value) :=
  [ ("1", VStr "Status 1"); ("2", VStr "Status 2");
    ("3", VStr "Status 3"); ("4", VStr "Status 4") ].

(** [salesStatusLabel(code)] *)
Definition salesStatusLabel (code : value) : result value :=
  key <- toString host code ;;
  let found := getOwnOrInherited statusMap key in
  if nullish found then
    if nullish code then OK (VStr "Unknown")
    else s <- toString host code ;; OK (VStr ("Status " ++ s))
  else OK found.

(** [v.length] of an array *)
Definition arrayLength (v : value) : nat :=
  match v with
  | VArr items => List.length items
  | _ => O
  end.

(** [isLikelyFeatured(p)] *)
Definition isLikelyFeatured (p : value) : result bool :=
  image <- get p "image" ;;
  latitude <- get p "latitude" ;;
  longitude <- get p "longitude" ;;
  unit_variations <- get p "unit_variations" ;;
  let hasImage := truthy image in
  let hasPin := truthy (if truthy latitude then longitude else latitude) in
  let hasUnits := isArray unit_variations && (0 <? arrayLength unit_variations)%nat in
  OK (hasImage && hasPin && hasUnits).

(** [types.join(" • ")] *)
Definition joinValues (sep : string) (l : list value) : result string :=
  parts <- mapM (fun v => if nullish v then OK EmptyString else toString host v) l ;;
  OK (Str.join sep parts).

Definition bullet : string := " • ".

(** [summarizeUnitTypes(unitVariations)] *)
Definition summarizeUnitTypes (unitVariations : value) : result string :=
  match unitVariations with
  | VArr ((_ :: _) as items) =>
      types <- uniq (filter truthy (List.map (fun uv => getOpt uv "unit_type") items)) ;;
      if (List.length types =? 0)%nat then OK EmptyString
      else if (List.length types <=? 3)%nat then joinValues bullet types
      else
        head <- joinValues bullet (firstn 3 types) ;;
        OK (head ++ bullet ++ "+" ++
            numberToString host (of_Z (Z.of_nat (List.length types) - 3)))
  | _ => OK EmptyString
  end.

(** [normalizeProject(p)] *)
Definition normalizeProject (p : value) : result listing :=
  latitude <- get p "latitude" ;;
  lat <- toFloat latitude ;;
  longitude <- get p "longitude" ;;
  lng <- toFloat longitude ;;
  unit_variations <- get p "unit_variations" ;;
  let minPrice := computeMinPriceFromUnitVariations unit_variations in
  flag <- get p "featured" ;;
  featured <- (if truthy flag then OK true else isLikelyFeatured p) ;;
  unitTypesLabel <- summarizeUnitTypes unit_variations ;;
  rawId <- get p "id" ;;
  id <- toString host (orElse rawId (VStr EmptyString)) ;;
  name <- get p "name" ;;
  community <- get p "community" ;;
  developer <- get p "developer" ;;
  image <- get p "image" ;;
  coverImage <- cleanUrl (orElse image (VStr EmptyString)) ;;
  completion_date <- get p "completion_date" ;;
  sales_status <- get p "sales_status" ;;
  statusLabel <- salesStatusLabel sales_status ;;
  OK {| id := id;
        title := orElse name (VStr "Untitled");
        community := orElse community (VStr EmptyString);
        developer := orElse developer (VStr EmptyString);
        coverImage := coverImage;
        lat := lat;
        lng := lng;
        hasPin := isFiniteNum lat && isFiniteNum lng;
        completionDate := orElse completion_date (VStr EmptyString);
        salesStatusCode := sales_status;
        statusLabel := statusLabel;
        minPrice := minPrice;
        featured := featured;
        unitTypesLabel := unitTypesLabel;
        raw := p |}.

End Normalizer.

(** ** The query engine: filter and sort *)

Section Query.

Variable host : Host.

(** [null] read as a Number is zero. *)
Definition toNumber (a : option number) : number :=
  match a with
  | Some x => x
  | None => Fin 0 0
  end.

(** [a == null || Number.isNaN(a)] *)
Definition nullOrNaN (a : option number) : bool :=
  match a with
  | None => true
  | Some x => isNaN x
  end.

(** [nullsLastAsc(a, b)] *)
Definition nullsLastAsc (a b : option number) : number :=
  let aNull := nullOrNaN a in
  let bNull := nullOrNaN b in
  if aNull && bNull then Fin 0 0
  else if aNull then Fin 1 0
  else if bNull then Fin (-1) 0
  else Num.sub (toNumber a) (toNumber b).

(** [nullsLastDesc(a, b)] *)
Definition nullsLastDesc (a b : option number) : number :=
  let aNull := nullOrNaN a in
  let bNull := nullOrNaN b in
  if aNull && bNull then Fin 0 0
  else if aNull then Fin 1 0
  else if bNull then Fin (-1) 0
  else Num.sub (toNumber b) (toNumber a).

(** [x || y] on Numbers *)
Definition orNumber (x y : number) : number := if Num.truthy x then x else y.

(** [(p.title ?? "").toLowerCase()]: only a string has the method. *)
Definition lowerTitle (p : listing) : result string :=
  match orElse (title p) (VStr EmptyString) with
  | VStr s => OK (Str.toLowerCase s)
  | _ => Throw TypeError
  end.

(** [sortProjects(a, b, sortBy)] *)
Definition sortProjects (a b : listing) (sortBy : string) : result number :=
  nameA <- lowerTitle a ;;
  nameB <- lowerTitle b ;;
  let compA := parseCompletionDateSortable (completionDate a) in
  let compB := parseCompletionDateSortable (completionDate b) in
  let byName := numberOfComparison (localeCompare host nameA nameB) in
  if String.eqb sortBy "price_asc" then
    OK (orNumber (nullsLastAsc (minPrice a) (minPrice b)) byName)
  else if String.eqb sortBy "price_desc" then
    OK (orNumber (nullsLastDesc (minPrice a) (minPrice b)) byName)
  else if String.eqb sortBy "completion_asc" then
    OK (orNumber (nullsLastAsc compA compB) byName)
  else if String.eqb sortBy "completion_desc" then
    OK (orNumber (nullsLastDesc compA compB) byName)
  else if String.eqb sortBy "name_desc" then
    OK (numberOfComparison (localeCompare host nameB nameA))
  else if String.eqb sortBy "name_asc" then
    OK byName
  else
    let fa := if featured a then Fin 1 0 else Fin 0 0 in
    let fb := if featured b then Fin 1 0 else Fin 0 0 in
    OK (orNumber (Num.sub fb fa) byName).

(** The comparison [res.sort((a, b) => sortProjects(a, b, sortBy))] reads. *)
Definition compareProjects (sortBy : string) (a b : listing) : result comparison :=
  n <- sortProjects a b sortBy ;; OK (Num.sign n).

(** [p.field !== wanted] for a string [wanted] *)
Definition differs (field : value) (wanted : string) : bool :=
  match field with
  | VStr s => negb (String.eqb s wanted)
  | _ => true
  end.

(** The text the free-text query is searched in. *)
Definition haystack (p : listing) : result string :=
  s <- joinValues host " "
         (filter truthy [title p; community p; developer p; statusLabel p;
                         completionDate p]) ;;
  OK (Str.toLowerCase s).

End Query.

(** ** The application state and the feed loader *)

Module App.

Record state : Type := {
  all : list listing;
  loadError : string;
  showMap : bool;
  selectedId : string;
  community : string;
  developer : string;
  status : string;
  q : string;
  sortBy : string
}.

Definition initial : state :=
  {| all := []; loadError := EmptyString; showMap := true;
     selectedId := EmptyString; community := EmptyString;
     developer := EmptyString; status := EmptyString; q := EmptyString;
     sortBy := "featured_then_name" |}.

Definition setAll (v : list listing) (st : state) : state :=
  {| all := v; loadError := loadError st; showMap := showMap st;
     selectedId := selectedId st; community := community st;
     developer := developer st; status := status st; q := q st;
     sortBy := sortBy st |}.

Definition setLoadError (v : string) (st : state) : state :=
  {| all := all st; loadError := v; showMap := showMap st;
     selectedId := selectedId st; community := community st;
     developer := developer st; status := status st; q := q st;
     sortBy := sortBy st |}.

Section WithHost.

Variable host : Host.

(** The callback of [all.filter] in [filtered]; [qq] is the trimmed,
    lower-cased query. *)
Definition keeps (st : state) (qq : string) (p : listing) : result bool :=
  if negb (Str.isEmpty (community st)) && differs (Listing.community p) (community st)
  then OK false
  else if negb (Str.isEmpty (developer st)) && differs (Listing.developer p) (developer st)
  then OK false
  else if negb (Str.isEmpty (status st)) && differs (Listing.statusLabel p) (status st)
  then OK false
  else if negb (Str.isEmpty qq) then
    hay <- haystack host p ;;
    if negb (Str.includes hay qq) then OK false else OK true
  else OK true.

(** [filtered] *)
Definition filtered (st : state) : result (list listing) :=
  let qq := Str.toLowerCase (Str.trim (q st)) in
  res <- filterM (keeps st qq) (all st) ;;
  sortM (compareProjects host (sortBy st)) res.

(** What a promise of the load chain is rejected with. *)
Record thrown : Type := { name : string; message : string }.

(** [String(e.message || e)] *)
Definition describe (e : thrown) : string :=
  if negb (Str.isEmpty (message e)) then message e
  else name e.

(** The response of [fetch]: [json] is the parsed body, [None] when the
    body is not JSON. *)
Record response : Type := { ok : bool; httpStatus : number; json : option value }.

(** How [fetch] settles: rejected (the network failed) or resolved. *)
Inductive fetched : Type :=
| Rejected (e : thrown)
| Resolved (r : response).

(** The first [then]: [if (!r.ok) throw new Error(`HTTP ${r.status}`);
    return r.json()]. *)
Definition onResponse (r : response) : thrown + value :=
  if negb (ok r) then
    inl {| name := "Error"; message := "HTTP " ++ numberToString host (httpStatus r) |}
  else
    match json r with
    | Some payload => inr payload
    | None => inl {| name := "SyntaxError"; message := syntaxErrorMessage host |}
    end.

(** The second [then]. *)
Definition onPayload (cancelled : bool) (payload : value) (st : state) : thrown + state :=
  if cancelled then inr st
  else
    let projects := getOpt (getOpt payload "data") "projects" in
    match projects with
    | VArr items =>
        match mapM (normalizeProject host) items with
        | OK normalized => inr (setLoadError EmptyString (setAll normalized st))
        | Throw TypeError =>
            inl {| name := "TypeError"; message := typeErrorMessage host |}
        end
    | _ =>
        inl {| name := "Error";
               message := "Invalid JSON: data.projects is missing or not an array" |}
    end.

(** The [catch]. *)
Definition onError (cancelled : bool) (e : thrown) (st : state) : state :=
  if cancelled then st
  else setLoadError ("Could not load properties.json (" ++ describe e ++ ")") st.

(** One load of the feed: the state after the promise chain has settled. *)
Definition load (cancelled : bool) (f : fetched) (st : state) : state :=
  match f with
  | Rejected e => onError cancelled e st
  | Resolved r =>
      match onResponse r with
      | inl e => onError cancelled e st
      | inr payload =>
          match onPayload cancelled payload st with
          | inl e => onError cancelled e st
          | inr st' => st'
          end
      end
  end.

End WithHost.

End App.

(** ** The map *)

Module MapView.

Definition MAX_MARKERS : nat := 400.

Record bbox : Type := { minLat : number; maxLat : number; minLng : number; maxLng : number }.

Definition MIDDLE_EAST_BBOX : bbox :=
  {| minLat := Fin 12 0; maxLat := Fin 73 (-1); minLng := Fin 34 0; maxLng := Fin 64 0 |}.

(** [isInMiddleEastBBox(lat, lng)] *)
Definition isInMiddleEastBBox (lat lng : option number) : bool :=
  Num.geb (toNumber lat) (minLat MIDDLE_EAST_BBOX) &&
  Num.leb (toNumber lat) (maxLat MIDDLE_EAST_BBOX) &&
  Num.geb (toNumber lng) (minLng MIDDLE_EAST_BBOX) &&
  Num.leb (toNumber lng) (maxLng MIDDLE_EAST_BBOX).

(** [Number.isFinite(p.lat) && Number.isFinite(p.lng)] *)
Definition geolocated (p : listing) : bool :=
  isFiniteNum (lat p) && isFiniteNum (lng p).

(** The listings the map plots: [pins] of the marker effect.  [None] is an
    absent [properties]. *)
Definition pins (properties : option (list listing)) : list listing :=
  firstn MAX_MARKERS
    (filter (fun p => isInMiddleEastBBox (lat p) (lng p))
       (filter geolocated
          (match properties with Some l => l | None => [] end))).

End MapView.

(** The earlier map component, [src/components/MapView.jsx]: a marker for
    every geolocated listing. *)
Module MapViewLegacy.

Definition pts (properties : list listing) : list (option number * option number) :=
  List.map (fun p => (lat p, lng p))
    (filter (fun p => isFiniteNum (lat p) && isFiniteNum (lng p)) properties).

End MapViewLegacy.

(** ** The rest of the listings page: facets, selection, reset, card images *)

Module NumMore.

(** [x % y]: the remainder of the truncating division, exact, with the
    sign of [x]. *)
Definition rem (x y : number) : number :=
  match x, y with
  | NaN, _ | _, NaN => NaN
  | Inf _, _ => NaN
  | Fin _ _, Inf _ => x
  | Fin m1 e1, Fin m2 e2 =>
      if m2 =? 0 then NaN
      else
        let e := Z.min e1 e2 in
        let '(p, q) := ratio (Z.rem (m1 * 2 ^ (e1 - e)) (m2 * 2 ^ (e2 - e))) e in
        of_ratio p q
  end.

(** [Math.max(a, b)] *)
Definition max2 (x y : number) : number :=
  match compare x y with
  | None => NaN
  | Some Lt => y
  | Some _ => x
  end.

End NumMore.

Module ListingsApp.

Definition FALLBACK_IMAGES : list string :=
  [ "/images/pc1.jpg"; "/images/pc2.jpg"; "/images/pc3.jpg"; "/images/pc4.jpg";
    "/images/pc5.jpg" ].

(** [arr[i]] for a Number [i]: the element when [i] is an index of the
    array, [undefined] (here [None]) for any other Number. *)
Definition elementAt {A : Type} (arr : list A) (i : number) : option A :=
  match i with
  | Fin z 0 => if 0 <=? z then nth_error arr (Z.to_nat z) else None
  | _ => None
  end.

(** [getFallbackByIndex(index, offset)]; a caller that leaves [offset] out
    passes its default, 0. *)
Definition getFallbackByIndex (index offset : number) : option string :=
  let safeIndex := if isFinite index then index else Fin 0 0 in
  let i := NumMore.rem (Num.add safeIndex offset)
             (of_Z (Z.of_nat (List.length FALLBACK_IMAGES))) in
  elementAt FALLBACK_IMAGES i.

(** The position of a card in [filtered.map((p, idx) => ...)]. *)
Definition indexOf (idx : nat) : number := of_Z (Z.of_nat idx).

(** [p.coverImage || getFallbackByIndex(idx)]: the [src] a card is rendered
    with, [None] when it is [undefined]. *)
Definition cardSrc (p : listing) (idx : nat) : option string :=
  if negb (Str.isEmpty (coverImage p)) then Some (coverImage p)
  else getFallbackByIndex (indexOf idx) (Fin 0 0).

(** The image element of a card: its [src] attribute, its
    [data-failed-src] attribute and [dataset.fallbackApplied]. *)
Record img : Type := {
  src : option string;
  failedSrc : option string;
  fallbackApplied : bool
}.

Definition rendered (p : listing) (idx : nat) : img :=
  {| src := cardSrc p idx; failedSrc := None; fallbackApplied := false |}.

Section Images.

(** What reading [img.src] gives for an attribute: the URL resolved
    against the document. *)
Variable resolve : string -> string.

(** The [onError] handler of the card at position [idx]. *)
Definition onError (idx : nat) (el : img) : img :=
  let failedUrl := match src el with
                   | Some s => resolve s
                   | None => EmptyString
                   end in
  if negb (fallbackApplied el) then
    {| src := Some (match getFallbackByIndex (indexOf idx) (Fin 1 0) with
                    | Some s => s
                    | None => "undefined"
                    end);
       failedSrc := Some failedUrl;
       fallbackApplied := true |}
  else
    {| src := src el; failedSrc := Some failedUrl;
       fallbackApplied := fallbackApplied el |}.

End Images.

Section Facets.

Variable host : Host.

(** The options of the three drop-downs. *)
Definition communities (st : App.state) : result (list value) :=
  uniq host (List.map Listing.community (App.all st)).

Definition developers (st : App.state) : result (list value) :=
  uniq host (List.map Listing.developer (App.all st)).

Definition statuses (st : App.state) : result (list value) :=
  uniq host (List.map Listing.statusLabel (App.all st)).

End Facets.

(** [searchingLabel] *)
Definition searchingLabel (st : App.state) : string :=
  if negb (Str.isEmpty (App.community st)) || negb (Str.isEmpty (App.developer st))
     || negb (Str.isEmpty (App.status st)) || negb (Str.isEmpty (App.q st))
  then "Filtered listings" else "All listings".

(** [mapPinsCount], counted on the list [filtered] returns. *)
Definition mapPinsCount (filtered : list listing) : nat :=
  List.length (filter (fun p => isFiniteNum (lat p) && isFiniteNum (lng p)) filtered).

(** The filters of the state are strings; a value of another type that a
    selection would store in one is outside the model. *)
Definition asText (v : value) : option string :=
  match v with
  | VStr s => Some s
  | _ => None
  end.

(** [selectProperty(p, { openMap })]: the state after the setters have
    run; [p] is [None] for a null listing.  The result is [None] when a
    field to store is not a string.  The scroll into view is not part of
    the state. *)
Definition selectProperty (p : option listing) (openMap : bool) (st : App.state)
  : option App.state :=
  match p with
  | None => Some st
  | Some p =>
      match asText (orElse (Listing.community p) (VStr EmptyString)),
            asText (orElse (Listing.developer p) (VStr EmptyString)),
            asText (orElse (Listing.statusLabel p) (VStr EmptyString)),
            asText (orElse (Listing.title p) (VStr EmptyString)) with
      | Some c, Some d, Some s, Some t =>
          Some {| App.all := App.all st; App.loadError := App.loadError st;
                  App.showMap := if openMap then true else App.showMap st;
                  App.selectedId := Listing.id p;
                  App.community := c; App.developer := d; App.status := s;
                  App.q := t; App.sortBy := App.sortBy st |}
      | _, _, _, _ => None
      end
  end.

(** [resetAll()] *)
Definition resetAll (st : App.state) : App.state :=
  {| App.all := App.all st; App.loadError := App.loadError st;
     App.showMap := true; App.selectedId := EmptyString;
     App.community := EmptyString; App.developer := EmptyString;
     App.status := EmptyString; App.q := EmptyString;
     App.sortBy := "featured_then_name" |}.

End ListingsApp.

(** ** The marker effect of the capped map *)

Module Markers.

(** [s.replaceAll(c, by)] for a one-character pattern. *)
Fixpoint replaceAll (c : ascii) (by_ : string) (s : string) : string :=
  match s with
  | EmptyString => EmptyString
  | String d r =>
      if Ascii.eqb d c then by_ ++ replaceAll c by_ r
      else String d (replaceAll c by_ r)
  end.

(** The three replacements of [escapeHtml], in its order. *)
Definition escaped (s : string) : string :=
  replaceAll ">" "&gt;" (replaceAll "<" "&lt;" (replaceAll "&" "&amp;" s)).

(** [escapeHtml(s)]: the parameter defaults to the empty string when it is
    [undefined]; only a string has [replaceAll]. *)
Definition escapeHtml (s : value) : result string :=
  match s with
  | VUndefined => OK (escaped EmptyString)
  | VStr s' => OK (escaped s')
  | _ => Throw TypeError
  end.

(** The double quote and the line feed of the popup's template. *)
Definition dq : string := String (ascii_of_nat 34) EmptyString.
Definition nl : string := String (ascii_of_nat 10) EmptyString.

Fixpoint spaces (n : nat) : string :=
  match n with
  | O => EmptyString
  | S k => String " " (spaces k)
  end.

(** An opening tag with its class, as the popup writes it. *)
Definition openTag (tag class : string) : string :=
  "<" ++ tag ++ " class=" ++ dq ++ class ++ dq ++ ">".

(** The popup's template, with the five escaped texts in place. *)
Definition popupHtml (title community developer price status : string) : string :=
  openTag "div" "map-popup" ++ nl ++
  spaces 14 ++ openTag "div" "map-popup-title" ++ title ++ "</div>" ++ nl ++
  spaces 14 ++ openTag "div" "map-popup-sub" ++ community ++ bullet ++ developer ++ "</div>" ++ nl ++
  spaces 14 ++ openTag "div" "map-popup-row" ++ nl ++
  spaces 16 ++ openTag "span" "map-popup-price" ++ price ++ "</span>" ++ nl ++
  spaces 16 ++ openTag "span" "map-popup-pill" ++ status ++ "</span>" ++ nl ++
  spaces 14 ++ "</div>" ++ nl ++
  spaces 12 ++ "</div>".

(** [selectedId ? String(selectedId) : ""] for the string the page passes. *)
Definition selectedIdStr (selectedId : string) : string :=
  if negb (Str.isEmpty selectedId) then selectedId else EmptyString.

(** [selectedIdStr && String(p.id) === selectedIdStr] *)
Definition isSelected (selectedId : string) (p : listing) : bool :=
  negb (Str.isEmpty (selectedIdStr selectedId)) &&
  String.eqb (Listing.id p) (selectedIdStr selectedId).

Record marker : Type := {
  position : option number * option number;
  selectedIcon : bool;
  popup : string;
  popupOpen : bool;
  target : listing
}.

(** What the effect does to the view of the map. *)
Inductive viewChange : Type :=
| SetView (center : option number * option number) (zoom : number)
| FitBounds (bounds : list (option number * option number))
| Unchanged.

Section Effect.

(** [new Intl.NumberFormat("en-AE").format(n)] *)
Variable formatAED : number -> string.

Definition priceLabel (p : listing) : string :=
  match minPrice p with
  | Some n => "AED " ++ formatAED n
  | None => "Price N/A"
  end.

(** [p.statusLabel || "Status"] *)
Definition statusLabelOf (p : listing) : value :=
  if truthy (statusLabel p) then statusLabel p else VStr "Status".

(** The marker the loop adds for one pin. *)
Definition markerOf (selectedId : string) (p : listing) : result marker :=
  let selected := isSelected selectedId p in
  t <- escapeHtml (title p) ;;
  c <- escapeHtml (Listing.community p) ;;
  d <- escapeHtml (Listing.developer p) ;;
  pr <- escapeHtml (VStr (priceLabel p)) ;;
  s <- escapeHtml (statusLabelOf p) ;;
  OK {| position := (lat p, lng p);
        selectedIcon := selected;
        popup := popupHtml t c d pr s;
        popupOpen := selected;
        target := p |}.

(** [selectedLatLng] after the loop: the position of the last selected
    marker. *)
Definition selectedLatLng (ms : list marker) : option (option number * option number) :=
  fold_left (fun acc m => if selectedIcon m then Some (position m) else acc) ms None.

(** The marker effect once the map is ready: the markers it adds and what
    it does to the view ([zoom] is the zoom the map has).  [Throw]: a popup
    could not be built; the loop ends there and the view is not touched. *)
Definition effect (zoom : number) (properties : option (list listing)) (selectedId : string)
  : result (list marker * viewChange) :=
  ms <- mapM (markerOf selectedId) (MapView.pins properties) ;;
  let bounds := List.map position ms in
  OK (ms,
      match selectedLatLng ms with
      | Some c => SetView c (NumMore.max2 zoom (Fin 13 0))
      | None =>
          match bounds with
          | [] => Unchanged
          | _ => FitBounds bounds
          end
      end).

End Effect.

End Markers.

(** ** Vocabulary of the statements *)

(** A string stops [p]: it is empty or starts with a character outside [p]. *)
Definition stops (p : ascii -> bool) (s : string) : Prop :=
  match s with
  | EmptyString => True
  | String c _ => p c = false
  end.

(** The shape the price parser accepts: after trimming and upper-casing, a
    non-empty run [m1] of digits and dots, white space [ws], and the
    magnitude letter [c]. *)
Definition priceShape (s m1 ws : string) (c : ascii) : Prop :=
  Str.toUpperCase (Str.trim s) = m1 ++ ws ++ String c "" /\
  m1 <> "" /\ Str.all isNumChar m1 = true /\
  Str.all Str.isSpace ws = true /\ isMagnitude c = true.

Definition multiplier (c : ascii) : number :=
  if Ascii.eqb c "M" then Fin 1000000 0 else Fin 1000 0.

(** The number of decimal points in a run. *)
Fixpoint dots (s : string) : nat :=
  match s with
  | EmptyString => O
  | String c r => ((if Ascii.eqb c "." then 1 else 0) + dots r)%nat
  end.


(** [x] may stand before [y] under a comparison. *)
Definition notAfter {A : Type} (cmp : A -> A -> comparison) (x y : A) : Prop :=
  cmp x y <> Gt.

(** The first comparison, and the second where the first ties. *)
Definition lex (c1 c2 : comparison) : comparison :=
  match c1 with
  | Eq => c2
  | c => c
  end.

(** Keys with [None] last: ascending or descending among the others. *)
Definition keyCompare (descending : bool) (a b : option Z) : comparison :=
  match a, b with
  | None, None => Eq
  | None, Some _ => Gt
  | Some _, None => Lt
  | Some x, Some y => if descending then y ?= x else x ?= y
  end.

Definition keyed {A : Type} (key : A -> option Z) (descending : bool)
  (c2 : A -> A -> comparison) (x y : A) : comparison :=
  lex (keyCompare descending (key x) (key y)) (c2 x y).

(** The title a listing is sorted by: lower case, empty when absent. *)
Definition titleKey (p : listing) : string :=
  match orElse (title p) (VStr "") with
  | VStr s => Str.toLowerCase s
  | _ => ""
  end.

Definition hasTextTitle (p : listing) : bool :=
  match title p with
  | VStr _ | VUndefined | VNull => true
  | _ => false
  end.


Definition isIntOrNull (a : option number) : bool :=
  match a with
  | None => true
  | Some (Fin _ 0) => true
  | _ => false
  end.

(** A Number that is an integer. *)
Definition integral (x : number) : Prop := exists z, x = Fin z 0.




Definition byTitle (host : Host) (a b : listing) : comparison :=
  localeCompare host (titleKey a) (titleKey b).

(** [a] may stand before [b] in a list sorted by [key]: a listing with a
    key before one without; two keys in order, ascending or descending; on
    equal keys, or with no key on either side, titles in collation order. *)
Definition before (host : Host) (descending : bool) (key : listing -> option Z)
  (a b : listing) : Prop :=
  match key a, key b with
  | Some x, Some y =>
      (if descending then y < x else x < y) \/
      (x = y /\ localeCompare host (titleKey a) (titleKey b) <> Gt)
  | Some _, None => True
  | None, Some _ => False
  | None, None => localeCompare host (titleKey a) (titleKey b) <> Gt
  end.

(** The unit-type label of a variation is text when it is a string or is
    absent. *)
Definition textLabel (uv : value) : Prop :=
  match getOpt uv "unit_type" with
  | VStr _ | VUndefined | VNull => True
  | _ => False
  end.

(** The non-empty unit-type labels of the variations, in order. *)
Definition labelsOf (items : list value) : list string :=
  flat_map (fun uv => match getOpt uv "unit_type" with
                      | VStr s => if Str.isEmpty s then [] else [s]
                      | _ => []
                      end) items.

(** The summary of a list of distinct types in its final order. *)
Definition renderTypes (types : list string) : string :=
  if (List.length types <=? 3)%nat then Str.join bullet types
  else Str.join bullet (firstn 3 types) ++ bullet ++ "+" ++
       decimalString (Z.of_nat (List.length types) - 3).

(** The first occurrence of each string not seen before. *)
Fixpoint distinctInto (seen : list string) (l : list string) : list string :=
  match l with
  | [] => []
  | x :: r =>
      if existsb (String.eqb x) seen then distinctInto seen r
      else x :: distinctInto (x :: seen) r
  end.

(** The comparison of two strings as values. *)
Definition collate (host : Host) (a b : value) : comparison :=
  match a, b with
  | VStr x, VStr y => localeCompare host x y
  | _, _ => Eq
  end.

(** The raw record carries at least one unit variation. *)
Definition hasUnits (p : value) : Prop :=
  exists uv rest, getOpt p "unit_variations" = VArr (uv :: rest).

(** [String(v)] returns. *)
Definition converts (host : Host) (v : value) : Prop :=
  exists s, toString host v = OK s.

(** A record the normalizer accepts: an object or a primitive, whose id,
    coordinates, image and status code convert to strings, and whose unit
    types, when it has unit variations, are text. *)
Definition wellFormed (host : Host) (p : value) : Prop :=
  nullish p = false /\
  converts host (getOpt p "id") /\
  converts host (getOpt p "latitude") /\
  converts host (getOpt p "longitude") /\
  converts host (getOpt p "image") /\
  converts host (getOpt p "sales_status") /\
  (forall items, getOpt p "unit_variations" = VArr items -> Forall textLabel items).

(** [needle] occurs in [hay]. *)
Definition occursIn (needle hay : string) : Prop :=
  exists pre post, hay = pre ++ needle ++ post.

(** The text of a field that is a string. *)
Definition textOf (v : value) : string :=
  match v with
  | VStr s => s
  | _ => ""
  end.

Definition isText (v : value) : Prop :=
  match v with
  | VStr _ => True
  | _ => False
  end.

(** A listing whose five searched fields are strings, as the normalizer
    makes them from a feed of strings. *)
Definition textListing (p : listing) : Prop :=
  isText (title p) /\ isText (Listing.community p) /\ isText (Listing.developer p) /\
  isText (statusLabel p) /\ isText (completionDate p).

Definition searchedFields (p : listing) : list string :=
  List.map textOf [title p; Listing.community p; Listing.developer p; statusLabel p;
                   completionDate p].

(** The searched text: the non-empty fields joined by one space, in lower
    case. *)
Definition searchText (p : listing) : string :=
  Str.toLowerCase
    (Str.join " " (filter (fun s => negb (Str.isEmpty s)) (searchedFields p))).


(** What a listing must satisfy to pass the filters of a state. *)
Definition matches (st : App.state) (p : listing) : Prop :=
  (App.community st = "" \/ Listing.community p = VStr (App.community st)) /\
  (App.developer st = "" \/ Listing.developer p = VStr (App.developer st)) /\
  (App.status st = "" \/ statusLabel p = VStr (App.status st)) /\
  (Str.toLowerCase (Str.trim (App.q st)) = "" \/
   occursIn (Str.toLowerCase (Str.trim (App.q st))) (searchText p)).

(** The filter callback on a text listing, without the exception. *)
Definition keepsText (st : App.state) (p : listing) : bool :=
  let qq := Str.toLowerCase (Str.trim (App.q st)) in
  (Str.isEmpty (App.community st) || negb (differs (Listing.community p) (App.community st))) &&
  (Str.isEmpty (App.developer st) || negb (differs (Listing.developer p) (App.developer st))) &&
  (Str.isEmpty (App.status st) || negb (differs (statusLabel p) (App.status st))) &&
  (Str.isEmpty qq || Str.includes (searchText p) qq).

(** The comparison of the sort, without the exception. *)
Definition projectOrder (host : Host) (sortBy : string) (a b : listing) : comparison :=
  match compareProjects host sortBy a b with
  | OK c => c
  | Throw _ => Eq
  end.

Definition listingsOf (properties : option (list listing)) : list listing :=
  match properties with
  | Some l => l
  | None => []
  end.

(** A listing the map can plot: geolocated and inside the bounding box. *)
Definition plottable (p : listing) : bool :=
  MapView.geolocated p && MapView.isInMiddleEastBBox (lat p) (lng p).

(** The pins as the specification words them: the first listings that are
    geolocated, up to the cap. *)
Definition firstGeolocated (properties : list listing) : list listing :=
  firstn MapView.MAX_MARKERS (filter MapView.geolocated properties).

(** [payload?.data?.projects] *)
Definition projectsOf (payload : value) : value :=
  getOpt (getOpt payload "data") "projects".

Definition loadErrorOf (text : string) : string :=
  "Could not load properties.json (" ++ text ++ ")".

(** The finite prices the variations of a record parse to, in order. *)
Definition unitPrices (items : list value) : list number :=
  finiteOnly (List.map (fun uv => parsePriceAED (getOpt uv "starting_price")) items).

(** A Number that is a natural number. *)
Definition natural (x : number) : Prop := exists z, 0 <= z /\ x = Fin z 0.

(** No character of the string is a space (U+0020). *)
Definition noSpace (s : string) : bool :=
  Str.all (fun c => negb (Ascii.eqb c " ")) s.

(** The sort keys [sortProjects] has a case for, the default apart. *)
Definition namedSorts : list string :=
  [ "price_asc"; "price_desc"; "completion_asc"; "completion_desc"; "name_desc";
    "name_asc" ].

(** The key of the default sort: a featured listing first. *)
Definition featuredKey (p : listing) : option Z :=
  Some (if featured p then 0 else 1).

(** The distinct non-empty texts a field takes in a catalog. *)
Definition textsOf (field : listing -> value) (catalog : list listing) : list string :=
  filter (fun s => negb (Str.isEmpty s)) (distinctInto [] (List.map (fun p => textOf (field p)) catalog)).

(** A state that filters the catalog of [st] by one field and nothing else. *)
Definition onlyCommunity (c : string) (st : App.state) : App.state :=
  {| App.all := App.all st; App.loadError := App.loadError st;
     App.showMap := App.showMap st; App.selectedId := App.selectedId st;
     App.community := c; App.developer := ""; App.status := ""; App.q := "";
     App.sortBy := App.sortBy st |}.

Definition onlyDeveloper (d : string) (st : App.state) : App.state :=
  {| App.all := App.all st; App.loadError := App.loadError st;
     App.showMap := App.showMap st; App.selectedId := App.selectedId st;
     App.community := ""; App.developer := d; App.status := ""; App.q := "";
     App.sortBy := App.sortBy st |}.

Definition onlyStatus (s : string) (st : App.state) : App.state :=
  {| App.all := App.all st; App.loadError := App.loadError st;
     App.showMap := App.showMap st; App.selectedId := App.selectedId st;
     App.community := ""; App.developer := ""; App.status := s; App.q := "";
     App.sortBy := App.sortBy st |}.

(** No character of the string opens or closes a tag. *)
Definition noMarkup (s : string) : bool :=
  Str.all (fun c => negb (Ascii.eqb c "<" || Ascii.eqb c ">")) s.

(** No character of the string is one [escapeHtml] replaces. *)
Definition plainText (s : string) : bool :=
  Str.all (fun c => negb (Ascii.eqb c "&" || Ascii.eqb c "<" || Ascii.eqb c ">")) s.

(** What [escapeHtml] writes for one character. *)
Definition entity (c : ascii) : string :=
  if Ascii.eqb c "&" then "&amp;"
  else if Ascii.eqb c "<" then "&lt;"
  else if Ascii.eqb c ">" then "&gt;"
  else String c "".

Definition coordinates (p : listing) : option number * option number := (lat p, lng p).

(** Zero or above: a finite value with a significand that is not negative,
    or plus infinity. *)
Definition notNegative (x : number) : Prop :=
  match x with
  | NaN => False
  | Inf s => s = false
  | Fin m _ => 0 <= m
  end.


(** The marker the effect adds for a text listing. *)
Definition textMarker (formatAED : number -> string) (selectedId : string) (p : listing)
  : Markers.marker :=
  {| Markers.position := (lat p, lng p);
     Markers.selectedIcon := Markers.isSelected selectedId p;
     Markers.popup :=
       Markers.popupHtml (Markers.escaped (textOf (title p)))
         (Markers.escaped (textOf (Listing.community p)))
         (Markers.escaped (textOf (Listing.developer p)))
         (Markers.escaped (Markers.priceLabel formatAED p))
         (Markers.escaped (if Str.isEmpty (textOf (statusLabel p)) then "Status"
                           else textOf (statusLabel p)));
     Markers.popupOpen := Markers.isSelected selectedId p;
     Markers.target := p |}.

(** Every character of the string is an ASCII character.  On such text
    [trim], the white space of a pattern, [toLowerCase], [toUpperCase] and
    [includes] are exactly what the embedding computes. *)
Definition isAscii (s : string) : bool := Str.all (fun c => Str.code c <? 128) s.

(** A value that is not a string, or is a string of ASCII characters. *)
Definition asciiValue (v : value) : Prop :=
  match v with
  | VStr s => isAscii s = true
  | _ => True
  end.

Definition asciiTitle (p : listing) : Prop := asciiValue (title p).


(** A listing whose five searched fields are ASCII where they are
    strings. *)
Definition asciiListing (p : listing) : Prop :=
  asciiValue (title p) /\ asciiValue (Listing.community p) /\
  asciiValue (Listing.developer p) /\ asciiValue (statusLabel p) /\
  asciiValue (completionDate p).


(** The featured rule as the specification words it: an explicit truthy
    flag, or a non-empty image, both coordinates present in raw form
    (neither [null] nor [undefined]) and at least one unit variation. *)
Definition featuredBySpec (p : value) : Prop :=
  truthy (getOpt p "featured") = true \/
  (truthy (getOpt p "image") = true /\
   nullish (getOpt p "latitude") = false /\
   nullish (getOpt p "longitude") = false /\
   hasUnits p).

(** ** Sample data of the examples *)

(** A host for the examples: collation by code unit, no URL accepted. *)
Definition sampleHost : Host :=
  {| fractionToString := fun _ => "";
     nativeToString := fun _ => "";
     parseURL := fun _ => None;
     localeCompare := String.compare;
     typeErrorMessage := "not a function";
     syntaxErrorMessage := "Unexpected token" |}.

Definition sampleListing (name : string) (price : option number) (date : string) : listing :=
  {| id := name; title := VStr name; community := VStr ""; developer := VStr "";
     coverImage := ""; lat := None; lng := None; hasPin := false;
     completionDate := VStr date; salesStatusCode := VUndefined;
     statusLabel := VStr "Unknown"; minPrice := price; featured := false;
     unitTypesLabel := ""; raw := VObj [] |}.

Definition sampleCatalog : list listing :=
  [ sampleListing "Beta" (Some (Fin 715000 0)) "Q3 2026";
    sampleListing "Gamma" None "soon";
    sampleListing "alpha" (Some (Fin 715000 0)) "Q1 2027";
    sampleListing "Delta" (Some (Fin 7320000 0)) "" ].

Definition sampleUnit (unitType : string) : value :=
  VObj [("unit_type", VStr unitType); ("starting_price", VStr "1 M")].

Definition fiveTypes : list value :=
  [sampleUnit "A"; sampleUnit "B"; sampleUnit "C"; sampleUnit "D"; sampleUnit "E"].

Definition sampleRecord : value :=
  VObj [ ("id", VStr "17"); ("name", VStr "Marina Heights");
         ("latitude", VStr "25.2048"); ("longitude", VStr "not a number");
         ("image", VStr "https://cdn.example/a.jpg");
         ("unit_variations", VArr [sampleUnit "2 BR"]) ].

(** A record with two numeric unit types. *)
Definition numericUnitTypes : value :=
  VObj [("unit_variations",
         VArr [VObj [("unit_type", VNum (Fin 1 0))];
               VObj [("unit_type", VNum (Fin 2 0))]])].

Definition searchState (catalog : list listing) (query : string) : App.state :=
  {| App.all := catalog; App.loadError := ""; App.showMap := true;
     App.selectedId := ""; App.community := ""; App.developer := "";
     App.status := ""; App.q := query; App.sortBy := "featured_then_name" |}.

(** A listing with a title and a developer and no community. *)
Definition sparseListing : listing :=
  {| id := "1"; title := VStr "a"; community := VStr ""; developer := VStr "b";
     coverImage := ""; lat := None; lng := None; hasPin := false;
     completionDate := VStr ""; salesStatusCode := VUndefined;
     statusLabel := VStr "Unknown"; minPrice := None; featured := false;
     unitTypesLabel := ""; raw := VObj [] |}.

Definition pinAt (name : string) (latitude longitude : number) : listing :=
  {| id := name; title := VStr name; community := VStr ""; developer := VStr "";
     coverImage := ""; lat := Some latitude; lng := Some longitude; hasPin := true;
     completionDate := VStr ""; salesStatusCode := VUndefined;
     statusLabel := VStr "Unknown"; minPrice := None; featured := false;
     unitTypesLabel := ""; raw := VObj [] |}.

(** Dubai Marina (25.0805, 55.1403) and London (51.5, -0.125). *)
Definition dubai : listing := pinAt "Dubai" (parseFloat "25.0805") (parseFloat "55.1403").
Definition london : listing := pinAt "London" (Fin 103 (-1)) (Fin (-1) (-3)).

Definition notFound : App.response :=
  {| App.ok := false; App.httpStatus := Fin 404 0; App.json := None |}.

Definition loadedState : App.state := searchState [sparseListing] "".

(** Three variations: two prices and one that does not parse. *)
Definition twoPrices : value :=
  VArr [ VObj [("starting_price", VStr "7.32 M")]; VObj [("starting_price", VStr "n/a")];
         VObj [("starting_price", VStr "715 K")] ].


(** A listing of a community. *)
Definition inCommunity (name place : string) : listing :=
  {| id := name; title := VStr name; community := VStr place; developer := VStr "";
     coverImage := ""; lat := None; lng := None; hasPin := false;
     completionDate := VStr ""; salesStatusCode := VUndefined;
     statusLabel := VStr "Unknown"; minPrice := None; featured := false;
     unitTypesLabel := ""; raw := VObj [] |}.

Definition communityCatalog : list listing :=
  [ inCommunity "Vida" "Marina"; inCommunity "Opus" "Downtown";
    inCommunity "Elie" "Marina"; inCommunity "Lone" "" ].

(** A listing whose title is the number 42. *)
Definition numberTitled : listing :=
  {| id := "42"; title := VNum (Fin 42 0); community := VStr ""; developer := VStr "";
     coverImage := ""; lat := None; lng := None; hasPin := false;
     completionDate := VStr ""; salesStatusCode := VUndefined;
     statusLabel := VStr "Unknown"; minPrice := None; featured := false;
     unitTypesLabel := ""; raw := VObj [("name", VNum (Fin 42 0))] |}.

(** A record at latitude 0 and longitude 0, with an image and one unit
    variation. *)
Definition zeroCoordinates : value :=
  VObj [ ("image", VStr "x.jpg"); ("latitude", VNum (Fin 0 0));
         ("longitude", VNum (Fin 0 0)); ("unit_variations", VArr [VObj []]) ].

(** * Properties *)

(** ** Facts about numbers *)

Module NumFacts.

Lemma round_half_even_unit (p : Z) : round_half_even p 1 = p.
Proof.
  unfold round_half_even. rewrite Z.mod_1_r, Z.div_1_r. reflexivity.
Qed.

Lemma round_half_even_lower (p q : Z) : p / q <= round_half_even p q.
Proof.
  unfold round_half_even.
  destruct (2 * (p mod q) ?= q); [destruct (Z.even (p / q)) | |]; lia.
Qed.

Lemma ilog2_unit (p : Z) : 0 < p -> ilog2 p 1 = Z.log2 p.
Proof.
  intros Hp. unfold ilog2. rewrite Z.log2_1, Z.sub_0_r.
  pose proof (Z.log2_nonneg p) as Hl.
  destruct (Z.leb_spec 0 (Z.log2 p)); [| lia].
  pose proof (Z.log2_spec p Hp) as [Hlo _].
  destruct (Z.ltb_spec p (1 * 2 ^ Z.log2 p)); [lia | reflexivity].
Qed.

Lemma reduce_shift (k : nat) (p : positive) :
  reduce (Pos.shiftl_nat p k) k = (p, O).
Proof.
  induction k as [| k IH]; simpl.
  - destruct p; reflexivity.
  - exact IH.
Qed.

Lemma shiftl_nat_pow (k : nat) (p : positive) :
  Zpos (Pos.shiftl_nat p k) = Zpos p * 2 ^ Z.of_nat k.
Proof.
  induction k as [| k IH].
  - simpl. lia.
  - rewrite Nat2Z.inj_succ, Z.pow_succ_r by lia.
    change (Pos.shiftl_nat p (S k)) with (xO (Pos.shiftl_nat p k)).
    rewrite Pos2Z.inj_xO, IH. ring.
Qed.

Lemma lowest_shift (p k : Z) : 0 < p -> 0 <= k -> lowest (p * 2 ^ k) (- k) = (p, 0).
Proof.
  intros Hp Hk. unfold lowest.
  destruct (Z.leb_spec 0 (- k)).
  - assert (k = 0) by lia. subst k. simpl. f_equal. lia.
  - replace (- - k) with k by lia.
    destruct p as [| p | p]; try lia.
    replace (Z.pos p * 2 ^ k) with (Zpos (Pos.shiftl_nat p (Z.to_nat k))).
    + simpl Z.to_pos. rewrite reduce_shift. reflexivity.
    + rewrite shiftl_nat_pow, Z2Nat.id by lia. reflexivity.
Qed.

Lemma nearest_small (p : Z) :
  0 < p < 2 ^ 53 -> nearest p 1 = (p * 2 ^ (52 - Z.log2 p), Z.log2 p - 52).
Proof.
  intros [Hp Hlt]. unfold nearest. rewrite ilog2_unit by assumption.
  assert (Hl : 0 <= Z.log2 p < 53).
  { split; [apply Z.log2_nonneg |]. apply Z.log2_lt_pow2; [lia | exact Hlt]. }
  rewrite Z.max_l by lia.
  destruct (Z.leb_spec 0 (Z.log2 p - 52)).
  - assert (E : Z.log2 p = 52) by lia. rewrite E. simpl (52 - 52).
    change (2 ^ (52 - 52)) with 1. 
    replace (1 * 2 ^ 0) with 1 by reflexivity.
    rewrite round_half_even_unit. f_equal. lia.
  - rewrite round_half_even_unit.
    replace (- (Z.log2 p - 52)) with (52 - Z.log2 p) by lia. reflexivity.
Qed.

(** An integer below 2^53 in magnitude is a Number, itself. *)
Lemma of_ratio_small (z : Z) : Z.abs z < 2 ^ 53 -> of_ratio z 1 = Fin z 0.
Proof.
  intros Hz. unfold of_ratio.
  destruct (Z.eqb_spec z 0) as [-> | Hnz]; [reflexivity |].
  rewrite nearest_small by (split; [lia | exact Hz]).
  assert (Hl : 0 <= Z.log2 (Z.abs z) < 53).
  { split; [apply Z.log2_nonneg |]. apply Z.log2_lt_pow2; [lia | exact Hz]. }
  assert (Hpos : 0 < Z.abs z * 2 ^ (52 - Z.log2 (Z.abs z))).
  { apply Z.mul_pos_pos; [lia |]. apply Z.pow_pos_nonneg; lia. }
  destruct (Z.eqb_spec (Z.abs z * 2 ^ (52 - Z.log2 (Z.abs z))) 0); [lia |].
  unfold overflows.
  destruct (Z.ltb_spec 971 (Z.log2 (Z.abs z) - 52)); [lia |].
  destruct (Z.eqb_spec (Z.log2 (Z.abs z) - 52) 971); [lia |].
  simpl orb.
  replace (Z.log2 (Z.abs z) - 52) with (- (52 - Z.log2 (Z.abs z))) by lia.
  rewrite lowest_shift by lia.
  destruct (Z.ltb_spec z 0); f_equal; lia.
Qed.

Lemma of_Z_small (z : Z) : Z.abs z < 2 ^ 53 -> of_Z z = Fin z 0.
Proof. apply of_ratio_small. Qed.


Lemma add_int (a b : Z) : Z.abs (a + b) < 2 ^ 53 -> Num.add (Fin a 0) (Fin b 0) = Fin (a + b) 0.
Proof.
  intros H. unfold Num.add, ratio.
  change (Z.min 0 0) with 0. change (0 - 0) with 0. change (0 <=? 0) with true.
  cbv iota beta. rewrite Z.pow_0_r, !Z.mul_1_r. apply of_ratio_small, H.
Qed.

Lemma nearest_unit_pos (a : Z) : 0 < a -> 0 < fst (nearest a 1).
Proof.
  intros Ha. unfold nearest. rewrite ilog2_unit by assumption.
  pose proof (Z.log2_nonneg a) as Hl.
  pose proof (Z.log2_spec a Ha) as [Hlo _].
  rewrite Z.max_l by lia. cbn [fst]. rewrite Z.mul_1_l.
  destruct (Z.leb_spec 0 (Z.log2 a - 52)).
  - eapply Z.lt_le_trans; [| apply round_half_even_lower].
    apply Z.div_str_pos. split.
    + apply Z.pow_pos_nonneg; lia.
    + etransitivity; [| exact Hlo]. apply Z.pow_le_mono_r; lia.
  - rewrite round_half_even_unit. apply Z.mul_pos_pos; [lia |].
    apply Z.pow_pos_nonneg; lia.
Qed.

Lemma lowest_pos (n e : Z) : 0 < n -> 0 < fst (lowest n e).
Proof.
  intros Hn. unfold lowest. destruct (Z.leb_spec 0 e).
  - simpl. apply Z.mul_pos_pos; [lia |]. apply Z.pow_pos_nonneg; lia.
  - destruct (reduce _ _). simpl. lia.
Qed.

(** Rounding an integer keeps its sign: a difference of integers is zero
    only when they are equal. *)
Lemma sign_of_ratio_unit (p : Z) : Num.sign (of_ratio p 1) = (p ?= 0).
Proof.
  unfold of_ratio. destruct (Z.eqb_spec p 0) as [-> | Hnz]; [reflexivity |].
  pose proof (nearest_unit_pos (Z.abs p) ltac:(lia)) as Hn.
  destruct (nearest (Z.abs p) 1) as [n e]. simpl in Hn.
  destruct (Z.eqb_spec n 0); [lia |].
  destruct (overflows n e).
  - simpl. destruct (Z.ltb_spec p 0); symmetry; [apply Z.compare_lt_iff | apply Z.compare_gt_iff]; lia.
  - pose proof (lowest_pos n e Hn) as Hm. destruct (lowest n e) as [m e']. simpl in Hm.
    simpl. destruct (Z.ltb_spec p 0).
    + transitivity Lt; [apply Z.compare_lt_iff | symmetry; apply Z.compare_lt_iff]; lia.
    + transitivity Gt; [apply Z.compare_gt_iff | symmetry; apply Z.compare_gt_iff]; lia.
Qed.

Lemma truthy_sign (x : number) :
  Num.truthy x = match Num.sign x with Eq => false | _ => true end.
Proof.
  destruct x as [| s | m e]; simpl; [reflexivity | destruct s; reflexivity |].
  destruct (Z.compare_spec m 0) as [-> | H | H]; [reflexivity | |];
    destruct (Z.eqb_spec m 0); simpl; try reflexivity; lia.
Qed.

Lemma sub_int (a b : Z) : Num.sub (Fin a 0) (Fin b 0) = of_ratio (a - b) 1.
Proof.
  unfold Num.sub, Num.add, Num.neg, ratio.
  change (Z.min 0 0) with 0. change (0 - 0) with 0. change (0 <=? 0) with true.
  cbv iota beta. rewrite Z.pow_0_r, !Z.mul_1_r. reflexivity.
Qed.

End NumFacts.

Import NumFacts.

(** ** Facts about strings *)

Module StrFacts.

Lemma append_empty_r (s : string) : s ++ "" = s.
Proof. induction s; simpl; congruence. Qed.

Lemma append_assoc (a b c : string) : (a ++ b) ++ c = a ++ (b ++ c).
Proof. induction a; simpl; congruence. Qed.

Lemma isEmpty_true (s : string) : Str.isEmpty s = true <-> s = "".
Proof. destruct s; simpl; split; congruence. Qed.

Lemma isEmpty_false (s : string) : Str.isEmpty s = false <-> s <> "".
Proof. destruct s; simpl; split; congruence. Qed.

Lemma span_spec (p : ascii -> bool) (s a b : string) :
  Str.span p s = (a, b) -> s = a ++ b /\ Str.all p a = true /\ stops p b.
Proof.
  revert a b. induction s as [| c r IH]; simpl; intros a b H.
  - inversion H; subst. simpl. auto.
  - destruct (p c) eqn:Hc.
    + destruct (Str.span p r) as [a' b'] eqn:Hr. inversion H; subst.
      destruct (IH a' b eq_refl) as (-> & Ha & Hb).
      simpl. rewrite Hc, Ha. auto.
    + inversion H; subst. simpl. auto.
Qed.

Lemma span_app (p : ascii -> bool) (a b : string) :
  Str.all p a = true -> stops p b -> Str.span p (a ++ b) = (a, b).
Proof.
  induction a as [| c r IH]; simpl; intros Ha Hb.
  - destruct b as [| d b']; [reflexivity |]. simpl in *. rewrite Hb. reflexivity.
  - apply andb_true_iff in Ha as [Hc Hr]. rewrite Hc, (IH Hr Hb). reflexivity.
Qed.

Lemma all_app (p : ascii -> bool) (a b : string) :
  Str.all p (a ++ b) = Str.all p a && Str.all p b.
Proof. induction a; simpl; [reflexivity |]. rewrite IHa. apply andb_assoc. Qed.

Lemma map_empty (f : ascii -> ascii) (s : string) : Str.map f s = "" -> s = "".
Proof. destruct s; simpl; congruence. Qed.

Lemma trimEnd_empty : Str.trimEnd "" = "".
Proof. reflexivity. Qed.

Lemma code_range (c : ascii) : 0 <= Str.code c < 256.
Proof.
  unfold Str.code. pose proof (N_ascii_bounded c). lia.
Qed.

Lemma digit_not_space (c : ascii) : Str.isDigit c = true -> Str.isSpace c = false.
Proof.
  unfold Str.isDigit, Str.isSpace. intros H.
  apply andb_true_iff in H as [H1 H2]. apply Z.leb_le in H1, H2.
  apply orb_false_iff. split.
  - apply andb_false_iff. right. apply Z.leb_gt. lia.
  - apply Z.eqb_neq. lia.
Qed.

Lemma digitVal_range (c : ascii) : Str.isDigit c = true -> 0 <= Str.digitVal c <= 9.
Proof.
  unfold Str.isDigit, Str.digitVal. intros H.
  apply andb_true_iff in H as [H1 H2]. apply Z.leb_le in H1, H2. lia.
Qed.

(** The value of a run of [n] digits counts in base ten from [acc]. *)
Lemma decimalFrom_bounds (s : string) (acc : Z) :
  Str.all Str.isDigit s = true -> 0 <= acc ->
  acc * 10 ^ Str.len s <= Str.decimalFrom acc s < (acc + 1) * 10 ^ Str.len s.
Proof.
  revert acc. induction s as [| c r IH]; intros acc Hd Hacc.
  - simpl. unfold Str.len. simpl. lia.
  - simpl in Hd. apply andb_true_iff in Hd as [Hc Hr].
    pose proof (digitVal_range c Hc) as Hv.
    change (Str.decimalFrom acc (String c r))
      with (Str.decimalFrom (10 * acc + Str.digitVal c) r).
    specialize (IH (10 * acc + Str.digitVal c) Hr ltac:(lia)).
    unfold Str.len in *. simpl String.length. rewrite Nat2Z.inj_succ, Z.pow_succ_r by lia.
    assert (HP : 0 < 10 ^ Z.of_nat (String.length r)) by (apply Z.pow_pos_nonneg; lia).
    set (P := 10 ^ Z.of_nat (String.length r)) in *.
    set (d := Str.digitVal c) in *.
    assert (0 <= d * P) by (apply Z.mul_nonneg_nonneg; lia).
    assert ((d + 1) * P <= 10 * P) by (apply Z.mul_le_mono_nonneg_r; lia).
    clearbody P d. nia.
Qed.

Lemma decimal_bounds (s : string) :
  Str.all Str.isDigit s = true -> 0 <= Str.decimal s < 10 ^ Str.len s.
Proof.
  intros H. pose proof (decimalFrom_bounds s 0 H ltac:(lia)). unfold Str.decimal. lia.
Qed.

End StrFacts.

Import StrFacts.

(** ** Facts about the exception monad *)

Lemma bind_OK {A B : Type} (c : result A) (k : A -> result B) (b : B) :
  bind c k = OK b -> exists a, c = OK a /\ k a = OK b.
Proof. destruct c as [a | e]; simpl; [eauto | discriminate]. Qed.

Ltac bind_inv H :=
  repeat match type of H with
         | bind _ _ = OK _ =>
             let a := fresh "a" in
             let E := fresh "E" in
             apply bind_OK in H as (a & E & H)
         end.

Lemma filterM_pure {A : Type} (f : A -> result bool) (g : A -> bool) (l : list A) :
  (forall x, In x l -> f x = OK (g x)) -> filterM f l = OK (filter g l).
Proof.
  induction l as [| x r IH]; simpl; intros H; [reflexivity |].
  rewrite (H x (or_introl eq_refl)). cbn [bind].
  rewrite IH by (intros y Hy; apply H; right; exact Hy). cbn [bind].
  destruct (g x); reflexivity.
Qed.

Lemma get_getOpt (p : value) (k : string) (v : value) :
  get p k = OK v -> v = getOpt p k.
Proof. destruct p; simpl; intros H; inversion H; reflexivity. Qed.

Lemma get_defined (p : value) (k : string) :
  nullish p = false -> get p k = OK (getOpt p k).
Proof. destruct p; simpl; congruence. Qed.

Ltac get_subst :=
  repeat match goal with
         | E : get _ _ = OK ?v |- _ => apply get_getOpt in E; subst v
         end.

(** ** Facts about sorting *)

Section SortFacts.

Context {A : Type}.
Variable cmp : A -> A -> comparison.

Hypothesis cmp_total : forall x y, cmp x y = Gt -> cmp y x <> Gt.
Hypothesis cmp_trans :
  forall x y z, notAfter cmp x y -> notAfter cmp y z -> notAfter cmp x z.

Lemma insert_perm (x : A) (l : list A) : Permutation (x :: l) (insert cmp x l).
Proof.
  induction l as [| y r IH]; simpl; [reflexivity |].
  destruct (cmp x y); try reflexivity.
  rewrite perm_swap. apply perm_skip, IH.
Qed.

Lemma sort_perm (l : list A) : Permutation l (sort cmp l).
Proof.
  induction l as [| x r IH]; simpl; [reflexivity |].
  rewrite <- insert_perm. apply perm_skip, IH.
Qed.

Lemma insert_sorted (x : A) (l : list A) :
  StronglySorted (notAfter cmp) l -> StronglySorted (notAfter cmp) (insert cmp x l).
Proof.
  induction l as [| y r IH]; simpl; intros Hs.
  - constructor; constructor.
  - inversion Hs as [| ? ? Hr Hy]; subst.
    destruct (cmp x y) eqn:E.
    + constructor; [exact Hs |]. constructor; [unfold notAfter; congruence |].
      eapply Forall_impl; [| exact Hy]. intros z Hz.
      apply (cmp_trans x y z); [unfold notAfter; congruence | exact Hz].
    + constructor; [exact Hs |]. constructor; [unfold notAfter; congruence |].
      eapply Forall_impl; [| exact Hy]. intros z Hz.
      apply (cmp_trans x y z); [unfold notAfter; congruence | exact Hz].
    + constructor; [apply IH, Hr |].
      apply (Permutation_Forall (insert_perm x r)).
      constructor; [apply cmp_total, E | exact Hy].
Qed.

Lemma sort_sorted (l : list A) : StronglySorted (notAfter cmp) (sort cmp l).
Proof.
  induction l as [| x r IH]; simpl; [constructor | apply insert_sorted, IH].
Qed.

(** Where the comparison that may throw returns, the sort that may throw
    returns what the pure sort returns. *)
Variable cmpM : A -> A -> result comparison.

Lemma insertM_pure (x : A) (l : list A) :
  (forall y, In y l -> cmpM x y = OK (cmp x y)) ->
  insertM cmpM x l = OK (insert cmp x l).
Proof.
  induction l as [| y r IH]; simpl; intros H; [reflexivity |].
  rewrite (H y (or_introl eq_refl)). simpl.
  destruct (cmp x y); try reflexivity.
  rewrite IH by (intros z Hz; apply H; right; exact Hz). reflexivity.
Qed.

Lemma sortM_pure (l : list A) :
  (forall x y, In x l -> In y l -> cmpM x y = OK (cmp x y)) ->
  sortM cmpM l = OK (sort cmp l).
Proof.
  induction l as [| x r IH]; simpl; intros H; [reflexivity |].
  rewrite IH by (intros a b Ha Hb; apply H; right; assumption). simpl.
  apply insertM_pure. intros y Hy. apply H; [left; reflexivity | right].
  apply (Permutation_in y (Permutation_sym (sort_perm r)) Hy).
Qed.

End SortFacts.

Lemma StronglySorted_impl {A : Type} (R S : A -> A -> Prop) (l : list A) :
  (forall x y, In x l -> In y l -> R x y -> S x y) ->
  StronglySorted R l -> StronglySorted S l.
Proof.
  induction l as [| x r IH]; intros H Hs; [constructor |].
  inversion Hs as [| ? ? Hr Hx]; subst. constructor.
  - apply IH; [| exact Hr]. intros a b Ha Hb. apply H; right; assumption.
  - rewrite Forall_forall in *. intros y Hy.
    apply H; [left; reflexivity | right; exact Hy |]. apply Hx, Hy.
Qed.

Section LexFacts.

Context {A : Type}.
Variable key : A -> option Z.
Variable descending : bool.
Variable c2 : A -> A -> comparison.

Hypothesis c2_antisym : forall x y, c2 y x = CompOpp (c2 x y).
Hypothesis c2_trans : forall x y z, c2 x y <> Gt -> c2 y z <> Gt -> c2 x z <> Gt.

Lemma keyed_total (x y : A) :
  keyed key descending c2 x y = Gt -> keyed key descending c2 y x <> Gt.
Proof.
  unfold keyed, keyCompare. rewrite (c2_antisym x y).
  destruct (key x) as [a |], (key y) as [b |], descending; simpl;
    repeat match goal with
           | |- context [?u ?= ?v] => destruct (Z.compare_spec u v)
           end;
    simpl; try lia; try discriminate; destruct (c2 x y); simpl; congruence.
Qed.

Lemma keyed_trans (x y z : A) :
  keyed key descending c2 x y <> Gt -> keyed key descending c2 y z <> Gt ->
  keyed key descending c2 x z <> Gt.
Proof.
  unfold keyed, keyCompare. pose proof (c2_trans x y z) as T.
  destruct (key x) as [a |], (key y) as [b |], (key z) as [c |], descending; simpl;
    repeat match goal with
           | |- context [?u ?= ?v] => destruct (Z.compare_spec u v)
           end;
    simpl; try lia; try congruence; auto.
Qed.

End LexFacts.

(** The collation of the sample host is a total preorder. *)
Lemma sampleHost_antisym (a b : string) :
  localeCompare sampleHost b a = CompOpp (localeCompare sampleHost a b).
Proof. apply String_as_OT.cmp_antisym. Qed.

Lemma sampleHost_trans (a b c : string) :
  localeCompare sampleHost a b <> Gt -> localeCompare sampleHost b c <> Gt ->
  localeCompare sampleHost a c <> Gt.
Proof.
  simpl. intros H1 H2.
  destruct (String.compare a b) eqn:E1; [| | congruence].
  - apply String_as_OT.cmp_eq in E1. subst. exact H2.
  - destruct (String.compare b c) eqn:E2; [| | congruence].
    + apply String_as_OT.cmp_eq in E2. subst. congruence.
    + apply String_as_OT.cmp_lt in E1, E2.
      pose proof (String_as_OT.lt_trans _ _ _ E1 E2) as E3.
      apply String_as_OT.cmp_lt in E3. unfold String_as_OT.cmp in E3. congruence.
Qed.

(** ** The completion-date parser *)













(** ** The price parser *)

Lemma numChar_cases (c : ascii) :
  isNumChar c = true ->
  Str.isSpace c = false /\ Ascii.eqb c "+" = false /\ Ascii.eqb c "-" = false /\
  Ascii.eqb c "I" = false /\ Ascii.eqb c "e" = false /\ Ascii.eqb c "E" = false.
Proof.
  intros H.
  assert (Hs : Str.isSpace c = false).
  { unfold isNumChar in H. apply orb_true_iff in H as [H | H].
    - apply digit_not_space, H.
    - apply Ascii.eqb_eq in H. subst. reflexivity. }
  repeat split; try assumption;
    match goal with
    | |- Ascii.eqb c ?d = false =>
        destruct (Ascii.eqb_spec c d) as [-> |]; [discriminate H | reflexivity]
    end.
Qed.

Lemma space_not_numChar (c : ascii) : Str.isSpace c = true -> isNumChar c = false.
Proof.
  intros H. destruct (isNumChar c) eqn:E; [| reflexivity].
  apply numChar_cases in E as [E _]. congruence.
Qed.

Lemma magnitude_cases (c : ascii) :
  isMagnitude c = true -> isNumChar c = false /\ Str.isSpace c = false.
Proof.
  unfold isMagnitude. intros H. apply orb_true_iff in H as [H | H];
    apply Ascii.eqb_eq in H; subst; split; reflexivity.
Qed.

Lemma stops_tail (p : ascii -> bool) (ws : string) (c : ascii) :
  (forall d, Str.isSpace d = true -> p d = false) -> p c = false ->
  Str.all Str.isSpace ws = true -> stops p (ws ++ String c "").
Proof.
  intros Hsp Hc Hws. destruct ws as [| d r]; simpl; [exact Hc |].
  simpl in Hws. apply andb_true_iff in Hws as [Hd _]. apply Hsp, Hd.
Qed.

Lemma matchPrice_spec (t m1 : string) (c : ascii) :
  matchPrice t = Some (m1, c) <->
  exists ws, t = m1 ++ ws ++ String c "" /\ m1 <> "" /\
             Str.all isNumChar m1 = true /\ Str.all Str.isSpace ws = true /\
             isMagnitude c = true.
Proof.
  unfold matchPrice. split.
  - destruct (Str.span isNumChar t) as [a r] eqn:Ha.
    destruct (Str.isEmpty a) eqn:He; [discriminate |].
    destruct (Str.span Str.isSpace r) as [ws r'] eqn:Hw.
    destruct r' as [| d [| ? ?]]; try discriminate.
    destruct (isMagnitude d) eqn:Hm; [| discriminate].
    intros H. inversion H; subst.
    apply span_spec in Ha as (-> & Ha & _). apply span_spec in Hw as (-> & Hw & _).
    exists ws. repeat split; auto. apply isEmpty_false, He.
  - intros (ws & -> & Hne & Ha & Hw & Hm).
    destruct (magnitude_cases c Hm) as [Hc1 Hc2].
    rewrite (span_app _ m1 _ Ha (stops_tail _ ws c space_not_numChar Hc1 Hw)).
    apply isEmpty_false in Hne. rewrite Hne.
    rewrite (span_app _ ws (String c "") Hw Hc2), Hm. reflexivity.
Qed.

(** [parseFloat] on text that starts with a digit or a dot: no white space,
    sign or [Infinity] is read. *)
Lemma parseFloat_run (c : ascii) (s : string) :
  isNumChar c = true ->
  parseFloat (String c s) =
  let '(ip, r1) := Str.span Str.isDigit (String c s) in
  let '(fp, r2) := fractionOf r1 in
  if Str.isEmpty ip && Str.isEmpty fp then NaN
  else of_decimal false (Str.decimal (ip ++ fp)) (exponentOf r2 - Str.len fp).
Proof.
  intros H. destruct (numChar_cases c H) as (Hs & Hp & Hm & Hi & _).
  unfold parseFloat. cbn [Str.trimStart]. rewrite Hs.
  unfold signOf. rewrite Hp, Hm.
  cbn [Str.startsWith]. rewrite Ascii.eqb_sym, Hi. reflexivity.
Qed.

Lemma dot_not_digit : Str.isDigit "." = false.
Proof. reflexivity. Qed.

Lemma exponentOf_rest (rest : string) :
  rest = "" \/ (exists r, rest = String "." r) -> exponentOf rest = 0.
Proof. intros [-> | [r ->]]; reflexivity. Qed.

Lemma stops_digit_rest (rest : string) :
  rest = "" \/ (exists r, rest = String "." r) -> stops Str.isDigit rest.
Proof. intros [-> | [r ->]]; simpl; auto. Qed.

Lemma parseFloat_fraction (ip fp rest : string) :
  Str.all Str.isDigit ip = true -> Str.all Str.isDigit fp = true ->
  ip <> "" \/ fp <> "" ->
  rest = "" \/ (exists r, rest = String "." r) ->
  parseFloat (ip ++ String "." (fp ++ rest))
  = of_decimal false (Str.decimal (ip ++ fp)) (- Str.len fp).
Proof.
  intros Hi Hf Hne Hr.
  assert (Hscan : Str.span Str.isDigit (ip ++ String "." (fp ++ rest))
                  = (ip, String "." (fp ++ rest))).
  { apply span_app; [exact Hi | exact dot_not_digit]. }
  assert (Hfrac : fractionOf (String "." (fp ++ rest)) = (fp, rest)).
  { unfold fractionOf. rewrite Ascii.eqb_refl.
    apply span_app; [exact Hf | apply stops_digit_rest, Hr]. }
  assert (Hemp : Str.isEmpty ip && Str.isEmpty fp = false).
  { destruct Hne as [H | H]; apply isEmpty_false in H; rewrite H;
      [reflexivity | apply andb_false_r]. }
  assert (Hstart : exists c s, ip ++ String "." (fp ++ rest) = String c s /\ isNumChar c = true).
  { destruct ip as [| c r].
    - exists "."%char, (fp ++ rest). split; reflexivity.
    - exists c, (r ++ String "." (fp ++ rest)). split; [reflexivity |].
      simpl in Hi. apply andb_true_iff in Hi as [Hc _].
      unfold isNumChar. rewrite Hc. reflexivity. }
  destruct Hstart as (c & s & E & Hc).
  rewrite E, (parseFloat_run c s Hc), <- E, Hscan, Hfrac, Hemp.
  rewrite (exponentOf_rest rest Hr). reflexivity.
Qed.

Lemma parseFloat_integer (ip : string) :
  Str.all Str.isDigit ip = true -> ip <> "" ->
  parseFloat ip = of_decimal false (Str.decimal ip) 0.
Proof.
  intros Hi Hne. destruct ip as [| c r]; [congruence |].
  assert (Hc : isNumChar c = true).
  { simpl in Hi. apply andb_true_iff in Hi as [Hc _]. unfold isNumChar. rewrite Hc. reflexivity. }
  rewrite (parseFloat_run c r Hc).
  pose proof (span_app Str.isDigit (String c r) "" Hi I) as Hs.
  rewrite append_empty_r in Hs. rewrite Hs.
  cbn [fractionOf Str.isEmpty andb exponentOf]. rewrite append_empty_r. reflexivity.
Qed.

Lemma parseFloat_no_literal (rest : string) :
  stops Str.isDigit rest -> parseFloat (String "." rest) = NaN.
Proof.
  intros Hr. rewrite (parseFloat_run "." rest eq_refl).
  cbn [Str.span]. rewrite dot_not_digit.
  unfold fractionOf. rewrite Ascii.eqb_refl.
  destruct rest as [| d r]; [reflexivity |].
  simpl in Hr. cbn [Str.span]. rewrite Hr. reflexivity.
Qed.

(** X24.  What the price parser accepts.  On an input that is not a
    string, or is a string of ASCII characters, [parsePriceAED] returns a
    number exactly for a string whose trimmed, upper-cased text is a
    non-empty run of digits and dots, optional white space and one letter
    M or K, and whose run [parseFloat] reads as a finite number; the result
    is [Math.round] of that number times 1,000,000 for M and 1,000 for K,
    and every other such input gives null.  [parseFloat] reads the longest
    leading literal of the run: the binary64 value of digits with an
    optional fraction, whatever follows a second dot being ignored, and NaN
    when the run starts with a dot that no digit follows. *)
Theorem price_grammar :
  (forall v r,
     asciiValue v ->
     (parsePriceAED v = Some r <->
      exists s m1 ws c,
        v = VStr s /\ priceShape s m1 ws c /\
        isFinite (parseFloat m1) = true /\
        r = Num.round (Num.mul (parseFloat m1) (multiplier c))))
  /\
  (forall ip fp rest,
     Str.all Str.isDigit ip = true -> Str.all Str.isDigit fp = true ->
     ip <> "" \/ fp <> "" ->
     rest = "" \/ (exists r, rest = String "." r) ->
     parseFloat (ip ++ String "." (fp ++ rest))
     = of_decimal false (Str.decimal (ip ++ fp)) (- Str.len fp))
  /\
  (forall ip,
     Str.all Str.isDigit ip = true -> ip <> "" ->
     parseFloat ip = of_decimal false (Str.decimal ip) 0)
  /\
  (forall rest, stops Str.isDigit rest -> parseFloat (String "." rest) = NaN).
Proof.
  split; [| split; [exact parseFloat_fraction | split;
                    [exact parseFloat_integer | exact parseFloat_no_literal]]].
  intros v r _. split.
  - unfold parsePriceAED. destruct v; try discriminate.
    destruct (Str.isEmpty s) eqn:He; [discriminate |].
    destruct (matchPrice _) as [[m1 c] |] eqn:Hm; [| discriminate].
    destruct (isFinite (parseFloat m1)) eqn:Hf; [| discriminate].
    simpl negb. cbv iota. intros H. inversion H; subst.
    apply matchPrice_spec in Hm as (ws & Ht & Hne & Ha & Hw & Hc).
    exists s, m1, ws, c. repeat split; auto.
  - intros (s & m1 & ws & c & -> & (Ht & Hne & Ha & Hw & Hc) & Hf & ->).
    unfold parsePriceAED.
    destruct (Str.isEmpty s) eqn:He.
    + apply isEmpty_true in He. subst s. destruct m1; [congruence | discriminate Ht].
    + assert (Hm : matchPrice (Str.toUpperCase (Str.trim s)) = Some (m1, c)).
      { apply matchPrice_spec. exists ws. repeat split; assumption. }
      rewrite Hm, Hf. reflexivity.
Qed.

(** X24 on the examples of the specification: ["7.32 M"] gives
    7,320,000, ["715 K"] gives 715,000, a bare number and a bare suffix
    give null. *)
Lemma price_grammar_witness :
  parsePriceAED (VStr "7.32 M") = Some (Fin 7320000 0) /\
  parsePriceAED (VStr "715 K") = Some (Fin 715000 0) /\
  parsePriceAED (VStr "7.32") = None /\
  parsePriceAED (VStr "M") = None /\
  parseFloat "7.32" = of_decimal false 732 (-2).
Proof.
  split; [| split; [| split; [| split]]].
  - apply (proj1 price_grammar (VStr "7.32 M") (Fin 7320000 0)); [reflexivity |].
    exists "7.32 M", "7.32", " ", "M"%char.
    repeat split; vm_compute; congruence.
  - apply (proj1 price_grammar (VStr "715 K") (Fin 715000 0)); [reflexivity |].
    exists "715 K", "715", " ", "K"%char.
    repeat split; vm_compute; congruence.
  - reflexivity.
  - reflexivity.
  - apply (proj1 (proj2 price_grammar) "7" "32" "");
      [reflexivity | reflexivity | left; discriminate | left; reflexivity].
Defined.

(** C1, the failing input.  The text ["1.2.3 M"] is not a numeric literal
    followed by a magnitude letter: its run ["1.2.3"] has two decimal
    points.  The claim requires null for it, and [parsePriceAED] returns
    1,200,000: the pattern admits any run of digits and dots, and
    [parseFloat] reads the leading ["1.2"] and drops the rest. *)
Theorem price_two_dots :
  parsePriceAED (VStr "1.2.3 M") = Some (Fin 1200000 0) /\
  ~ (exists m1 ws c, priceShape "1.2.3 M" m1 ws c /\ (dots m1 <= 1)%nat).
Proof.
  split; [vm_compute; reflexivity |].
  intros (m1 & ws & c & (Ht & Hne & Ha & Hw & Hc) & Hd).
  assert (Hm : matchPrice (Str.toUpperCase (Str.trim "1.2.3 M")) = Some (m1, c)).
  { apply matchPrice_spec. exists ws. repeat split; assumption. }
  vm_compute in Hm. inversion Hm; subst. vm_compute in Hd. lia.
Qed.

(** ** The sort of the query engine *)

Section QueryFacts.

Variable host : Host.

Lemma lowerTitle_text (p : listing) :
  hasTextTitle p = true -> lowerTitle p = OK (titleKey p).
Proof.
  unfold hasTextTitle, lowerTitle, titleKey.
  destruct (title p); simpl; congruence.
Qed.

Lemma sign_numberOfComparison (c : comparison) : Num.sign (numberOfComparison c) = c.
Proof. destruct c; reflexivity. Qed.

Lemma sign_orNumber (x : number) (c : comparison) :
  Num.sign (orNumber x (numberOfComparison c)) = lex (Num.sign x) c.
Proof.
  unfold orNumber. rewrite truthy_sign.
  destruct (Num.sign x) eqn:E; simpl; [apply sign_numberOfComparison | exact E | exact E].
Qed.


Lemma sign_sub_int (x y : Z) : Num.sign (Num.sub (Fin x 0) (Fin y 0)) = (x ?= y).
Proof.
  rewrite sub_int, sign_of_ratio_unit. symmetry. apply Z.compare_sub.
Qed.






(** The collation is a consistent comparison: a total preorder. *)
Hypothesis collation_antisym :
  forall a b, localeCompare host b a = CompOpp (localeCompare host a b).
Hypothesis collation_trans :
  forall a b c, localeCompare host a b <> Gt -> localeCompare host b c <> Gt ->
                localeCompare host a c <> Gt.

Lemma byTitle_antisym (x y : listing) :
  byTitle host y x = CompOpp (byTitle host x y).
Proof. apply collation_antisym. Qed.

Lemma byTitle_trans (x y z : listing) :
  byTitle host x y <> Gt -> byTitle host y z <> Gt -> byTitle host x z <> Gt.
Proof. apply collation_trans. Qed.

Lemma keyed_before (key : listing -> option Z) (descending : bool) (a b : listing) :
  keyed key descending (byTitle host) a b <> Gt -> before host descending key a b.
Proof.
  unfold keyed, before, keyCompare, byTitle.
  destruct (key a) as [x |], (key b) as [y |], descending; simpl;
    repeat match goal with
           | |- context [?u ?= ?v] => destruct (Z.compare_spec u v)
           end;
    simpl; try congruence; auto; intros H; try (left; lia); right; split; auto.
Qed.

Lemma sorted_by_key (key : listing -> option Z) (descending : bool)
  (cmpM : listing -> listing -> result comparison) (l : list listing) :
  (forall a b, In a l -> In b l ->
               cmpM a b = OK (keyed key descending (byTitle host) a b)) ->
  exists res, sortM cmpM l = OK res /\ Permutation l res /\
              StronglySorted (before host descending key) res.
Proof.
  intros H. exists (sort (keyed key descending (byTitle host)) l).
  split; [apply sortM_pure, H |]. split; [apply sort_perm |].
  eapply StronglySorted_impl; [| apply sort_sorted].
  - intros x y _ _. apply keyed_before.
  - apply keyed_total, byTitle_antisym.
  - apply keyed_trans, byTitle_trans.
Qed.




End QueryFacts.


Lemma sampleCatalog_asciiTitle : Forall asciiTitle sampleCatalog.
Proof. repeat constructor. Qed.


(** ** The normalizer: unit types *)

Lemma existsb_eqb_In (x : string) (l : list string) :
  existsb (String.eqb x) l = true <-> In x l.
Proof.
  rewrite existsb_exists. split.
  - intros (y & Hy & E). apply String.eqb_eq in E. subst. exact Hy.
  - intros H. exists x. split; [exact H | apply String.eqb_refl].
Qed.

Lemma distinctInto_spec (l seen : list string) :
  NoDup (distinctInto seen l) /\
  (forall s, In s (distinctInto seen l) <-> In s l /\ ~ In s seen).
Proof.
  revert seen. induction l as [| x r IH]; intros seen; simpl.
  - split; [constructor | intros s; tauto].
  - destruct (existsb (String.eqb x) seen) eqn:E.
    + apply existsb_eqb_In in E. destruct (IH seen) as [N M]. split; [exact N |].
      intros s. rewrite M. split; [tauto |]. intros [[-> | H] Hn]; tauto.
    + assert (Hx : ~ In x seen).
      { intros H. apply existsb_eqb_In in H. congruence. }
      destruct (IH (x :: seen)) as [N M]. split.
      * constructor; [| exact N]. rewrite M. simpl. tauto.
      * intros s. simpl. rewrite M. simpl. split.
        -- intros [-> | [H Hn]]; tauto.
        -- intros [[-> | H] Hn]; [tauto |].
           destruct (string_dec x s) as [-> | Hne]; [tauto |]. right. tauto.
Qed.

Section UnitTypes.

Variable host : Host.

Lemma dedupInto_strings (l seen : list string) :
  dedupInto (List.map VStr seen) (List.map VStr l)
  = List.map VStr (distinctInto seen l).
Proof.
  revert seen. induction l as [| x r IH]; intros seen; simpl; [reflexivity |].
  assert (E : existsb (sameValueZero (VStr x)) (List.map VStr seen)
              = existsb (String.eqb x) seen).
  { clear. induction seen as [| y t IHt]; simpl; [reflexivity |]. rewrite IHt. reflexivity. }
  rewrite E. destruct (existsb (String.eqb x) seen).
  - apply IH.
  - simpl. f_equal. apply (IH (x :: seen)).
Qed.

Lemma filter_truthy_strings (l : list string) :
  Forall (fun s => s <> "") l -> filter truthy (List.map VStr l) = List.map VStr l.
Proof.
  induction 1 as [| x r Hx _ IH]; simpl; [reflexivity |].
  apply isEmpty_false in Hx. rewrite Hx. simpl. f_equal. exact IH.
Qed.

Lemma labels_of_text (items : list value) :
  Forall textLabel items ->
  filter truthy (List.map (fun uv => getOpt uv "unit_type") items)
  = List.map VStr (labelsOf items).
Proof.
  induction 1 as [| uv r Huv _ IH]; simpl; [reflexivity |].
  unfold textLabel in Huv. unfold labelsOf in *. simpl.
  destruct (getOpt uv "unit_type"); simpl; try contradiction; try exact IH.
  destruct (Str.isEmpty s); simpl; [exact IH | f_equal; exact IH].
Qed.

Lemma labelsOf_nonempty (items : list value) :
  Forall (fun s => s <> "") (labelsOf items).
Proof.
  unfold labelsOf. induction items as [| uv r IH]; simpl; [constructor |].
  apply Forall_app. split; [| exact IH].
  destruct (getOpt uv "unit_type"); try constructor.
  destruct (Str.isEmpty s) eqn:E; constructor; [apply isEmpty_false, E | constructor].
Qed.

Lemma insert_map (x : string) (l : list string) :
  insert (collate host) (VStr x) (List.map VStr l)
  = List.map VStr (insert (localeCompare host) x l).
Proof.
  induction l as [| y r IH]; simpl; [reflexivity |].
  destruct (localeCompare host x y); simpl; try reflexivity. f_equal. exact IH.
Qed.

Lemma sort_map (l : list string) :
  sort (collate host) (List.map VStr l) = List.map VStr (sort (localeCompare host) l).
Proof.
  induction l as [| x r IH]; simpl; [reflexivity |]. rewrite IH. apply insert_map.
Qed.

Lemma uniq_strings (l : list string) :
  Forall (fun s => s <> "") l ->
  uniq host (List.map VStr l)
  = OK (List.map VStr (sort (localeCompare host) (distinctInto [] l))).
Proof.
  intros Hl. unfold uniq, dedup.
  change (dedupInto [] (List.map VStr l))
    with (dedupInto (List.map VStr []) (List.map VStr l)).
  rewrite (dedupInto_strings l []).
  assert (Hd : Forall (fun s => s <> "") (distinctInto [] l)).
  { rewrite Forall_forall in *. intros s Hs.
    apply (proj2 (distinctInto_spec l [])) in Hs. apply Hl, Hs. }
  rewrite (filter_truthy_strings _ Hd), <- sort_map.
  apply sortM_pure. intros a b Ha Hb.
  apply in_map_iff in Ha as (x & <- & _). apply in_map_iff in Hb as (y & <- & _).
  reflexivity.
Qed.

Lemma joinValues_strings (sep : string) (l : list string) :
  joinValues host sep (List.map VStr l) = OK (Str.join sep l).
Proof.
  unfold joinValues.
  assert (E : mapM (fun v => if nullish v then OK "" else toString host v)
                (List.map VStr l) = OK l).
  { induction l as [| x r IH]; simpl; [reflexivity |]. rewrite IH. reflexivity. }
  rewrite E. reflexivity.
Qed.

Lemma numberToString_count (n : Z) :
  0 <= n < 2 ^ 32 -> numberToString host (of_Z n) = decimalString n.
Proof.
  intros H. assert (B : 2 ^ 32 < 2 ^ 53) by reflexivity.
  rewrite of_Z_small by lia. unfold numberToString.
  change (0 =? 0) with true.
  destruct (Z.ltb_spec (Z.abs n) (2 ^ 53)); [reflexivity | lia].
Qed.

Hypothesis collation_antisym :
  forall a b, localeCompare host b a = CompOpp (localeCompare host a b).
Hypothesis collation_trans :
  forall a b c, localeCompare host a b <> Gt -> localeCompare host b c <> Gt ->
                localeCompare host a c <> Gt.

Lemma distinctInto_length (l seen : list string) :
  (List.length (distinctInto seen l) <= List.length l)%nat.
Proof.
  revert seen. induction l as [| x r IH]; intros seen; simpl; [lia |].
  destruct (existsb (String.eqb x) seen); simpl.
  - specialize (IH seen). lia.
  - specialize (IH (x :: seen)). lia.
Qed.

Lemma labelsOf_length (items : list value) :
  (List.length (labelsOf items) <= List.length items)%nat.
Proof.
  unfold labelsOf. induction items as [| uv r IH]; simpl; [lia |].
  rewrite length_app.
  destruct (getOpt uv "unit_type"); simpl; try lia.
  destruct (Str.isEmpty s); simpl; lia.
Qed.

Lemma summarize_nonempty (items : list value) :
  items <> [] ->
  summarizeUnitTypes host (VArr items) =
  (types <- uniq host (filter truthy (List.map (fun uv => getOpt uv "unit_type") items)) ;;
   if (List.length types =? 0)%nat then OK EmptyString
   else if (List.length types <=? 3)%nat then joinValues host bullet types
   else
     head <- joinValues host bullet (firstn 3 types) ;;
     OK (head ++ bullet ++ "+" ++
         numberToString host (of_Z (Z.of_nat (List.length types) - 3)))).
Proof. destruct items; [congruence | reflexivity]. Qed.

(** C6.  [summarizeUnitTypes] gives the empty string for what is not an
    array and for the empty array.  For an array (of fewer than 2^32
    variations, whose unit types are text) it gives the rendering of a
    list [types] that has no duplicate, has exactly the non-empty unit-type
    labels as members and is in collation order: all of them joined by
    [" • "] when they are at most three, else the first three joined by
    [" • "] followed by [" • +N"], N the count of the rest; with no
    non-empty label the rendering is the empty string. *)
Theorem unit_types_summary (unitVariations : value) :
  ((forall items, unitVariations <> VArr items) \/ unitVariations = VArr [] ->
   summarizeUnitTypes host unitVariations = OK "")
  /\
  (forall items,
     unitVariations = VArr items ->
     Forall textLabel items ->
     Z.of_nat (List.length items) < 2 ^ 32 ->
     exists types,
       summarizeUnitTypes host unitVariations = OK (renderTypes types) /\
       NoDup types /\
       (forall s, In s types <-> In s (labelsOf items)) /\
       StronglySorted (fun a b => localeCompare host a b <> Gt) types /\
       (labelsOf items = [] -> renderTypes types = "")).
Proof.
  split.
  { intros [H | ->]; [| reflexivity].
    destruct unitVariations; try reflexivity. destruct items; [reflexivity |].
    exfalso. eapply H. reflexivity. }
  intros items -> Ht Hlen.
  set (types := sort (localeCompare host) (distinctInto [] (labelsOf items))).
  pose proof (distinctInto_spec (labelsOf items) []) as [Hnd Hmem].
  pose proof (sort_perm (localeCompare host) (distinctInto [] (labelsOf items))) as Hperm.
  fold types in Hperm.
  assert (Hcount : (List.length types <= List.length items)%nat).
  { rewrite <- (Permutation_length Hperm).
    etransitivity; [apply distinctInto_length | apply labelsOf_length]. }
  exists types. split; [| split; [| split; [| split]]].
  - destruct (list_eq_dec string_dec (labelsOf items) []) as [El | El];
      [| assert (Hi : items <> []) by (intros ->; apply El; reflexivity)].
    { unfold types. rewrite El.
      destruct items as [| uv r]; [reflexivity |].
      rewrite summarize_nonempty by discriminate.
      rewrite (labels_of_text _ Ht), El. reflexivity. }
    rewrite (summarize_nonempty items Hi).
    rewrite (labels_of_text _ Ht), (uniq_strings _ (labelsOf_nonempty _)).
    fold types. cbn [bind]. rewrite !length_map. unfold renderTypes.
    destruct (List.length types =? 0)%nat eqn:E0.
    + apply Nat.eqb_eq in E0. destruct types; [reflexivity | discriminate].
    + destruct (List.length types <=? 3)%nat eqn:E3; [apply joinValues_strings |].
      rewrite firstn_map, joinValues_strings. cbn [bind].
      apply Nat.leb_gt in E3.
      rewrite numberToString_count by lia. reflexivity.
  - apply (Permutation_NoDup Hperm), Hnd.
  - intros s. split.
    + intros H. apply (Permutation_in s (Permutation_sym Hperm)) in H.
      apply Hmem in H. tauto.
    + intros H. apply (Permutation_in s Hperm). apply Hmem. split; [exact H | intros []].
  - apply (sort_sorted (localeCompare host)).
    + intros x y E. rewrite (collation_antisym x y), E. discriminate.
    + exact collation_trans.
  - intros E. unfold types. rewrite E. reflexivity.
Qed.

End UnitTypes.

(** C6, the example of the specification: five types A to E give
    [A • B • C • +2]. *)
Lemma unit_types_summary_witness :
  summarizeUnitTypes sampleHost (VArr fiveTypes) = OK "A • B • C • +2" /\
  exists types,
    summarizeUnitTypes sampleHost (VArr fiveTypes) = OK (renderTypes types) /\
    NoDup types /\
    (forall s, In s types <-> In s (labelsOf fiveTypes)) /\
    StronglySorted (fun a b => localeCompare sampleHost a b <> Gt) types /\
    (labelsOf fiveTypes = [] -> renderTypes types = "").
Proof.
  split; [vm_compute; reflexivity |].
  apply (proj2 (unit_types_summary sampleHost sampleHost_antisym sampleHost_trans
                  (VArr fiveTypes)) fiveTypes eq_refl).
  - repeat constructor.
  - reflexivity.
Defined.

(** ** The filter of the query engine *)

Lemma startsWith_spec (pre s : string) :
  Str.startsWith pre s = true <-> exists post, s = pre ++ post.
Proof.
  revert s. induction pre as [| a p IH]; intros s; simpl.
  - split; [intros _; exists s; reflexivity | reflexivity].
  - destruct s as [| b r].
    + split; [discriminate | intros [post H]; discriminate].
    + rewrite andb_true_iff, IH. split.
      * intros [E [post ->]]. apply Ascii.eqb_eq in E. subst. exists post. reflexivity.
      * intros [post H]. inversion H; subst. split; [apply Ascii.eqb_refl | eauto].
Qed.

Lemma includes_spec (hay needle : string) :
  Str.includes hay needle = true <-> occursIn needle hay.
Proof.
  unfold occursIn. induction hay as [| c r IH].
  - simpl. rewrite orb_false_r, startsWith_spec. split.
    + intros [post H]. exists "", post. exact H.
    + intros (pre & post & H). destruct pre; [exists post; exact H | discriminate].
  - cbn [Str.includes]. rewrite orb_true_iff, startsWith_spec, IH. split.
    + intros [[post H] | (pre & post & H)].
      * exists "", post. exact H.
      * exists (String c pre), post. simpl. congruence.
    + intros ([| d pre] & post & H).
      * left. exists post. exact H.
      * right. simpl in H. inversion H; subst. eauto.
Qed.

Section FilterFacts.

Variable host : Host.

Lemma truthy_text (v : value) :
  isText v -> truthy v = negb (Str.isEmpty (textOf v)).
Proof. destruct v; simpl; tauto. Qed.

Lemma filter_truthy_text (l : list value) :
  Forall isText l ->
  filter truthy l
  = List.map VStr (filter (fun s => negb (Str.isEmpty s)) (List.map textOf l)).
Proof.
  induction 1 as [| v r Hv _ IH]; [reflexivity |].
  cbn [filter List.map]. rewrite (truthy_text v Hv), IH.
  destruct v; try contradiction. simpl. destruct (Str.isEmpty s); reflexivity.
Qed.

Lemma haystack_text (p : listing) :
  textListing p -> haystack host p = OK (searchText p).
Proof.
  intros (Ht & Hc & Hd & Hs & Hcd). unfold haystack, searchText, searchedFields.
  rewrite filter_truthy_text by (repeat constructor; assumption).
  rewrite joinValues_strings. reflexivity.
Qed.

Lemma differs_text (v : value) (wanted : string) :
  differs v wanted = false <-> v = VStr wanted.
Proof.
  destruct v; simpl; split; try congruence.
  - intros H. apply negb_false_iff, String.eqb_eq in H. congruence.
  - intros H. inversion H. apply negb_false_iff, String.eqb_refl.
Qed.

Lemma keeps_text (st : App.state) (p : listing) :
  textListing p ->
  App.keeps host st (Str.toLowerCase (Str.trim (App.q st))) p = OK (keepsText st p).
Proof.
  intros Hp. unfold App.keeps, keepsText. rewrite (haystack_text p Hp). cbn [bind].
  destruct (Str.isEmpty (App.community st)),
           (differs (Listing.community p) (App.community st)),
           (Str.isEmpty (App.developer st)),
           (differs (Listing.developer p) (App.developer st)),
           (Str.isEmpty (App.status st)),
           (differs (statusLabel p) (App.status st)),
           (Str.isEmpty (Str.toLowerCase (Str.trim (App.q st)))),
           (Str.includes (searchText p) (Str.toLowerCase (Str.trim (App.q st))));
    reflexivity.
Qed.

Lemma clause_spec (wanted : string) (v : value) :
  Str.isEmpty wanted || negb (differs v wanted) = true <->
  wanted = "" \/ v = VStr wanted.
Proof.
  rewrite orb_true_iff, isEmpty_true, negb_true_iff, differs_text. reflexivity.
Qed.

Lemma keepsText_matches (st : App.state) (p : listing) :
  keepsText st p = true <-> matches st p.
Proof.
  unfold keepsText, matches. cbv zeta.
  rewrite !andb_true_iff, !clause_spec, orb_true_iff, isEmpty_true, includes_spec.
  tauto.
Qed.

Lemma compareProjects_text (sortBy : string) (a b : listing) :
  textListing a -> textListing b ->
  compareProjects host sortBy a b = OK (projectOrder host sortBy a b).
Proof.
  intros (Ta & _) (Tb & _). unfold projectOrder, compareProjects, sortProjects, lowerTitle.
  destruct (title a); try contradiction. destruct (title b); try contradiction.
  cbn [orElse nullish bind].
  repeat match goal with
         | |- context [if ?c then _ else _] => destruct c
         end; reflexivity.
Qed.


End FilterFacts.



(** ** The normalizer: featured flag, pin and totality *)

Section NormalizerFacts.

Variable host : Host.

Lemma isLikelyFeatured_spec (p : value) (b : bool) :
  isLikelyFeatured p = OK b ->
  (b = true <->
   truthy (getOpt p "image") = true /\
   truthy (getOpt p "latitude") = true /\
   truthy (getOpt p "longitude") = true /\
   hasUnits p).
Proof.
  unfold isLikelyFeatured. intros H. bind_inv H.
  apply get_getOpt in E, E0, E1, E2. subst. inversion H; subst. clear H.
  unfold hasUnits.
  destruct (truthy (getOpt p "image")); cbn [andb]; [| intuition congruence].
  destruct (truthy (getOpt p "latitude")) eqn:El; cbv iota; rewrite ?El; cbn [andb];
    [| intuition congruence].
  destruct (truthy (getOpt p "longitude")); cbn [andb]; [| intuition congruence].
  destruct (getOpt p "unit_variations") as [| | | | | [| uv rest] | |];
    cbn [isArray arrayLength List.length Nat.ltb Nat.leb andb];
    try (split; [congruence | intros (_ & _ & _ & ? & ? & ?); congruence]).
  split; [intros _ | reflexivity]. repeat split. exists uv, rest. reflexivity.
Qed.

(** C7 (amended).  When the normalizer returns a listing, the listing is
    featured exactly when the record's [featured] flag is truthy, or all
    of these hold: the image is truthy (for a string: not empty), the raw
    latitude and the raw longitude are truthy (for a string: not empty,
    parseable or not; for a number: neither 0 nor NaN), and
    [unit_variations] is an array with at least one element. *)
Theorem featured_flag (p : value) (l : listing) :
  normalizeProject host p = OK l ->
  (featured l = true <->
   truthy (getOpt p "featured") = true \/
   (truthy (getOpt p "image") = true /\
    truthy (getOpt p "latitude") = true /\
    truthy (getOpt p "longitude") = true /\
    hasUnits p)).
Proof.
  unfold normalizeProject. intros H. bind_inv H.
  inversion H; subst; clear H. cbn [featured]. get_subst.
  match goal with
  | E : (if truthy _ then _ else _) = OK _ |- _ => rename E into Hf
  end.
  destruct (truthy (getOpt p "featured")) eqn:Ef.
  - inversion Hf; subst. split; auto.
  - apply isLikelyFeatured_spec in Hf. rewrite Hf. split; [auto |].
    intros [? | ?]; [discriminate | assumption].
Qed.

(** The listing has a pin exactly when both coordinates parse to finite
    numbers. *)
Theorem hasPin_coordinates (p : value) (l : listing) :
  normalizeProject host p = OK l ->
  (hasPin l = true <->
   exists x y,
     toFloat host (getOpt p "latitude") = OK (Some x) /\
     toFloat host (getOpt p "longitude") = OK (Some y) /\
     lat l = Some x /\ lng l = Some y /\
     isFinite x = true /\ isFinite y = true).
Proof.
  unfold normalizeProject. intros H. bind_inv H.
  inversion H; subst; clear H. cbn [hasPin lat lng]. get_subst.
  repeat match goal with
         | E : toFloat host _ = OK _ |- _ => rewrite E; clear E
         end.
  split.
  - intros Hp. apply andb_true_iff in Hp as [Hx Hy].
    repeat match goal with
           | a : option number |- _ => destruct a; simpl in *; try discriminate
           end.
    eexists _, _. repeat split; assumption.
  - intros (x & y & Hx & Hy & _ & _ & Fx & Fy).
    inversion Hx; inversion Hy; subst. simpl. rewrite Fx, Fy. reflexivity.
Qed.

(** C4, the failing inputs: a record with two numeric unit types, the
    [null] record, and a record whose id is an object with its own
    [toString] entry each make the normalizer throw a TypeError. *)
Theorem normalizeProject_throws :
  normalizeProject host numericUnitTypes = Throw TypeError /\
  normalizeProject host VNull = Throw TypeError /\
  normalizeProject host (VObj [("id", VObj [("toString", VNull)])]) = Throw TypeError.
Proof. repeat split. Qed.

End NormalizerFacts.

(** C7 (amended) on a record with an image, both raw coordinates (one of
    them not a number) and one unit variation: featured, and without a
    pin. *)
Lemma featured_flag_witness :
  exists l, normalizeProject sampleHost sampleRecord = OK l /\
            (featured l = true <->
             truthy (getOpt sampleRecord "featured") = true \/
             (truthy (getOpt sampleRecord "image") = true /\
              truthy (getOpt sampleRecord "latitude") = true /\
              truthy (getOpt sampleRecord "longitude") = true /\
              hasUnits sampleRecord)) /\
            featured l = true /\ hasPin l = false.
Proof.
  destruct (normalizeProject sampleHost sampleRecord) as [l | e] eqn:E;
    [| vm_compute in E; discriminate E].
  exists l. split; [reflexivity |]. split; [exact (featured_flag sampleHost sampleRecord l E) |].
  vm_compute in E. inversion E; subst. split; reflexivity.
Defined.

(** C7 as stated fails: the record at latitude 0 and longitude 0 has an
    image, both coordinates present in raw form and one unit variation,
    and its listing, which has a pin, is not featured: the number 0 is not
    truthy. *)
Lemma featured_zero_coordinates :
  exists l, normalizeProject sampleHost zeroCoordinates = OK l /\
            featured l = false /\ hasPin l = true /\
            featuredBySpec zeroCoordinates.
Proof.
  eexists. split; [vm_compute; reflexivity |].
  split; [reflexivity |]. split; [reflexivity |].
  right. split; [reflexivity |]. split; [reflexivity |]. split; [reflexivity |].
  exists (VObj []), []. reflexivity.
Qed.

Section TotalityFacts.

Variable host : Host.

Lemma toFloat_returns (v : value) :
  converts host v -> exists n, toFloat host v = OK n.
Proof.
  intros [s Hs]. unfold toFloat. destruct (nullish v); [eauto |].
  rewrite Hs. cbn [bind]. eauto.
Qed.

Lemma orElse_converts (v : value) (d : string) :
  converts host v -> converts host (orElse v (VStr d)).
Proof.
  intros H. unfold orElse. destruct (nullish v); [exists d; reflexivity | exact H].
Qed.

Lemma cleanUrl_returns (v : value) :
  converts host v -> exists s, cleanUrl host v = OK s.
Proof.
  intros [s Hs]. unfold cleanUrl. destruct (negb (truthy v)); [eauto |].
  rewrite Hs. cbn [bind]. destruct (parseURL host (Str.trim s)); eauto.
Qed.

Lemma salesStatusLabel_returns (v : value) :
  converts host v -> exists l, salesStatusLabel host v = OK l.
Proof.
  intros [s Hs]. unfold salesStatusLabel. rewrite Hs. cbn [bind].
  destruct (nullish (getOwnOrInherited statusMap s)); [| eauto].
  destruct (nullish v); eauto.
Qed.

Lemma summarize_returns (v : value) :
  (forall items, v = VArr items -> Forall textLabel items) ->
  exists s, summarizeUnitTypes host v = OK s.
Proof.
  intros H. destruct v; try (eexists; reflexivity).
  specialize (H items eq_refl). destruct items as [| uv r]; [eexists; reflexivity |].
  rewrite summarize_nonempty by discriminate.
  rewrite (labels_of_text _ H), (uniq_strings host _ (labelsOf_nonempty _)).
  cbn [bind]. rewrite !length_map.
  destruct (_ =? 0)%nat; [eauto |].
  destruct (_ <=? 3)%nat; [rewrite joinValues_strings; eauto |].
  rewrite firstn_map, joinValues_strings. cbn [bind]. eauto.
Qed.

Lemma isLikelyFeatured_returns (p : value) :
  nullish p = false -> exists b, isLikelyFeatured p = OK b.
Proof.
  intros H. unfold isLikelyFeatured. rewrite !(get_defined p _ H). cbn [bind]. eauto.
Qed.

(** X1.  On a well-formed record the normalizer returns a listing, and
    the listing has a pin exactly when both coordinates parse to finite
    numbers. *)
Theorem normalizeProject_returns (p : value) :
  wellFormed host p ->
  exists l,
    normalizeProject host p = OK l /\
    (hasPin l = true <->
     exists x y,
       toFloat host (getOpt p "latitude") = OK (Some x) /\
       toFloat host (getOpt p "longitude") = OK (Some y) /\
       lat l = Some x /\ lng l = Some y /\
       isFinite x = true /\ isFinite y = true).
Proof.
  intros (Hp & Hid & Hlat & Hlng & Himg & Hst & Huv).
  assert (R : exists l, normalizeProject host p = OK l).
  { unfold normalizeProject. rewrite !(get_defined p _ Hp). cbn [bind].
    destruct (toFloat_returns _ Hlat) as [la Ela]. rewrite Ela. cbn [bind].
    destruct (toFloat_returns _ Hlng) as [lo Elo]. rewrite Elo. cbn [bind].
    destruct (isLikelyFeatured_returns p Hp) as [b Eb].
    assert (Ef : exists f, (if truthy (getOpt p "featured") then OK true
                            else isLikelyFeatured p) = OK f).
    { destruct (truthy (getOpt p "featured")); eauto. }
    destruct Ef as [f Ef]. rewrite Ef. cbn [bind].
    destruct (summarize_returns _ Huv) as [u Eu]. rewrite Eu. cbn [bind].
    destruct (orElse_converts _ "" Hid) as [i Ei]. rewrite Ei. cbn [bind].
    destruct (cleanUrl_returns _ (orElse_converts _ "" Himg)) as [c Ec].
    rewrite Ec. cbn [bind].
    destruct (salesStatusLabel_returns _ Hst) as [s Es]. rewrite Es. cbn [bind].
    eauto. }
  destruct R as [l El]. exists l. split; [exact El |].
  apply (hasPin_coordinates host p l El).
Qed.

End TotalityFacts.

Lemma sampleRecord_wellFormed : wellFormed sampleHost sampleRecord.
Proof.
  repeat split; try (eexists; reflexivity).
  intros items H. inversion H; subst. repeat constructor.
Qed.

Lemma normalizeProject_returns_witness :
  wellFormed sampleHost sampleRecord /\
  exists l,
    normalizeProject sampleHost sampleRecord = OK l /\
    (hasPin l = true <->
     exists x y,
       toFloat sampleHost (getOpt sampleRecord "latitude") = OK (Some x) /\
       toFloat sampleHost (getOpt sampleRecord "longitude") = OK (Some y) /\
       lat l = Some x /\ lng l = Some y /\
       isFinite x = true /\ isFinite y = true).
Proof.
  split; [exact sampleRecord_wellFormed |].
  exact (normalizeProject_returns sampleHost sampleRecord sampleRecord_wellFormed).
Defined.

(** ** The map *)

Lemma filter_filter_and {A : Type} (f g : A -> bool) (l : list A) :
  filter g (filter f l) = filter (fun x => f x && g x) l.
Proof.
  induction l as [| x r IH]; simpl; [reflexivity |].
  destruct (f x); simpl; [destruct (g x) |]; rewrite IH; reflexivity.
Qed.

Lemma In_firstn {A : Type} (n : nat) (l : list A) (x : A) :
  In x (firstn n l) -> In x l.
Proof.
  revert l. induction n as [| n IH]; intros [| y r]; simpl; try tauto.
  intros [-> | H]; [left; reflexivity | right; apply IH, H].
Qed.

Lemma pins_firstn (properties : option (list listing)) :
  MapView.pins properties
  = firstn MapView.MAX_MARKERS (filter plottable (listingsOf properties)).
Proof. unfold MapView.pins. rewrite filter_filter_and. reflexivity. Qed.

(** C8 (amended).  The map plots at most [MAX_MARKERS] = 400 pins, and
    the pins are the leading part, in the given order, of the listings
    that are geolocated and inside the bounding box: the whole of them, or
    their first 400. *)
Theorem pins_capped (properties : option (list listing)) :
  (List.length (MapView.pins properties) <= MapView.MAX_MARKERS)%nat /\
  MapView.MAX_MARKERS = 400%nat /\
  exists rest,
    filter plottable (listingsOf properties) = (MapView.pins properties ++ rest)%list /\
    (rest = [] \/ List.length (MapView.pins properties) = MapView.MAX_MARKERS).
Proof.
  rewrite pins_firstn. split; [apply firstn_le_length |]. split; [reflexivity |].
  exists (skipn MapView.MAX_MARKERS (filter plottable (listingsOf properties))).
  split; [symmetry; apply firstn_skipn |].
  destruct (Nat.le_gt_cases (List.length (filter plottable (listingsOf properties)))
              MapView.MAX_MARKERS) as [H | H].
  - left. apply skipn_all2, H.
  - right. apply firstn_length_le. lia.
Qed.

(** C8 as stated fails: London is the first geolocated listing of the
    input and is not plotted; the pins are not the first geolocated
    listings. *)
Lemma pins_outside_box :
  MapView.pins (Some [london; dubai]) = [dubai] /\
  firstGeolocated [london; dubai] = [london; dubai].
Proof. split; vm_compute; reflexivity. Qed.

(** C10.  Every plotted listing has finite coordinates with latitude
    between 12 and 36.5 and longitude between 34 and 64, bounds included;
    a listing outside the box is never plotted. *)
Theorem pins_inside_box (properties : option (list listing)) (p : listing) :
  (In p (MapView.pins properties) ->
   exists la lo,
     lat p = Some la /\ lng p = Some lo /\
     isFinite la = true /\ isFinite lo = true /\
     Num.leb (Fin 12 0) la = true /\ Num.leb la (Fin 73 (-1)) = true /\
     Num.leb (Fin 34 0) lo = true /\ Num.leb lo (Fin 64 0) = true) /\
  (MapView.isInMiddleEastBBox (lat p) (lng p) = false ->
   ~ In p (MapView.pins properties)).
Proof.
  assert (Hin : In p (MapView.pins properties) ->
                MapView.geolocated p = true /\
                MapView.isInMiddleEastBBox (lat p) (lng p) = true).
  { rewrite pins_firstn. intros H. apply In_firstn, filter_In in H as [_ H].
    apply andb_true_iff in H. exact H. }
  split.
  - intros H. destruct (Hin H) as [Hg Hb].
    unfold MapView.geolocated, isFiniteNum in Hg.
    destruct (lat p) as [la |], (lng p) as [lo |]; simpl in Hg; try discriminate;
      try (rewrite andb_false_r in Hg; discriminate).
    apply andb_true_iff in Hg as [Fa Fo].
    unfold MapView.isInMiddleEastBBox, Num.geb in Hb. cbn [toNumber] in Hb.
    rewrite !andb_true_iff in Hb. destruct Hb as [[[B1 B2] B3] B4].
    exists la, lo. repeat split; assumption.
  - intros Hout H. destruct (Hin H) as [_ Hb]. congruence.
Qed.

(** C10 on an input of two: Dubai is plotted and lies in the box. *)
Lemma pins_inside_box_witness :
  In dubai (MapView.pins (Some [london; dubai])) /\
  exists la lo,
    lat dubai = Some la /\ lng dubai = Some lo /\
    isFinite la = true /\ isFinite lo = true /\
    Num.leb (Fin 12 0) la = true /\ Num.leb la (Fin 73 (-1)) = true /\
    Num.leb (Fin 34 0) lo = true /\ Num.leb lo (Fin 64 0) = true.
Proof.
  assert (H : In dubai (MapView.pins (Some [london; dubai]))).
  { vm_compute. left. reflexivity. }
  split; [exact H |].
  exact (proj1 (pins_inside_box (Some [london; dubai]) dubai) H).
Defined.

(** ** The feed loader *)

Section LoaderFacts.

Variable host : Host.

(** C9.  While the component is mounted, a load that fails sets the load
    error to the failure's text and keeps the catalog as it was: when
    [fetch] rejects, when the status is not a success ([HTTP] and the
    status), when the body is not JSON, when [data.projects] is missing or
    not an array, and when a record makes the normalizer throw.  A load
    that succeeds stores the normalized listings and empties the load
    error. *)
Theorem load_outcomes (st : App.state) (r : App.response) :
  (forall e,
     let st' := App.load host false (App.Rejected e) st in
     App.loadError st' = loadErrorOf (App.describe e) /\ App.all st' = App.all st)
  /\
  (App.ok r = false ->
   let st' := App.load host false (App.Resolved r) st in
   App.loadError st' = loadErrorOf ("HTTP " ++ numberToString host (App.httpStatus r)) /\
   App.all st' = App.all st)
  /\
  (App.ok r = true -> App.json r = None ->
   let st' := App.load host false (App.Resolved r) st in
   App.loadError st'
   = loadErrorOf (App.describe {| App.name := "SyntaxError";
                                  App.message := syntaxErrorMessage host |}) /\
   App.all st' = App.all st)
  /\
  (forall payload,
     App.ok r = true -> App.json r = Some payload ->
     isArray (projectsOf payload) = false ->
     let st' := App.load host false (App.Resolved r) st in
     App.loadError st'
     = loadErrorOf "Invalid JSON: data.projects is missing or not an array" /\
     App.all st' = App.all st)
  /\
  (forall payload items,
     App.ok r = true -> App.json r = Some payload ->
     projectsOf payload = VArr items ->
     mapM (normalizeProject host) items = Throw TypeError ->
     let st' := App.load host false (App.Resolved r) st in
     App.loadError st'
     = loadErrorOf (App.describe {| App.name := "TypeError";
                                    App.message := typeErrorMessage host |}) /\
     App.all st' = App.all st)
  /\
  (forall payload items normalized,
     App.ok r = true -> App.json r = Some payload ->
     projectsOf payload = VArr items ->
     mapM (normalizeProject host) items = OK normalized ->
     let st' := App.load host false (App.Resolved r) st in
     App.loadError st' = "" /\ App.all st' = normalized).
Proof.
  unfold App.load, App.onResponse, App.onPayload, projectsOf, loadErrorOf.
  split; [| split; [| split; [| split; [| split]]]].
  - intros e. split; reflexivity.
  - intros Hok. rewrite Hok. split; reflexivity.
  - intros Hok Hjson. rewrite Hok, Hjson. split; reflexivity.
  - intros payload Hok Hjson Harr. rewrite Hok, Hjson. cbn [negb].
    destruct (getOpt (getOpt payload "data") "projects");
      try discriminate; split; reflexivity.
  - intros payload items Hok Hjson Harr Hmap.
    rewrite Hok, Hjson. cbn [negb]. rewrite Harr, Hmap. split; reflexivity.
  - intros payload items normalized Hok Hjson Harr Hmap.
    rewrite Hok, Hjson. cbn [negb]. rewrite Harr, Hmap. split; reflexivity.
Qed.

End LoaderFacts.

(** C9 on a 404 response after a catalog of one listing was loaded. *)
Lemma load_outcomes_witness :
  App.ok notFound = false /\
  App.loadError (App.load sampleHost false (App.Resolved notFound) loadedState)
  = "Could not load properties.json (HTTP 404)" /\
  App.all (App.load sampleHost false (App.Resolved notFound) loadedState)
  = [sparseListing].
Proof.
  split; [reflexivity |].
  destruct (proj1 (proj2 (load_outcomes sampleHost loadedState notFound)) eq_refl) as [E A].
  split; [rewrite E; reflexivity | exact A].
Defined.

(** ** Further facts *)

(** The arithmetic of the price parser is binary64: 0.5005 * 1000 is
    500.49999999999994, which rounds to 500, where the decimal product
    500.5 would round to 501. *)
Example price_binary64_rounding :
  parsePriceAED (VStr "0.5005 K") = Some (Fin 500 0) /\
  Num.mul (parseFloat "0.5005") (Fin 1000 0) = Fin 8804889115230207 (-44).
Proof. split; vm_compute; reflexivity. Qed.

Lemma round_integer (x : number) :
  isFinite (Num.round x) = true -> exists z, Num.round x = Fin z 0.
Proof.
  destruct x as [| s | m e]; simpl; try discriminate.
  destruct (0 <=? e); eauto.
Qed.

Lemma parsePriceAED_integer (v : value) (x : number) :
  parsePriceAED v = Some x -> isFinite x = true -> exists z, x = Fin z 0.
Proof.
  unfold parsePriceAED. destruct v; try discriminate.
  destruct (Str.isEmpty s); [discriminate |].
  destruct (matchPrice _) as [[m1 m2] |]; [| discriminate].
  destruct (negb _); [discriminate |].
  intros H Hf. inversion H; subst. apply round_integer, Hf.
Qed.

Lemma finiteOnly_integral (l : list value) :
  Forall integral (finiteOnly (List.map parsePriceAED l)).
Proof.
  induction l as [| v r IH]; simpl; [constructor |].
  apply Forall_app. split; [| exact IH].
  destruct (parsePriceAED v) as [x |] eqn:E; [| constructor].
  destruct (isFinite x) eqn:F; constructor; [| constructor].
  apply (parsePriceAED_integer v x E F).
Qed.

Lemma min2_integral (x y : number) :
  (x = Inf false \/ integral x) -> integral y -> integral (Num.min2 x y).
Proof.
  intros [-> | [a ->]] [b ->]; unfold Num.min2; simpl.
  - exists b. reflexivity.
  - destruct (cmpFin a 0 b 0); [exists a | exists a | exists b]; reflexivity.
Qed.

Lemma mathMin_integral (l : list number) (acc : number) :
  Forall integral l -> (acc = Inf false \/ integral acc) ->
  (l <> [] \/ integral acc) -> integral (fold_left Num.min2 l acc).
Proof.
  revert acc. induction l as [| y r IH]; simpl; intros acc Hl Hacc Hne.
  - destruct Hne as [H | H]; [congruence | exact H].
  - inversion Hl as [| ? ? Hy Hr]; subst.
    apply IH; [exact Hr | right | right]; apply min2_integral; assumption.
Qed.

(** The minimum price of a normalized listing is an integer or null. *)
Lemma computeMinPrice_integer (unitVariations : value) :
  isIntOrNull (computeMinPriceFromUnitVariations unitVariations) = true.
Proof.
  unfold computeMinPriceFromUnitVariations.
  destruct unitVariations; try reflexivity.
  rewrite <- (List.map_map (fun uv => getOpt uv "starting_price") parsePriceAED).
  pose proof (finiteOnly_integral
                (List.map (fun uv => getOpt uv "starting_price") items)) as H.
  destruct (finiteOnly _) as [| x r] eqn:E; [reflexivity |].
  destruct (mathMin_integral (x :: r) (Inf false) H (or_introl eq_refl))
    as [z Hz]; [left; discriminate |].
  unfold mathMin. rewrite Hz. reflexivity.
Qed.

Section MoreFacts.

Variable host : Host.

Lemma normalizeProject_minPrice (p : value) (l : listing) :
  normalizeProject host p = OK l -> isIntOrNull (minPrice l) = true.
Proof.
  unfold normalizeProject. intros H. bind_inv H.
  inversion H; subst; clear H. cbn [minPrice]. apply computeMinPrice_integer.
Qed.

(** After the component is unmounted a settled load changes nothing. *)
Lemma load_cancelled (f : App.fetched) (st : App.state) :
  App.load host true f st = st.
Proof.
  unfold App.load, App.onError, App.onPayload.
  destruct f as [e | r]; [reflexivity |].
  destruct (App.onResponse host r); reflexivity.
Qed.

End MoreFacts.

(** The earlier map component plots every geolocated listing: it has no
    cap and no bounding box. *)
Lemma legacy_pts_uncapped (properties : list listing) :
  List.length (MapViewLegacy.pts properties)
  = List.length (filter MapView.geolocated properties).
Proof. unfold MapViewLegacy.pts. rewrite length_map. reflexivity. Qed.

(** * Further properties of the code *)

(** ** The fallback images of the cards *)

Lemma rem_abs_le (a b : Z) : b <> 0 -> Z.abs (Z.rem a b) <= Z.abs a.
Proof.
  intros Hb. rewrite Z.rem_mod by exact Hb. rewrite Z.abs_mul.
  pose proof (Z.mod_pos_bound (Z.abs a) (Z.abs b) ltac:(lia)) as H1.
  pose proof (Z.mod_le (Z.abs a) (Z.abs b) ltac:(lia) ltac:(lia)) as H2.
  rewrite (Z.abs_eq (Z.abs a mod Z.abs b)) by lia.
  destruct a; simpl Z.sgn; simpl Z.abs in *; lia.
Qed.

Lemma rem_int (a b : Z) :
  Z.abs a < 2 ^ 53 -> b <> 0 -> NumMore.rem (Fin a 0) (Fin b 0) = Fin (Z.rem a b) 0.
Proof.
  intros Ha Hb. unfold NumMore.rem, ratio.
  destruct (Z.eqb_spec b 0); [contradiction |].
  change (Z.min 0 0) with 0. change (0 - 0) with 0. change (0 <=? 0) with true.
  cbv iota beta. rewrite Z.pow_0_r, !Z.mul_1_r. apply of_ratio_small.
  eapply Z.le_lt_trans; [apply rem_abs_le, Hb | exact Ha].
Qed.

Lemma fallback_count : of_Z (Z.of_nat (List.length ListingsApp.FALLBACK_IMAGES)) = Fin 5 0.
Proof. reflexivity. Qed.

Lemma indexOf_small (idx : nat) :
  Z.of_nat idx < 2 ^ 53 -> ListingsApp.indexOf idx = Fin (Z.of_nat idx) 0.
Proof. intros H. apply of_Z_small. lia. Qed.

Lemma getFallback_int (n k : Z) :
  Z.abs (n + k) < 2 ^ 53 ->
  ListingsApp.getFallbackByIndex (Fin n 0) (Fin k 0)
  = ListingsApp.elementAt ListingsApp.FALLBACK_IMAGES (Fin (Z.rem (n + k) 5) 0).
Proof.
  intros H. unfold ListingsApp.getFallbackByIndex. cbn [isFinite].
  rewrite add_int by exact H. rewrite fallback_count.
  rewrite rem_int by (try exact H; lia). reflexivity.
Qed.

Lemma nth_fallback (r : Z) :
  0 <= r < 5 ->
  exists s, nth_error ListingsApp.FALLBACK_IMAGES (Z.to_nat r) = Some s /\
            In s ListingsApp.FALLBACK_IMAGES.
Proof.
  intros H.
  assert (C : r = 0 \/ r = 1 \/ r = 2 \/ r = 3 \/ r = 4) by lia.
  destruct C as [-> | [-> | [-> | [-> | ->]]]]; eexists; (split; [reflexivity |]);
    simpl; tauto.
Qed.

Lemma nth_fallback_inj (r1 r2 : Z) :
  0 <= r1 < 5 -> 0 <= r2 < 5 ->
  nth_error ListingsApp.FALLBACK_IMAGES (Z.to_nat r1)
  = nth_error ListingsApp.FALLBACK_IMAGES (Z.to_nat r2) -> r1 = r2.
Proof.
  intros H1 H2.
  assert (C1 : r1 = 0 \/ r1 = 1 \/ r1 = 2 \/ r1 = 3 \/ r1 = 4) by lia.
  assert (C2 : r2 = 0 \/ r2 = 1 \/ r2 = 2 \/ r2 = 3 \/ r2 = 4) by lia.
  destruct C1 as [-> | [-> | [-> | [-> | ->]]]];
    destruct C2 as [-> | [-> | [-> | [-> | ->]]]];
    simpl; intros E; try reflexivity; discriminate E.
Qed.

Lemma getFallback_nonneg (n k : Z) :
  0 <= n + k < 2 ^ 53 ->
  ListingsApp.getFallbackByIndex (Fin n 0) (Fin k 0)
  = nth_error ListingsApp.FALLBACK_IMAGES (Z.to_nat ((n + k) mod 5)).
Proof.
  intros H. rewrite getFallback_int by lia.
  rewrite Z.rem_mod_nonneg by lia. unfold ListingsApp.elementAt.
  pose proof (Z.mod_pos_bound (n + k) 5 ltac:(lia)).
  destruct (Z.leb_spec 0 ((n + k) mod 5)); [reflexivity | lia].
Qed.

(** X2.  For the card at position [idx] and an offset that is a natural
    number, [getFallbackByIndex] returns the image at position
    (idx + offset) mod 5 of the five fallback images, so always one of
    them.  An index that is not a finite Number counts as 0.  A negative
    position is not wrapped: unless it is a multiple of 5 the result is
    [undefined]. *)
Theorem fallback_by_index :
  (forall (idx : nat) (offset : Z),
     0 <= offset -> Z.of_nat idx + offset < 2 ^ 53 ->
     exists s,
       ListingsApp.getFallbackByIndex (ListingsApp.indexOf idx) (Fin offset 0) = Some s /\
       nth_error ListingsApp.FALLBACK_IMAGES
         (Z.to_nat ((Z.of_nat idx + offset) mod 5)) = Some s /\
       In s ListingsApp.FALLBACK_IMAGES)
  /\
  (forall index offset,
     isFinite index = false ->
     ListingsApp.getFallbackByIndex index offset
     = ListingsApp.getFallbackByIndex (Fin 0 0) offset)
  /\
  (forall n offset : Z,
     - 2 ^ 53 < n + offset < 0 -> (n + offset) mod 5 <> 0 ->
     ListingsApp.getFallbackByIndex (Fin n 0) (Fin offset 0) = None).
Proof.
  split; [| split].
  - intros idx offset Ho Hb.
    rewrite indexOf_small by lia. rewrite getFallback_nonneg by lia.
    destruct (nth_fallback ((Z.of_nat idx + offset) mod 5)) as (s & Hs & Hin).
    { apply Z.mod_pos_bound. lia. }
    exists s. auto.
  - intros index offset H. unfold ListingsApp.getFallbackByIndex. rewrite H. reflexivity.
  - intros n offset H Hm. rewrite getFallback_int by lia.
    unfold ListingsApp.elementAt.
    destruct (Z.leb_spec 0 (Z.rem (n + offset) 5)) as [Hr |]; [| reflexivity].
    exfalso. apply Hm.
    pose proof (Z.rem_sign_mul (n + offset) 5 ltac:(lia)) as Hs.
    assert (Hz : Z.rem (n + offset) 5 = 0) by nia.
    apply Z.rem_divide in Hz; [| lia]. apply Z.mod_divide; [lia | exact Hz].
Qed.

(** X2 on the eighth card with offset 1. *)
Lemma fallback_by_index_witness :
  exists s,
    ListingsApp.getFallbackByIndex (ListingsApp.indexOf 7) (Fin 1 0) = Some s /\
    nth_error ListingsApp.FALLBACK_IMAGES (Z.to_nat ((Z.of_nat 7 + 1) mod 5)) = Some s /\
    In s ListingsApp.FALLBACK_IMAGES.
Proof.
  apply (proj1 fallback_by_index 7%nat 1); [lia | reflexivity].
Defined.

(** X3.  The image of a card falls back once.  The first error replaces the
    image with the fallback one position after the card's own, which is
    one of the five fallback images and is not the image the card falls
    back to when it has no cover image; the handler then marks the element,
    and a later error leaves the image as it is. *)
Theorem image_fallback_once (resolve : string -> string) (idx : nat) (el : ListingsApp.img) :
  Z.of_nat idx + 1 < 2 ^ 53 ->
  (ListingsApp.fallbackApplied el = false ->
   exists s,
     ListingsApp.src (ListingsApp.onError resolve idx el) = Some s /\
     In s ListingsApp.FALLBACK_IMAGES /\
     Some s <> ListingsApp.getFallbackByIndex (ListingsApp.indexOf idx) (Fin 0 0)) /\
  ListingsApp.fallbackApplied (ListingsApp.onError resolve idx el) = true /\
  ListingsApp.src (ListingsApp.onError resolve idx (ListingsApp.onError resolve idx el))
  = ListingsApp.src (ListingsApp.onError resolve idx el).
Proof.
  intros Hb. split; [| split].
  - intros Hf. unfold ListingsApp.onError. rewrite Hf. cbn [negb ListingsApp.src].
    rewrite indexOf_small by lia. rewrite !getFallback_nonneg by lia.
    destruct (nth_fallback ((Z.of_nat idx + 1) mod 5)) as (s & Hs & Hin).
    { apply Z.mod_pos_bound. lia. }
    rewrite Hs. exists s. split; [reflexivity |]. split; [exact Hin |].
    rewrite <- Hs. intros E. apply nth_fallback_inj in E.
    + rewrite Z.add_0_r in E.
      pose proof (Z.mod_pos_bound (Z.of_nat idx) 5 ltac:(lia)).
      rewrite Zplus_mod in E. change (1 mod 5) with 1 in E.
      assert (C : Z.of_nat idx mod 5 = 0 \/ Z.of_nat idx mod 5 = 1 \/ Z.of_nat idx mod 5 = 2 \/
                  Z.of_nat idx mod 5 = 3 \/ Z.of_nat idx mod 5 = 4) by lia.
      destruct C as [C | [C | [C | [C | C]]]]; rewrite C in E; discriminate E.
    + apply Z.mod_pos_bound. lia.
    + apply Z.mod_pos_bound. lia.
  - unfold ListingsApp.onError. destruct (ListingsApp.fallbackApplied el) eqn:E; simpl; auto.
  - unfold ListingsApp.onError. destruct (ListingsApp.fallbackApplied el) eqn:E; simpl; auto.
Qed.

(** ** Prices are natural numbers *)

Lemma round_half_even_nonneg (p q : Z) : 0 <= p -> 0 < q -> 0 <= round_half_even p q.
Proof.
  intros Hp Hq. etransitivity; [| apply round_half_even_lower].
  apply Z.div_pos; assumption.
Qed.

Lemma of_ratio_notNegative (p q : Z) : 0 <= p -> 0 < q -> notNegative (of_ratio p q).
Proof.
  intros Hp Hq. unfold of_ratio.
  destruct (Z.eqb_spec p 0) as [-> | Hnz]; [simpl; lia |].
  rewrite Z.abs_eq by exact Hp.
  destruct (nearest p q) as [n e] eqn:En.
  assert (Hn : 0 <= n).
  { unfold nearest in En. inversion En; subst.
    destruct (Z.leb_spec 0 (Z.max (ilog2 p q - 52) (-1074))).
    - apply round_half_even_nonneg; [exact Hp |].
      apply Z.mul_pos_pos; [exact Hq |]. apply Z.pow_pos_nonneg; lia.
    - apply round_half_even_nonneg; [| exact Hq].
      apply Z.mul_nonneg_nonneg; [exact Hp |]. apply Z.pow_nonneg. lia. }
  destruct (Z.eqb_spec n 0) as [| Hn0]; [simpl; lia |].
  destruct (Z.ltb_spec p 0); [lia |].
  destruct (overflows n e); [reflexivity |].
  pose proof (lowest_pos n e ltac:(lia)) as Hm.
  destruct (lowest n e) as [m e']. simpl in *. lia.
Qed.

Lemma of_decimal_notNegative (d x : Z) : 0 <= d -> notNegative (of_decimal false d x).
Proof.
  intros Hd. unfold of_decimal. destruct (Z.leb_spec 0 x).
  - apply of_ratio_notNegative; [| lia].
    apply Z.mul_nonneg_nonneg; [exact Hd |]. apply Z.pow_nonneg. lia.
  - apply of_ratio_notNegative; [exact Hd |]. apply Z.pow_pos_nonneg; lia.
Qed.

Lemma fractionOf_digits (s fp r : string) :
  fractionOf s = (fp, r) -> Str.all Str.isDigit fp = true.
Proof.
  unfold fractionOf. destruct s as [| c t].
  - intros H. inversion H. reflexivity.
  - destruct (Ascii.eqb c "."); intros H.
    + apply span_spec in H. tauto.
    + inversion H. reflexivity.
Qed.

Lemma parseFloat_run_notNegative (m1 : string) :
  m1 <> "" -> Str.all isNumChar m1 = true -> isFinite (parseFloat m1) = true ->
  notNegative (parseFloat m1).
Proof.
  intros Hne Hall. destruct m1 as [| c s]; [congruence |].
  simpl in Hall. apply andb_true_iff in Hall as [Hc _].
  rewrite (parseFloat_run c s Hc).
  destruct (Str.span Str.isDigit (String c s)) as [ip r1] eqn:Ei.
  destruct (fractionOf r1) as [fp r2] eqn:Ef.
  destruct (Str.isEmpty ip && Str.isEmpty fp); [discriminate |].
  intros _. apply of_decimal_notNegative.
  apply span_spec in Ei as (_ & Hi & _). apply fractionOf_digits in Ef.
  apply decimal_bounds. rewrite all_app, Hi, Ef. reflexivity.
Qed.

Lemma mul_notNegative (m e c : Z) :
  0 <= m -> 0 < c -> notNegative (Num.mul (Fin m e) (Fin c 0)).
Proof.
  intros Hm Hc. unfold Num.mul, ratio.
  assert (0 <= m * c) by (apply Z.mul_nonneg_nonneg; lia).
  destruct (Z.leb_spec 0 (e + 0)).
  - apply of_ratio_notNegative; [| lia].
    apply Z.mul_nonneg_nonneg; [assumption |]. apply Z.pow_nonneg. lia.
  - apply of_ratio_notNegative; [assumption |]. apply Z.pow_pos_nonneg; lia.
Qed.

Lemma round_notNegative (x : number) : notNegative x -> notNegative (Num.round x).
Proof.
  destruct x as [| s | m e]; cbn [Num.round notNegative]; [tauto | tauto |].
  intros Hm. destruct (Z.leb_spec 0 e); cbn [notNegative].
  - apply Z.mul_nonneg_nonneg; [exact Hm |]. apply Z.pow_nonneg. lia.
  - apply Z.div_pos.
    + assert (0 < 2 ^ (- e)) by (apply Z.pow_pos_nonneg; lia). lia.
    + apply Z.pow_pos_nonneg; lia.
Qed.

Lemma parsePriceAED_notNegative (v : value) (r : number) :
  parsePriceAED v = Some r -> notNegative r.
Proof.
  unfold parsePriceAED. destruct v as [| | | | s | | |]; try discriminate.
  destruct (Str.isEmpty s); [discriminate |].
  destruct (matchPrice _) as [[m1 c] |] eqn:Em; [| discriminate].
  apply matchPrice_spec in Em as (ws & _ & Hne & Hall & _ & _).
  destruct (isFinite (parseFloat m1)) eqn:Hf; [| discriminate].
  cbn [negb]. intros H. inversion H; subst; clear H.
  apply round_notNegative.
  pose proof (parseFloat_run_notNegative m1 Hne Hall Hf) as Hp.
  destruct (parseFloat m1) as [| b | m e]; try discriminate. simpl in Hp.
  destruct (Ascii.eqb c "M").
  - change (of_Z 1000000) with (Fin 1000000 0). apply mul_notNegative; lia.
  - change (of_Z 1000) with (Fin 1000 0). apply mul_notNegative; lia.
Qed.

(** X4.  A price the parser returns is never negative and never
    fractional: it is a natural number, or plus infinity when the product
    overflows. *)
Theorem price_is_natural (v : value) (r : number) :
  parsePriceAED v = Some r -> r = Inf false \/ natural r.
Proof.
  intros H. pose proof (parsePriceAED_notNegative v r H) as Hn.
  destruct r as [| s | m e].
  - destruct Hn.
  - simpl in Hn. subst s. left. reflexivity.
  - right. destruct (parsePriceAED_integer v (Fin m e) H eq_refl) as [z Hz].
    inversion Hz; subst. exists z. split; [exact Hn | reflexivity].
Qed.

(** X4 on the price [7.32 M]. *)
Lemma price_is_natural_witness :
  parsePriceAED (VStr "7.32 M") = Some (Fin 7320000 0) /\
  (Fin 7320000 0 = Inf false \/ natural (Fin 7320000 0)).
Proof.
  split; [vm_compute; reflexivity |].
  apply (price_is_natural (VStr "7.32 M")). vm_compute. reflexivity.
Defined.

(** ** The minimum price *)

Lemma unitPrices_natural (items : list value) : Forall natural (unitPrices items).
Proof.
  unfold unitPrices. induction items as [| uv r IH]; simpl; [constructor |].
  apply Forall_app. split; [| exact IH].
  destruct (parsePriceAED _) as [x |] eqn:E; [| constructor].
  destruct (isFinite x) eqn:F; constructor; [| constructor].
  pose proof (parsePriceAED_notNegative _ x E) as Hn.
  destruct (parsePriceAED_integer _ x E F) as [z ->].
  exists z. split; [exact Hn | reflexivity].
Qed.

Lemma leb_int (a b : Z) : Num.leb (Fin a 0) (Fin b 0) = (a <=? b).
Proof.
  unfold Num.leb, Num.compare, cmpFin. change (Z.min 0 0) with 0.
  change (0 - 0) with 0. rewrite Z.pow_0_r, !Z.mul_1_r.
  destruct (Z.compare_spec a b), (Z.leb_spec a b); try reflexivity; lia.
Qed.

Lemma min2_int (a b : Z) : Num.min2 (Fin a 0) (Fin b 0) = Fin (Z.min a b) 0.
Proof.
  unfold Num.min2, Num.compare, cmpFin. change (Z.min 0 0) with 0.
  change (0 - 0) with 0. rewrite Z.pow_0_r, !Z.mul_1_r.
  destruct (Z.compare_spec a b); f_equal; lia.
Qed.

(** Folding [Math.min] over integers from an integer. *)
Lemma fold_min_int (zs : list Z) (a : Z) :
  exists m,
    fold_left Num.min2 (List.map (fun z => Fin z 0) zs) (Fin a 0) = Fin m 0 /\
    (m = a \/ In m zs) /\ m <= a /\ (forall z, In z zs -> m <= z).
Proof.
  revert a. induction zs as [| y r IH]; intros a; simpl.
  - exists a. split; [reflexivity |]. split; [left; reflexivity |].
    split; [lia | intros z []].
  - rewrite min2_int. destruct (IH (Z.min a y)) as (m & E & Hm & Hle & Hall).
    exists m. split; [exact E |]. split; [| split].
    + destruct Hm as [-> | Hm]; [| auto]. destruct (Z.min_spec a y) as [[_ ->] | [_ ->]]; auto.
    + lia.
    + intros z [<- | Hz]; [lia | apply Hall, Hz].
Qed.

Lemma natural_list (l : list number) :
  Forall natural l -> exists zs, l = List.map (fun z => Fin z 0) zs /\ Forall (fun z => 0 <= z) zs.
Proof.
  induction 1 as [| x r [z [Hz ->]] _ (zs & -> & Hzs)].
  - exists []. split; [reflexivity | constructor].
  - exists (z :: zs). split; [reflexivity | constructor; assumption].
Qed.

Lemma mathMin_least (l : list number) :
  Forall natural l -> l <> [] ->
  In (mathMin l) l /\ natural (mathMin l) /\
  (forall x, In x l -> Num.leb (mathMin l) x = true).
Proof.
  intros Hl Hne. destruct (natural_list l Hl) as (zs & -> & Hzs).
  destruct zs as [| a r]; [simpl in Hne; congruence |].
  unfold mathMin. cbn [List.map fold_left].
  change (Num.min2 (Inf false) (Fin a 0)) with (Fin a 0).
  destruct (fold_min_int r a) as (m & -> & Hm & Hle & Hall).
  assert (Hin : In m (a :: r)) by (destruct Hm as [-> | Hm]; [left | right]; auto).
  split; [| split].
  - apply (in_map (fun z => Fin z 0)) in Hin. exact Hin.
  - exists m. split; [| reflexivity]. rewrite Forall_forall in Hzs. apply Hzs, Hin.
  - intros x Hx. change (Fin a 0 :: List.map (fun z => Fin z 0) r)
      with (List.map (fun z => Fin z 0) (a :: r)) in Hx.
    apply in_map_iff in Hx as (z & <- & Hz). rewrite leb_int. apply Z.leb_le.
    destruct Hz as [<- | Hz]; [exact Hle | apply Hall, Hz].
Qed.

(** X5.  The minimum price of a record is null when [unit_variations] is
    not an array or no variation has a price that parses to a finite
    number; otherwise it is the least of those prices: one of them, at most
    each of them, and a natural number. *)
Theorem min_price_least (unitVariations : value) :
  ((forall items, unitVariations <> VArr items) ->
   computeMinPriceFromUnitVariations unitVariations = None)
  /\
  (forall items,
     unitVariations = VArr items ->
     (computeMinPriceFromUnitVariations unitVariations = None <-> unitPrices items = []) /\
     (forall m,
        computeMinPriceFromUnitVariations unitVariations = Some m ->
        In m (unitPrices items) /\ natural m /\
        (forall x, In x (unitPrices items) -> Num.leb m x = true))).
Proof.
  split.
  - intros H. destruct unitVariations; try reflexivity. destruct (H items eq_refl).
  - intros items ->. unfold computeMinPriceFromUnitVariations. fold (unitPrices items).
    pose proof (unitPrices_natural items) as Hn.
    destruct (unitPrices items) as [| x r] eqn:E.
    + split; [tauto | discriminate].
    + split; [split; discriminate |].
      intros m H. inversion H; subst; clear H.
      apply mathMin_least; [exact Hn | discriminate].
Qed.

(** X5 on three variations: the least of the two prices that parse. *)
Lemma min_price_least_witness :
  computeMinPriceFromUnitVariations twoPrices = Some (Fin 715000 0) /\
  In (Fin 715000 0) [Fin 7320000 0; Fin 715000 0] /\ natural (Fin 715000 0).
Proof.
  destruct (proj2 (min_price_least twoPrices) _ eq_refl) as [_ H].
  specialize (H (Fin 715000 0) ltac:(vm_compute; reflexivity)).
  split; [vm_compute; reflexivity |]. split; [apply H | apply H].
Defined.

(** ** The cover image and the status label *)

Lemma escapeSpaces_noSpace (s : string) : noSpace (Str.escapeSpaces s) = true.
Proof.
  unfold noSpace. induction s as [| c r IH]; [reflexivity |].
  cbn [Str.escapeSpaces]. destruct (Ascii.eqb c " ") eqn:E.
  - exact IH.
  - cbn [Str.all]. rewrite E. exact IH.
Qed.

Lemma escapeSpaces_fixed (s : string) : noSpace s = true -> Str.escapeSpaces s = s.
Proof.
  unfold noSpace. induction s as [| c r IH]; [reflexivity |].
  cbn [Str.all Str.escapeSpaces]. intros H. apply andb_true_iff in H as [Hc Hr].
  apply negb_true_iff in Hc. rewrite Hc, (IH Hr). reflexivity.
Qed.

Lemma all_trimStart (p : ascii -> bool) (s : string) :
  Str.all p s = true -> Str.all p (Str.trimStart s) = true.
Proof.
  induction s as [| c r IH]; [reflexivity |]. cbn [Str.trimStart].
  destruct (Str.isSpace c); [| trivial].
  cbn [Str.all]. intros H. apply andb_true_iff in H as [_ H]. exact (IH H).
Qed.

Lemma all_trimEnd (p : ascii -> bool) (s : string) :
  Str.all p s = true -> Str.all p (Str.trimEnd s) = true.
Proof.
  induction s as [| c r IH]; [reflexivity |]. cbn [Str.trimEnd Str.all].
  intros H. apply andb_true_iff in H as [Hc Hr].
  destruct (Str.isSpace c && Str.isEmpty (Str.trimEnd r)); [reflexivity |].
  cbn [Str.all]. rewrite Hc, (IH Hr). reflexivity.
Qed.

Lemma trim_ascii (s : string) : isAscii s = true -> isAscii (Str.trim s) = true.
Proof. intros H. apply all_trimEnd, all_trimStart, H. Qed.

Lemma escapeSpaces_ascii (s : string) :
  isAscii s = true -> isAscii (Str.escapeSpaces s) = true.
Proof.
  unfold isAscii. induction s as [| c r IH]; [reflexivity |].
  cbn [Str.all Str.escapeSpaces]. intros H. apply andb_true_iff in H as [Hc Hr].
  destruct (Ascii.eqb c " ").
  - cbn [append Str.all]. rewrite (IH Hr). reflexivity.
  - cbn [Str.all]. rewrite Hc, (IH Hr). reflexivity.
Qed.

(** A text with no white space at its start. *)
Lemma trimStart_head (s : string) :
  Str.trimStart s = "" \/
  exists c r, Str.trimStart s = String c r /\ Str.isSpace c = false.
Proof.
  induction s as [| c r IH]; [left; reflexivity |]. cbn [Str.trimStart].
  destruct (Str.isSpace c) eqn:E; [exact IH |]. right. exists c, r. auto.
Qed.

Lemma trimEnd_idem (s : string) : Str.trimEnd (Str.trimEnd s) = Str.trimEnd s.
Proof.
  induction s as [| c r IH]; [reflexivity |]. cbn [Str.trimEnd].
  destruct (Str.isSpace c && Str.isEmpty (Str.trimEnd r)) eqn:E; [reflexivity |].
  cbn [Str.trimEnd]. rewrite IH, E. reflexivity.
Qed.

Lemma trimStart_trim (s : string) : Str.trimStart (Str.trim s) = Str.trim s.
Proof.
  unfold Str.trim. destruct (trimStart_head s) as [-> | (c & r & -> & Hc)]; [reflexivity |].
  cbn [Str.trimEnd]. rewrite Hc. cbn [andb Str.trimStart]. rewrite Hc. reflexivity.
Qed.

Lemma trimEnd_trim (s : string) : Str.trimEnd (Str.trim s) = Str.trim s.
Proof. apply trimEnd_idem. Qed.

Lemma trim_idem (s : string) : Str.trim (Str.trim s) = Str.trim s.
Proof.
  unfold Str.trim at 1. rewrite trimStart_trim. apply trimEnd_trim.
Qed.

Lemma trimStart_length (s : string) :
  (String.length (Str.trimStart s) <= String.length s)%nat.
Proof.
  induction s as [| c r IH]; [reflexivity |]. cbn [Str.trimStart].
  destruct (Str.isSpace c); simpl; lia.
Qed.

Lemma escapeSpaces_empty (s : string) :
  Str.isEmpty (Str.escapeSpaces s) = Str.isEmpty s.
Proof. destruct s as [| c r]; [reflexivity |]. simpl. destruct (Ascii.eqb c " "); reflexivity. Qed.

Lemma trimStart_escapeSpaces (t : string) :
  Str.trimStart t = t -> Str.trimStart (Str.escapeSpaces t) = Str.escapeSpaces t.
Proof.
  destruct t as [| c r]; [reflexivity |]. cbn [Str.trimStart].
  destruct (Str.isSpace c) eqn:Hc.
  - intros H. pose proof (trimStart_length r) as L. rewrite H in L. simpl in L. lia.
  - intros _. cbn [Str.escapeSpaces].
    destruct (Ascii.eqb_spec c " ") as [-> | _]; [discriminate Hc |].
    cbn [Str.trimStart]. rewrite Hc. reflexivity.
Qed.

Lemma trimEnd_escapeSpaces (t : string) :
  Str.trimEnd t = t -> Str.trimEnd (Str.escapeSpaces t) = Str.escapeSpaces t.
Proof.
  induction t as [| c r IH]; [reflexivity |]. cbn [Str.trimEnd].
  destruct (Str.isSpace c && Str.isEmpty (Str.trimEnd r)) eqn:E; [discriminate |].
  intros H. inversion H as [Hr]. rewrite Hr in E. rewrite Hr. specialize (IH Hr).
  cbn [Str.escapeSpaces]. destruct (Ascii.eqb c " ").
  - change ("%20" ++ Str.escapeSpaces r)
      with (String "%" (String "2" (String "0" (Str.escapeSpaces r)))).
    cbn [Str.trimEnd]. rewrite IH. reflexivity.
  - cbn [Str.trimEnd]. rewrite IH, escapeSpaces_empty, E. reflexivity.
Qed.

Lemma trim_escapeSpaces (s : string) :
  Str.trim (Str.escapeSpaces (Str.trim s)) = Str.escapeSpaces (Str.trim s).
Proof.
  unfold Str.trim at 1.
  rewrite (trimStart_escapeSpaces _ (trimStart_trim s)).
  apply trimEnd_escapeSpaces, trimEnd_trim.
Qed.

Section LabelFacts.

Variable host : Host.

(** X6.  [cleanUrl] gives the empty string for a falsy value.  For any
    other value that converts to the ASCII text [s], it gives what the URL
    parser makes of the trimmed text when the parser accepts it.  When the
    parser rejects it, it gives the trimmed text with every space written
    [%20]: an ASCII text without a space and without white space at either
    end, the trimmed text itself when that has no space, and a text
    [cleanUrl] gives back unchanged when the parser rejects it too. *)
Theorem cleanUrl_result (u : value) :
  (truthy u = false -> cleanUrl host u = OK "")
  /\
  (forall s,
     truthy u = true -> toString host u = OK s -> isAscii s = true ->
     exists r,
       cleanUrl host u = OK r /\
       (parseURL host (Str.trim s) = Some r \/
        (parseURL host (Str.trim s) = None /\
         r = Str.escapeSpaces (Str.trim s) /\
         isAscii r = true /\ noSpace r = true /\ Str.trim r = r /\
         (noSpace (Str.trim s) = true -> r = Str.trim s) /\
         (parseURL host r = None -> cleanUrl host (VStr r) = OK r)))).
Proof.
  unfold cleanUrl. split.
  - intros ->. reflexivity.
  - intros s -> -> Ha. cbn [negb bind].
    destruct (parseURL host (Str.trim s)) as [href |] eqn:E.
    + exists href. auto.
    + exists (Str.escapeSpaces (Str.trim s)). split; [reflexivity |]. right.
      split; [reflexivity |]. split; [reflexivity |].
      split; [apply escapeSpaces_ascii, trim_ascii, Ha |].
      split; [apply escapeSpaces_noSpace |].
      split; [apply trim_escapeSpaces |].
      split; [apply escapeSpaces_fixed |].
      pose proof (trim_escapeSpaces s) as T.
      pose proof (escapeSpaces_noSpace (Str.trim s)) as S.
      destruct (Str.escapeSpaces (Str.trim s)) as [| c r]; [reflexivity |].
      intros N. cbn [truthy Str.isEmpty negb toString bind]. rewrite T, N. cbn [bind].
      rewrite (escapeSpaces_fixed _ S). reflexivity.
Qed.

Lemma statusMap_found (key : string) (v : value) :
  assoc key statusMap = Some v -> v = VStr ("Status " ++ key).
Proof.
  unfold statusMap. cbn [assoc].
  repeat match goal with
         | |- context [String.eqb key ?k] =>
             destruct (String.eqb_spec key k) as [-> | _];
             [intros H; inversion H; reflexivity |]
         end.
  discriminate.
Qed.

Lemma salesStatusLabel_plain (code : value) (key : string) :
  toString host code = OK key -> nullish code = false -> inherited key = false ->
  salesStatusLabel host code = OK (VStr ("Status " ++ key)).
Proof.
  intros Hk Hn Hi. unfold salesStatusLabel, getOwnOrInherited. rewrite Hk. cbn [bind].
  destruct (assoc key statusMap) as [v |] eqn:E.
  - rewrite (statusMap_found key v E). reflexivity.
  - rewrite Hi. cbn [nullish]. rewrite Hn. reflexivity.
Qed.

Lemma digitsOfPos_digit (fuel : nat) (n : Z) (acc : string) :
  0 <= n ->
  exists c r, digitsOfPos (S fuel) n acc = String c r /\ Str.isDigit c = true.
Proof.
  revert n acc. induction fuel as [| k IH]; intros n acc Hn.
  - cbn [digitsOfPos]. 
    assert (D : Str.isDigit (ascii_of_N (Z.to_N (48 + n mod 10))) = true).
    { pose proof (Z.mod_pos_bound n 10 ltac:(lia)) as Hb.
      unfold Str.isDigit, Str.code. rewrite N_ascii_embedding by lia.
      rewrite Z2N.id by lia. apply andb_true_iff. split; apply Z.leb_le; lia. }
    destruct (n / 10 =? 0); eauto.
  - change (digitsOfPos (S (S k)) n acc)
      with (let acc' := String (ascii_of_N (Z.to_N (48 + n mod 10))) acc in
            if n / 10 =? 0 then acc' else digitsOfPos (S k) (n / 10) acc').
    cbv zeta.
    assert (D : Str.isDigit (ascii_of_N (Z.to_N (48 + n mod 10))) = true).
    { pose proof (Z.mod_pos_bound n 10 ltac:(lia)) as Hb.
      unfold Str.isDigit, Str.code. rewrite N_ascii_embedding by lia.
      rewrite Z2N.id by lia. apply andb_true_iff. split; apply Z.leb_le; lia. }
    destruct (n / 10 =? 0); [eauto |].
    apply IH. apply Z.div_pos; lia.
Qed.

Lemma digit_not_inherited (c : ascii) (r : string) :
  Str.isDigit c = true \/ c = "-"%char -> inherited (String c r) = false.
Proof.
  intros [H | ->]; [| reflexivity].
  destruct c as [b0 b1 b2 b3 b4 b5 b6 b7].
  destruct b0, b1, b2, b3, b4, b5, b6, b7; try discriminate H; reflexivity.
Qed.

Lemma decimalString_not_inherited (z : Z) : inherited (decimalString z) = false.
Proof.
  unfold decimalString. destruct (Z.ltb_spec z 0).
  - apply digit_not_inherited. right. reflexivity.
  - destruct (digitsOfPos_digit (Z.to_nat (Z.log2 z)) z "" ltac:(lia)) as (c & r & -> & Hc).
    apply digit_not_inherited. left. exact Hc.
Qed.

(** X7.  The status label.  A null or absent code gives ["Unknown"].  Any
    other code whose text [key] is not a member of [Object.prototype]
    gives ["Status " ++ key]: the four entries of the table say what the
    fallback says.  So an integer code [n] below 2^53 in magnitude gives
    ["Status n"], in decimal digits.  A code
    whose text names a member of [Object.prototype] ([constructor],
    [toString], ...) gives that built-in, not a label. *)
Theorem status_label (code : value) :
  (nullish code = true -> salesStatusLabel host code = OK (VStr "Unknown"))
  /\
  (forall key,
     toString host code = OK key -> nullish code = false -> inherited key = false ->
     salesStatusLabel host code = OK (VStr ("Status " ++ key)))
  /\
  (forall n,
     code = VNum (Fin n 0) -> Z.abs n < 2 ^ 53 ->
     salesStatusLabel host code = OK (VStr ("Status " ++ decimalString n)))
  /\
  (forall key,
     toString host code = OK key -> inherited key = true ->
     salesStatusLabel host code = OK (VNative key)).
Proof.
  split; [| split; [| split]].
  - destruct code; try discriminate; reflexivity.
  - apply salesStatusLabel_plain.
  - intros n -> Hn. apply salesStatusLabel_plain; [| reflexivity |].
    + cbn [toString numberToString]. rewrite Z.eqb_refl.
      destruct (Z.ltb_spec (Z.abs n) (2 ^ 53)); [reflexivity | lia].
    + apply decimalString_not_inherited.
  - intros key Hk Hi. unfold salesStatusLabel, getOwnOrInherited. rewrite Hk. cbn [bind].
    destruct (assoc key statusMap) as [v |] eqn:E.
    + exfalso. revert E Hi. unfold statusMap. cbn [assoc].
      repeat match goal with
             | |- context [String.eqb key ?k] =>
                 destruct (String.eqb_spec key k) as [-> | _];
                 [intros _ Hi; discriminate Hi |]
             end.
      discriminate.
    + rewrite Hi. reflexivity.
Qed.

Lemma salesStatusLabel_defined (code v : value) :
  salesStatusLabel host code = OK v -> nullish v = false.
Proof.
  unfold salesStatusLabel. intros H. apply bind_OK in H as (key & _ & H).
  destruct (nullish (getOwnOrInherited statusMap key)) eqn:E.
  - destruct (nullish code).
    + inversion H. reflexivity.
    + apply bind_OK in H as (s & _ & H). inversion H. reflexivity.
  - inversion H; subst. exact E.
Qed.

Lemma orElse_defined (v : value) (d : string) : nullish (orElse v (VStr d)) = false.
Proof. unfold orElse. destruct (nullish v) eqn:E; [reflexivity | exact E]. Qed.

Lemma toFloat_finite (v : value) (x : number) :
  toFloat host v = OK (Some x) -> isFinite x = true.
Proof.
  unfold toFloat. destruct (nullish v); [discriminate |].
  intros H. apply bind_OK in H as (s & _ & H).
  destruct (isFinite (parseFloat s)) eqn:E; inversion H; subst. exact E.
Qed.

(** X8.  The coordinates of a normalized listing are finite Numbers or
    null, and the listing has a pin exactly when neither is null: [hasPin]
    is the test the map and the pin count make. *)
Theorem normalized_coordinates (p : value) (l : listing) :
  normalizeProject host p = OK l ->
  (forall x, lat l = Some x -> isFinite x = true) /\
  (forall y, lng l = Some y -> isFinite y = true) /\
  (hasPin l = true <-> lat l <> None /\ lng l <> None) /\
  hasPin l = MapView.geolocated l /\
  ListingsApp.mapPinsCount [l] = (if hasPin l then 1 else 0)%nat.
Proof.
  unfold normalizeProject. intros H. bind_inv H.
  inversion H; subst; clear H. unfold ListingsApp.mapPinsCount, MapView.geolocated.
  cbn [hasPin lat lng filter].
  repeat match goal with
         | E : toFloat host _ = OK ?o |- _ =>
             assert (forall x, o = Some x -> isFinite x = true)
               by (intros x ->; exact (toFloat_finite _ _ E));
             clear E
         end.
  repeat match goal with
         | |- context [isFiniteNum ?o] => is_var o; destruct o as [? |]
         end;
    cbn [isFiniteNum andb];
    repeat match goal with
           | F : forall x, Some ?n = Some x -> isFinite x = true |- _ =>
               rewrite (F n eq_refl)
           end;
    cbn [andb List.length];
    (split; [assumption |]); (split; [assumption |]);
    (split; [| split; reflexivity]);
    (split; [try discriminate; intros _; split; discriminate
            | try reflexivity; intros [? ?]; congruence]).
Qed.

(** X9.  The fields of a normalized listing: the raw record and the status
    code are carried over; title, community, developer, completion date
    and status label are never null or undefined; a record without a name
    is titled ["Untitled"], and a name that is present, the empty string
    included, is kept. *)
Theorem normalized_defaults (p : value) (l : listing) :
  normalizeProject host p = OK l ->
  raw l = p /\
  salesStatusCode l = getOpt p "sales_status" /\
  toString host (orElse (getOpt p "id") (VStr "")) = OK (id l) /\
  title l = orElse (getOpt p "name") (VStr "Untitled") /\
  Listing.community l = orElse (getOpt p "community") (VStr "") /\
  Listing.developer l = orElse (getOpt p "developer") (VStr "") /\
  completionDate l = orElse (getOpt p "completion_date") (VStr "") /\
  nullish (title l) = false /\ nullish (Listing.community l) = false /\
  nullish (Listing.developer l) = false /\ nullish (completionDate l) = false /\
  nullish (statusLabel l) = false /\
  (getOpt p "name" = VStr "" -> title l = VStr "").
Proof.
  unfold normalizeProject. intros H. bind_inv H.
  inversion H; subst; clear H.
  cbn [raw salesStatusCode id title Listing.community Listing.developer completionDate
       statusLabel].
  get_subst.
  repeat match goal with
         | |- _ /\ _ => split
         end;
    try reflexivity; try apply orElse_defined; try assumption.
  - eapply salesStatusLabel_defined; eassumption.
  - intros ->. reflexivity.
Qed.

End LabelFacts.

(** ** Case and white space in the two parsers *)

Lemma trimStart_spaces (ws s : string) :
  Str.all Str.isSpace ws = true -> Str.trimStart (ws ++ s) = Str.trimStart s.
Proof.
  induction ws as [| c r IH]; [reflexivity |]. cbn [Str.all append Str.trimStart].
  intros H. apply andb_true_iff in H as [Hc Hr]. rewrite Hc. apply IH, Hr.
Qed.

Lemma trimEnd_all_spaces (ws : string) : Str.all Str.isSpace ws = true -> Str.trimEnd ws = "".
Proof.
  induction ws as [| c r IH]; [reflexivity |]. cbn [Str.all Str.trimEnd].
  intros H. apply andb_true_iff in H as [Hc Hr]. rewrite Hc, (IH Hr). reflexivity.
Qed.

Lemma trimEnd_spaces (s ws : string) :
  Str.all Str.isSpace ws = true -> Str.trimEnd (s ++ ws) = Str.trimEnd s.
Proof.
  intros H. induction s as [| c r IH]; [apply trimEnd_all_spaces, H |].
  cbn [append Str.trimEnd]. rewrite IH. reflexivity.
Qed.

Lemma trim_spaces_end (s ws : string) :
  Str.all Str.isSpace ws = true -> Str.trim (s ++ ws) = Str.trim s.
Proof.
  intros H. unfold Str.trim. induction s as [| c r IH].
  - cbn [append]. rewrite <- (append_empty_r ws), trimStart_spaces by exact H. reflexivity.
  - cbn [append Str.trimStart]. destruct (Str.isSpace c); [exact IH |].
    apply (trimEnd_spaces (String c r) ws H).
Qed.

Lemma trim_spaces (ws1 s ws2 : string) :
  Str.all Str.isSpace ws1 = true -> Str.all Str.isSpace ws2 = true ->
  Str.trim (ws1 ++ s ++ ws2) = Str.trim s.
Proof.
  intros H1 H2. unfold Str.trim. rewrite trimStart_spaces by exact H1.
  apply trim_spaces_end, H2.
Qed.

Lemma isSpace_lower (c : ascii) : Str.isSpace (Str.toLowerChar c) = Str.isSpace c.
Proof.
  destruct c as [b0 b1 b2 b3 b4 b5 b6 b7].
  destruct b0, b1, b2, b3, b4, b5, b6, b7; reflexivity.
Qed.

Lemma isSpace_upper (c : ascii) : Str.isSpace (Str.toUpperChar c) = Str.isSpace c.
Proof.
  destruct c as [b0 b1 b2 b3 b4 b5 b6 b7].
  destruct b0, b1, b2, b3, b4, b5, b6, b7; reflexivity.
Qed.

Lemma upper_lower (c : ascii) : Str.toUpperChar (Str.toLowerChar c) = Str.toUpperChar c.
Proof.
  destruct c as [b0 b1 b2 b3 b4 b5 b6 b7].
  destruct b0, b1, b2, b3, b4, b5, b6, b7; reflexivity.
Qed.

Lemma upper_upper (c : ascii) : Str.toUpperChar (Str.toUpperChar c) = Str.toUpperChar c.
Proof.
  destruct c as [b0 b1 b2 b3 b4 b5 b6 b7].
  destruct b0, b1, b2, b3, b4, b5, b6, b7; reflexivity.
Qed.

Section TrimMap.

Variable f : ascii -> ascii.
Hypothesis f_space : forall c, Str.isSpace (f c) = Str.isSpace c.

Lemma isEmpty_map (s : string) : Str.isEmpty (Str.map f s) = Str.isEmpty s.
Proof. destruct s; reflexivity. Qed.

Lemma trimStart_map (s : string) : Str.trimStart (Str.map f s) = Str.map f (Str.trimStart s).
Proof.
  induction s as [| c r IH]; [reflexivity |]. cbn [Str.map Str.trimStart].
  rewrite f_space. destruct (Str.isSpace c); [exact IH | reflexivity].
Qed.

Lemma trimEnd_map (s : string) : Str.trimEnd (Str.map f s) = Str.map f (Str.trimEnd s).
Proof.
  induction s as [| c r IH]; [reflexivity |]. cbn [Str.map Str.trimEnd].
  rewrite f_space, IH, isEmpty_map.
  destruct (Str.isSpace c && Str.isEmpty (Str.trimEnd r)); reflexivity.
Qed.

Lemma trim_map (s : string) : Str.trim (Str.map f s) = Str.map f (Str.trim s).
Proof. unfold Str.trim. rewrite trimStart_map, trimEnd_map. reflexivity. Qed.

End TrimMap.

Lemma strmap_map (f g : ascii -> ascii) (s : string) :
  Str.map g (Str.map f s) = Str.map (fun c => g (f c)) s.
Proof. induction s as [| c r IH]; [reflexivity |]. simpl. rewrite IH. reflexivity. Qed.

Lemma strmap_ext (f g : ascii -> ascii) (s : string) :
  (forall c, f c = g c) -> Str.map f s = Str.map g s.
Proof. intros H. induction s as [| c r IH]; [reflexivity |]. simpl. rewrite H, IH. reflexivity. Qed.

(** The text both parsers match against. *)
Lemma canonical_lower (s : string) :
  Str.toUpperCase (Str.trim (Str.toLowerCase s)) = Str.toUpperCase (Str.trim s).
Proof.
  unfold Str.toUpperCase, Str.toLowerCase.
  rewrite (trim_map _ isSpace_lower), strmap_map. apply strmap_ext, upper_lower.
Qed.

Lemma canonical_upper (s : string) :
  Str.toUpperCase (Str.trim (Str.toUpperCase s)) = Str.toUpperCase (Str.trim s).
Proof.
  unfold Str.toUpperCase.
  rewrite (trim_map _ isSpace_upper), strmap_map. apply strmap_ext, upper_upper.
Qed.

Lemma matchPrice_empty : matchPrice "" = None.
Proof. reflexivity. Qed.

Lemma parsePriceAED_canonical (s t : string) :
  Str.toUpperCase (Str.trim s) = Str.toUpperCase (Str.trim t) ->
  parsePriceAED (VStr s) = parsePriceAED (VStr t).
Proof.
  intros E. unfold parsePriceAED. rewrite E.
  destruct (Str.isEmpty s) eqn:Es, (Str.isEmpty t) eqn:Et; try reflexivity.
  - apply isEmpty_true in Es. subst s.
    change (Str.toUpperCase (Str.trim "")) with "" in E. rewrite <- E. reflexivity.
  - apply isEmpty_true in Et. subst t. reflexivity.
Qed.

Lemma parseCompletion_canonical (s t : string) :
  Str.toUpperCase (Str.trim s) = Str.toUpperCase (Str.trim t) ->
  parseCompletionDateSortable (VStr s) = parseCompletionDateSortable (VStr t).
Proof.
  intros E. unfold parseCompletionDateSortable. rewrite E.
  destruct (Str.isEmpty s) eqn:Es, (Str.isEmpty t) eqn:Et; try reflexivity.
  - apply isEmpty_true in Es. subst s.
    change (Str.toUpperCase (Str.trim "")) with "" in E. rewrite <- E. reflexivity.
  - apply isEmpty_true in Et. subst t. reflexivity.
Qed.

(** X10.  The price parser and the completion-date parser read a text the
    same whatever the case of its letters and whatever white space
    surrounds it. *)
Theorem parsers_ignore_case_and_margin (s ws1 ws2 : string) :
  Str.all Str.isSpace ws1 = true -> Str.all Str.isSpace ws2 = true ->
  parsePriceAED (VStr (ws1 ++ s ++ ws2)) = parsePriceAED (VStr s) /\
  parsePriceAED (VStr (Str.toLowerCase s)) = parsePriceAED (VStr s) /\
  parsePriceAED (VStr (Str.toUpperCase s)) = parsePriceAED (VStr s) /\
  parseCompletionDateSortable (VStr (ws1 ++ s ++ ws2)) = parseCompletionDateSortable (VStr s) /\
  parseCompletionDateSortable (VStr (Str.toLowerCase s)) = parseCompletionDateSortable (VStr s) /\
  parseCompletionDateSortable (VStr (Str.toUpperCase s)) = parseCompletionDateSortable (VStr s).
Proof.
  intros H1 H2.
  repeat split;
    (apply parsePriceAED_canonical || apply parseCompletion_canonical);
    try (rewrite (trim_spaces ws1 s ws2 H1 H2); reflexivity);
    try apply canonical_lower; apply canonical_upper.
Qed.

(** X10 on a price in lower case between spaces. *)
Lemma parsers_ignore_case_and_margin_witness :
  parsePriceAED (VStr ("  " ++ "7.32 m" ++ " ")) = parsePriceAED (VStr "7.32 m") /\
  parsePriceAED (VStr "7.32 m") = Some (Fin 7320000 0).
Proof.
  split; [| vm_compute; reflexivity].
  apply (parsers_ignore_case_and_margin "7.32 m" "  " " "); reflexivity.
Defined.

(** ** Coordinates *)

Lemma decimalFrom_app (a b : string) (acc : Z) :
  Str.decimalFrom acc (a ++ b) = Str.decimalFrom (Str.decimalFrom acc a) b.
Proof. revert acc. induction a as [| c r IH]; intros acc; [reflexivity | apply IH]. Qed.

Lemma digit_char (d : Z) :
  0 <= d < 10 ->
  Str.isDigit (ascii_of_N (Z.to_N (48 + d))) = true /\
  Str.digitVal (ascii_of_N (Z.to_N (48 + d))) = d.
Proof.
  intros H. unfold Str.isDigit, Str.digitVal, Str.code.
  rewrite N_ascii_embedding by lia. rewrite Z2N.id by lia.
  split; [apply andb_true_iff; split; apply Z.leb_le |]; lia.
Qed.

(** The digits [digitsOfPos] writes read back as the number. *)
Lemma digitsOfPos_spec (fuel : nat) (n : Z) (acc : string) :
  0 <= n < 2 ^ Z.of_nat (S fuel) ->
  exists ds,
    digitsOfPos (S fuel) n acc = ds ++ acc /\ ds <> "" /\
    Str.all Str.isDigit ds = true /\ Str.decimal ds = n.
Proof.
  revert n acc. induction fuel as [| k IH]; intros n acc Hn.
  - assert (Hq : n / 10 = 0) by (apply Z.div_small; change (2 ^ Z.of_nat 1) with 2 in Hn; lia).
    cbn [digitsOfPos]. rewrite Hq. cbn [Z.eqb].
    destruct (digit_char (n mod 10)) as [Hd Hv]; [apply Z.mod_pos_bound; lia |].
    exists (String (ascii_of_N (Z.to_N (48 + n mod 10))) "").
    split; [reflexivity |]. split; [discriminate |]. split.
    + cbn [Str.all]. rewrite Hd. reflexivity.
    + unfold Str.decimal. cbn [Str.decimalFrom]. rewrite Hv.
      rewrite Z.mod_small; [lia |]. change (2 ^ Z.of_nat 1) with 2 in Hn. lia.
  - change (digitsOfPos (S (S k)) n acc)
      with (let acc' := String (ascii_of_N (Z.to_N (48 + n mod 10))) acc in
            if n / 10 =? 0 then acc' else digitsOfPos (S k) (n / 10) acc').
    cbv zeta.
    destruct (digit_char (n mod 10)) as [Hd Hv]; [apply Z.mod_pos_bound; lia |].
    destruct (Z.eqb_spec (n / 10) 0) as [Hq | Hq].
    + exists (String (ascii_of_N (Z.to_N (48 + n mod 10))) "").
      split; [reflexivity |]. split; [discriminate |]. split.
      * cbn [Str.all]. rewrite Hd. reflexivity.
      * unfold Str.decimal. cbn [Str.decimalFrom]. rewrite Hv.
        pose proof (Z.div_mod n 10 ltac:(lia)). lia.
    + assert (Hb : 0 <= n / 10 < 2 ^ Z.of_nat (S k)).
      { split; [apply Z.div_pos; lia |].
        rewrite (Nat2Z.inj_succ (S k)), Z.pow_succ_r in Hn by lia.
        apply Z.div_lt_upper_bound; lia. }
      destruct (IH (n / 10) (String (ascii_of_N (Z.to_N (48 + n mod 10))) acc) Hb)
        as (ds & E & Hne & Hall & Hdec).
      exists (ds ++ String (ascii_of_N (Z.to_N (48 + n mod 10))) "").
      split; [rewrite E, append_assoc; reflexivity |].
      split; [destruct ds; discriminate |]. split.
      * rewrite all_app, Hall. cbn [Str.all]. rewrite Hd. reflexivity.
      * unfold Str.decimal in *. rewrite decimalFrom_app, Hdec. cbn [Str.decimalFrom].
        rewrite Hv. pose proof (Z.div_mod n 10 ltac:(lia)). lia.
Qed.

Lemma decimalString_nonneg (n : Z) :
  0 <= n ->
  decimalString n <> "" /\ Str.all Str.isDigit (decimalString n) = true /\
  Str.decimal (decimalString n) = n.
Proof.
  intros Hn. unfold decimalString. destruct (Z.ltb_spec n 0); [lia |].
  destruct (digitsOfPos_spec (Z.to_nat (Z.log2 n)) n "") as (ds & E & Hne & Hall & Hdec).
  { split; [exact Hn |]. rewrite Nat2Z.inj_succ, Z2Nat.id by apply Z.log2_nonneg.
    destruct (Z.eq_dec n 0) as [-> | Hz]; [reflexivity |].
    apply Z.log2_spec. lia. }
  rewrite E, append_empty_r. auto.
Qed.

Lemma parseFloat_decimalString (n : Z) :
  Z.abs n < 2 ^ 53 -> parseFloat (decimalString n) = Fin n 0.
Proof.
  intros Hb. destruct (Z.ltb_spec n 0) as [Hneg | Hpos].
  - unfold decimalString. destruct (Z.ltb_spec n 0); [| lia].
    destruct (decimalString_nonneg (- n) ltac:(lia)) as (Hne & Hall & Hdec).
    unfold decimalString in Hne, Hall, Hdec.
    destruct (Z.ltb_spec (- n) 0); [lia |].
    set (ds := digitsOfPos (S (Z.to_nat (Z.log2 (- n)))) (- n) "") in *.
    unfold parseFloat. cbn [Str.trimStart Str.isSpace]. 
    change (Str.isSpace "-") with false. cbv iota.
    unfold signOf. change (Ascii.eqb "-" "+") with false. change (Ascii.eqb "-" "-") with true.
    cbv iota.
    destruct ds as [| c r] eqn:Eds; [congruence |].
    assert (Hc : Str.isDigit c = true) by (simpl in Hall; apply andb_true_iff in Hall; tauto).
    assert (HI : Str.startsWith "Infinity" (String c r) = false).
    { cbn [Str.startsWith]. destruct (Ascii.eqb_spec "I" c) as [<- | _]; [discriminate Hc | reflexivity]. }
    rewrite HI.
    pose proof (span_app Str.isDigit (String c r) "" Hall I) as Hs.
    rewrite append_empty_r in Hs. rewrite Hs.
    cbn [fractionOf Str.isEmpty andb exponentOf]. rewrite append_empty_r, Hdec.
    unfold of_decimal. cbn. rewrite Z.mul_1_r.
    replace (- - n) with n by lia. apply of_ratio_small, Hb.
  - destruct (decimalString_nonneg n Hpos) as (Hne & Hall & Hdec).
    rewrite (parseFloat_integer _ Hall Hne), Hdec.
    unfold of_decimal. cbn. rewrite Z.mul_1_r. apply of_ratio_small, Hb.
Qed.

Lemma parseFloat_spaces (s : string) : Str.all Str.isSpace s = true -> parseFloat s = NaN.
Proof.
  intros H. unfold parseFloat.
  rewrite <- (append_empty_r s), (trimStart_spaces s "" H). reflexivity.
Qed.

Section CoordinateFacts.

Variable host : Host.

(** X11.  [toFloat].  Null and undefined give null; so do a text of white
    space only (the empty text included) and a boolean.  An integer Number
    below 2^53 in magnitude is returned as it is.  Whatever it returns is
    null or a finite number. *)
Theorem toFloat_edges :
  (forall v, nullish v = true -> toFloat host v = OK None) /\
  (forall s, Str.all Str.isSpace s = true -> toFloat host (VStr s) = OK None) /\
  (forall b, toFloat host (VBool b) = OK None) /\
  (forall n, Z.abs n < 2 ^ 53 -> toFloat host (VNum (Fin n 0)) = OK (Some (Fin n 0))) /\
  (forall v x, toFloat host v = OK (Some x) -> isFinite x = true).
Proof.
  split; [| split; [| split; [| split]]].
  - intros v Hv. unfold toFloat. rewrite Hv. reflexivity.
  - intros s Hs. unfold toFloat. cbn [nullish toString bind].
    rewrite (parseFloat_spaces s Hs). reflexivity.
  - intros [|]; reflexivity.
  - intros n Hn. unfold toFloat. cbn [nullish toString bind numberToString].
    rewrite Z.eqb_refl.
    destruct (Z.ltb_spec (Z.abs n) (2 ^ 53)); [| lia]. cbn [andb].
    rewrite (parseFloat_decimalString n Hn). reflexivity.
  - intros v x. unfold toFloat. destruct (nullish v); [discriminate |].
    intros H. apply bind_OK in H as (s & _ & H).
    destruct (isFinite (parseFloat s)) eqn:E; inversion H; subst. exact E.
Qed.

(** X12.  A load of the feed touches the catalog and the load error only:
    map visibility, selection, filters, query and sort key are as before.
    It either leaves the catalog as it was or empties the load error,
    and once the component is unmounted it changes nothing at all. *)
Theorem load_frame (cancelled : bool) (f : App.fetched) (st : App.state) :
  let st' := App.load host cancelled f st in
  App.showMap st' = App.showMap st /\ App.selectedId st' = App.selectedId st /\
  App.community st' = App.community st /\ App.developer st' = App.developer st /\
  App.status st' = App.status st /\ App.q st' = App.q st /\
  App.sortBy st' = App.sortBy st /\
  (App.all st' = App.all st \/ App.loadError st' = "") /\
  (cancelled = true -> st' = st).
Proof.
  unfold App.load, App.onError, App.onPayload.
  destruct cancelled.
  - destruct f as [e | r]; [cbn; tauto |].
    destruct (App.onResponse host r); cbn; tauto.
  - assert (N : false = true -> False) by discriminate.
    destruct f as [e | r]; [cbn; tauto |].
    destruct (App.onResponse host r) as [e | payload]; [cbn; tauto |].
    destruct (getOpt (getOpt payload "data") "projects"); try (cbn; tauto).
    destruct (mapM (normalizeProject host) items) as [normalized | []]; cbn; tauto.
Qed.

End CoordinateFacts.

(** ** The sorts by name and by featured flag *)

Section NameSortFacts.

Variable host : Host.

Hypothesis collation_antisym :
  forall a b, localeCompare host b a = CompOpp (localeCompare host a b).
Hypothesis collation_trans :
  forall a b c, localeCompare host a b <> Gt -> localeCompare host b c <> Gt ->
                localeCompare host a c <> Gt.

Lemma collation_total (a b : string) :
  localeCompare host a b = Gt -> localeCompare host b a <> Gt.
Proof. intros H. rewrite collation_antisym, H. discriminate. Qed.

Lemma compareProjects_name_asc (a b : listing) :
  hasTextTitle a = true -> hasTextTitle b = true ->
  compareProjects host "name_asc" a b = OK (byTitle host a b).
Proof.
  intros Ta Tb. unfold compareProjects, sortProjects.
  rewrite (lowerTitle_text a Ta), (lowerTitle_text b Tb). simpl.
  rewrite sign_numberOfComparison. reflexivity.
Qed.

Lemma compareProjects_name_desc (a b : listing) :
  hasTextTitle a = true -> hasTextTitle b = true ->
  compareProjects host "name_desc" a b = OK (byTitle host b a).
Proof.
  intros Ta Tb. unfold compareProjects, sortProjects.
  rewrite (lowerTitle_text a Ta), (lowerTitle_text b Tb). simpl.
  rewrite sign_numberOfComparison. reflexivity.
Qed.

(** X13.  Sorting listings with text titles by [name_asc] or [name_desc]
    returns a permutation of the list; where the titles are ASCII text it
    stands in collation order of the lower-cased titles under [name_asc]
    and in the reverse order under [name_desc]. *)
Theorem sort_by_name (l : list listing) :
  Forall (fun p => hasTextTitle p = true) l ->
  (exists res, sortM (compareProjects host "name_asc") l = OK res /\
               Permutation l res /\
               (Forall asciiTitle l ->
                StronglySorted
                  (fun a b => localeCompare host (titleKey a) (titleKey b) <> Gt) res)) /\
  (exists res, sortM (compareProjects host "name_desc") l = OK res /\
               Permutation l res /\
               (Forall asciiTitle l ->
                StronglySorted
                  (fun a b => localeCompare host (titleKey b) (titleKey a) <> Gt) res)).
Proof.
  intros Hl. rewrite Forall_forall in Hl. split.
  - exists (sort (byTitle host) l). split; [| split].
    + apply sortM_pure. intros a b Ha Hb. apply compareProjects_name_asc; auto.
    + apply sort_perm.
    + intros _. apply (sort_sorted (byTitle host)).
      * intros x y. apply collation_total.
      * intros x y z. apply collation_trans.
  - exists (sort (fun a b => byTitle host b a) l). split; [| split].
    + apply sortM_pure. intros a b Ha Hb. apply compareProjects_name_desc; auto.
    + apply sort_perm.
    + intros _. apply (sort_sorted (fun a b => byTitle host b a)).
      * intros x y. apply collation_total.
      * intros x y z H1 H2. exact (collation_trans _ _ _ H2 H1).
Qed.

Lemma compareProjects_default (sortBy : string) (a b : listing) :
  ~ In sortBy namedSorts ->
  hasTextTitle a = true -> hasTextTitle b = true ->
  compareProjects host sortBy a b = OK (keyed featuredKey false (byTitle host) a b).
Proof.
  intros Hs Ta Tb. unfold compareProjects, sortProjects.
  rewrite (lowerTitle_text a Ta), (lowerTitle_text b Tb). cbn [bind].
  repeat match goal with
         | |- context [String.eqb sortBy ?k] =>
             destruct (String.eqb_spec sortBy k) as [E | _];
             [exfalso; apply Hs; rewrite E; simpl; tauto |]
         end.
  cbn [bind]. rewrite sign_orNumber. unfold keyed, featuredKey, keyCompare. 
  destruct (featured a), (featured b); rewrite sign_sub_int; reflexivity.
Qed.

Lemma featuredKey_first (a b : listing) :
  before host false featuredKey a b -> featured b = true -> featured a = true.
Proof.
  unfold before, featuredKey.
  destruct (featured a), (featured b); simpl; intros H1 H2;
    try reflexivity; try discriminate H2.
  destruct H1 as [H | [H _]]; lia.
Qed.

(** X14.  The default sort.  With [featured_then_name], and with any sort
    key the comparison has no case for, sorting listings with text titles
    returns a permutation in which every featured listing stands before
    every listing that is not; where the titles are ASCII text, the
    lower-cased titles of each group are in collation order. *)
Theorem sort_featured_first (sortBy : string) (l : list listing) :
  ~ In sortBy namedSorts ->
  Forall (fun p => hasTextTitle p = true) l ->
  exists res,
    sortM (compareProjects host sortBy) l = OK res /\
    Permutation l res /\
    StronglySorted (fun a b => featured b = true -> featured a = true) res /\
    (Forall asciiTitle l -> StronglySorted (before host false featuredKey) res).
Proof.
  intros Hs Hl. rewrite Forall_forall in Hl.
  destruct (sorted_by_key host collation_antisym collation_trans featuredKey false
              (compareProjects host sortBy) l) as (res & E & P & S).
  { intros a b Ha Hb. apply compareProjects_default; auto. }
  exists res. split; [exact E |]. split; [exact P |]. split; [| intros _; exact S].
  eapply StronglySorted_impl; [| exact S].
  intros x y _ _. apply featuredKey_first.
Qed.

End NameSortFacts.

Lemma sampleCatalog_titles : Forall (fun p => hasTextTitle p = true) sampleCatalog.
Proof. repeat constructor. Qed.

(** X13 on the catalog of four, whose titles are ASCII: by descending
    name the order is Gamma, Delta, Beta, alpha. *)
Lemma sort_by_name_witness :
  Forall (fun p => hasTextTitle p = true) sampleCatalog /\
  Forall asciiTitle sampleCatalog /\
  List.map id
    (match sortM (compareProjects sampleHost "name_desc") sampleCatalog with
     | OK res => res
     | Throw _ => []
     end) = ["Gamma"; "Delta"; "Beta"; "alpha"] /\
  exists res, sortM (compareProjects sampleHost "name_asc") sampleCatalog = OK res /\
              Permutation sampleCatalog res /\
              StronglySorted
                (fun a b => localeCompare sampleHost (titleKey a) (titleKey b) <> Gt) res.
Proof.
  split; [exact sampleCatalog_titles |]. split; [exact sampleCatalog_asciiTitle |].
  split; [vm_compute; reflexivity |].
  destruct (proj1 (sort_by_name sampleHost sampleHost_antisym sampleHost_trans sampleCatalog
                     sampleCatalog_titles)) as (res & E & P & T).
  exists res. split; [exact E |]. split; [exact P |]. exact (T sampleCatalog_asciiTitle).
Defined.

(** X14 on the catalog of four. *)
Lemma sort_featured_first_witness :
  ~ In "featured_then_name" namedSorts /\
  Forall (fun p => hasTextTitle p = true) sampleCatalog /\
  Forall asciiTitle sampleCatalog /\
  exists res,
    sortM (compareProjects sampleHost "featured_then_name") sampleCatalog = OK res /\
    Permutation sampleCatalog res /\
    StronglySorted (fun a b => featured b = true -> featured a = true) res /\
    StronglySorted (before sampleHost false featuredKey) res.
Proof.
  assert (H : ~ In "featured_then_name" namedSorts).
  { simpl. intros [H | [H | [H | [H | [H | [H | []]]]]]]; discriminate H. }
  split; [exact H |]. split; [exact sampleCatalog_titles |].
  split; [exact sampleCatalog_asciiTitle |].
  destruct (sort_featured_first sampleHost sampleHost_antisym sampleHost_trans
              "featured_then_name" sampleCatalog H sampleCatalog_titles)
    as (res & E & P & F & T).
  exists res. split; [exact E |]. split; [exact P |]. split; [exact F |].
  exact (T sampleCatalog_asciiTitle).
Defined.

(** ** The page: filter, facets, selection and reset *)

Lemma strmap_app (f : ascii -> ascii) (a b : string) :
  Str.map f (a ++ b) = Str.map f a ++ Str.map f b.
Proof. induction a as [| c r IH]; simpl; [reflexivity | rewrite IH; reflexivity]. Qed.

Lemma trimStart_suffix (s : string) : exists ws, s = ws ++ Str.trimStart s.
Proof.
  induction s as [| c r [ws IH]]; [exists ""; reflexivity |].
  cbn [Str.trimStart]. destruct (Str.isSpace c).
  - exists (String c ws). simpl. rewrite <- IH. reflexivity.
  - exists "". reflexivity.
Qed.

Lemma trimEnd_prefix (s : string) : exists ws, s = Str.trimEnd s ++ ws.
Proof.
  induction s as [| c r [ws IH]]; [exists ""; reflexivity |].
  cbn [Str.trimEnd]. destruct (Str.isSpace c && Str.isEmpty (Str.trimEnd r)) eqn:E.
  - exists (String c r). reflexivity.
  - exists ws. simpl. rewrite <- IH. reflexivity.
Qed.

Lemma trim_occurs (s : string) : occursIn (Str.trim s) s.
Proof.
  unfold occursIn, Str.trim. destruct (trimStart_suffix s) as [pre Hpre].
  destruct (trimEnd_prefix (Str.trimStart s)) as [post Hpost].
  exists pre, post. rewrite <- Hpost. exact Hpre.
Qed.

Lemma occursIn_lower (a b : string) :
  occursIn a b -> occursIn (Str.toLowerCase a) (Str.toLowerCase b).
Proof.
  intros (pre & post & ->). exists (Str.toLowerCase pre), (Str.toLowerCase post).
  unfold Str.toLowerCase. rewrite !strmap_app. reflexivity.
Qed.

Lemma occursIn_prefix (a b rest : string) : occursIn a b -> occursIn a (b ++ rest).
Proof.
  intros (pre & post & ->). exists pre, (post ++ rest).
  rewrite !append_assoc. reflexivity.
Qed.

Lemma join_head (sep x : string) (r : list string) :
  exists rest, Str.join sep (x :: r) = x ++ rest.
Proof.
  destruct r as [| y t].
  - exists "". simpl. rewrite append_empty_r. reflexivity.
  - eexists. reflexivity.
Qed.

(** The title of a listing occurs in its searched text, in lower case
    and trimmed. *)
Lemma title_searched (p : listing) (t : string) :
  title p = VStr t ->
  Str.toLowerCase (Str.trim t) = "" \/
  occursIn (Str.toLowerCase (Str.trim t)) (searchText p).
Proof.
  intros Ht. destruct (Str.isEmpty t) eqn:Et.
  - apply isEmpty_true in Et. subst t. left. reflexivity.
  - right. unfold searchText, searchedFields. cbn [List.map]. rewrite Ht.
    change (textOf (VStr t)) with t.
    set (rest := [textOf (Listing.community p); textOf (Listing.developer p);
                  textOf (statusLabel p); textOf (completionDate p)]).
    assert (E : filter (fun s => negb (Str.isEmpty s)) (t :: rest)
                = t :: filter (fun s => negb (Str.isEmpty s)) rest).
    { cbn [filter]. rewrite Et. reflexivity. }
    rewrite E. apply occursIn_lower.
    destruct (join_head " " t (filter (fun s => negb (Str.isEmpty s)) rest)) as [tl ->].
    apply occursIn_prefix, trim_occurs.
Qed.

Section PageFacts.

Variable host : Host.

(** On text listings the filter and the sort do not throw. *)
Lemma filtered_text (st : App.state) :
  Forall textListing (App.all st) ->
  App.filtered host st
  = OK (sort (projectOrder host (App.sortBy st)) (filter (keepsText st) (App.all st))).
Proof.
  intros Hall. rewrite Forall_forall in Hall. unfold App.filtered.
  rewrite (filterM_pure _ (keepsText st)) by (intros p Hp; apply keeps_text, Hall, Hp).
  cbn [bind]. apply sortM_pure. intros a b Ha Hb.
  apply filter_In in Ha as [Ha _]. apply filter_In in Hb as [Hb _].
  apply compareProjects_text; apply Hall; assumption.
Qed.

Lemma filtered_In (st : App.state) (res : list listing) (p : listing) :
  Forall textListing (App.all st) -> App.filtered host st = OK res ->
  (In p res <-> In p (App.all st) /\ keepsText st p = true).
Proof.
  intros Hall E. rewrite (filtered_text st Hall) in E. inversion E; subst; clear E.
  rewrite <- filter_In.
  split; apply Permutation_in; [apply Permutation_sym |]; apply sort_perm.
Qed.

Lemma keepsText_unfiltered (st : App.state) (p : listing) :
  ListingsApp.searchingLabel st = "All listings" -> keepsText st p = true.
Proof.
  unfold ListingsApp.searchingLabel, keepsText.
  destruct (Str.isEmpty (App.community st)), (Str.isEmpty (App.developer st)),
           (Str.isEmpty (App.status st)), (Str.isEmpty (App.q st)) eqn:Eq;
    cbn [negb orb andb]; try discriminate.
  intros _. apply isEmpty_true in Eq. rewrite Eq. reflexivity.
Qed.

Lemma filter_all_true {A : Type} (f : A -> bool) (l : list A) :
  (forall x, In x l -> f x = true) -> filter f l = l.
Proof.
  induction l as [| x r IH]; intros H; [reflexivity |]. simpl.
  rewrite (H x (or_introl eq_refl)). f_equal. apply IH. intros y Hy. apply H. right. exact Hy.
Qed.

Lemma filter_shorter {A : Type} (f : A -> bool) (l : list A) :
  (List.length (filter f l) <= List.length l)%nat.
Proof. induction l as [| x r IH]; simpl; [lia |]. destruct (f x); simpl; lia. Qed.

Lemma filter_keeps_NoDup {A : Type} (f : A -> bool) (l : list A) :
  NoDup l -> NoDup (filter f l).
Proof.
  induction 1 as [| x r Hx _ IH]; simpl; [constructor |].
  destruct (f x); [| exact IH]. constructor; [| exact IH].
  intros H. apply filter_In in H as [H _]. contradiction.
Qed.

(** X15.  On a catalog of text listings [filtered] returns a list that is
    never longer than the catalog, has no duplicate when the catalog has
    none and, when the header reads ["All listings"], is a rearrangement
    of the whole catalog.  Where the searched fields and the query are
    ASCII text, it is a rearrangement of the listings that pass the
    filter: none is added, dropped or repeated. *)
Theorem filtered_rearranges (st : App.state) :
  Forall textListing (App.all st) ->
  exists res,
    App.filtered host st = OK res /\
    (List.length res <= List.length (App.all st))%nat /\
    (NoDup (App.all st) -> NoDup res) /\
    (ListingsApp.searchingLabel st = "All listings" -> Permutation (App.all st) res) /\
    (Forall asciiListing (App.all st) -> isAscii (App.q st) = true ->
     Permutation (filter (keepsText st) (App.all st)) res).
Proof.
  intros Hall. eexists. split; [apply filtered_text, Hall |].
  pose proof (sort_perm (projectOrder host (App.sortBy st))
                (filter (keepsText st) (App.all st))) as P.
  split; [| split; [| split; [| intros _ _; exact P]]].
  - rewrite <- (Permutation_length P). apply filter_shorter.
  - intros Hn. apply (Permutation_NoDup P), filter_keeps_NoDup, Hn.
  - intros Hl. rewrite <- P, filter_all_true; [reflexivity |].
    intros p _. apply keepsText_unfiltered, Hl.
Qed.

(** *** Facets *)

Lemma filter_truthy_VStr (l : list string) :
  filter truthy (List.map VStr l)
  = List.map VStr (filter (fun s => negb (Str.isEmpty s)) l).
Proof.
  induction l as [| x r IH]; [reflexivity |]. simpl.
  destruct (Str.isEmpty x); simpl; rewrite IH; reflexivity.
Qed.

Lemma uniq_text (l : list string) :
  uniq host (List.map VStr l)
  = OK (List.map VStr
          (sort (localeCompare host)
             (filter (fun s => negb (Str.isEmpty s)) (distinctInto [] l)))).
Proof.
  unfold uniq, dedup.
  change (dedupInto [] (List.map VStr l))
    with (dedupInto (List.map VStr []) (List.map VStr l)).
  rewrite (dedupInto_strings l []), filter_truthy_VStr, <- sort_map.
  apply sortM_pure. intros a b Ha Hb.
  apply in_map_iff in Ha as (x & <- & _). apply in_map_iff in Hb as (y & <- & _).
  reflexivity.
Qed.

Lemma map_text (field : listing -> value) (catalog : list listing) :
  Forall (fun p => isText (field p)) catalog ->
  List.map field catalog = List.map VStr (List.map (fun p => textOf (field p)) catalog).
Proof.
  induction 1 as [| p r Hp _ IH]; [reflexivity |]. simpl. rewrite <- IH. f_equal.
  destruct (field p); try contradiction. reflexivity.
Qed.

Lemma textsOf_spec (field : listing -> value) (catalog : list listing) (s : string) :
  Forall (fun p => isText (field p)) catalog ->
  (In s (textsOf field catalog) <->
   s <> "" /\ exists p, In p catalog /\ field p = VStr s).
Proof.
  intros Hall. unfold textsOf. rewrite filter_In, negb_true_iff, isEmpty_false.
  rewrite (proj2 (distinctInto_spec _ [])), in_map_iff.
  rewrite Forall_forall in Hall. split.
  - intros [[(p & E & Hp) _] Hs]. split; [exact Hs |]. exists p. split; [exact Hp |].
    specialize (Hall p Hp). destruct (field p); try contradiction. simpl in E. congruence.
  - intros [Hs (p & Hp & E)]. split; [| exact Hs]. split; [| intros []].
    exists p. rewrite E. split; [reflexivity | exact Hp].
Qed.

Lemma textsOf_NoDup (field : listing -> value) (catalog : list listing) :
  NoDup (textsOf field catalog).
Proof. apply filter_keeps_NoDup, (proj1 (distinctInto_spec _ [])). Qed.

Hypothesis collation_antisym :
  forall a b, localeCompare host b a = CompOpp (localeCompare host a b).
Hypothesis collation_trans :
  forall a b c, localeCompare host a b <> Gt -> localeCompare host b c <> Gt ->
                localeCompare host a c <> Gt.

Lemma facet_spec (field : listing -> value) (catalog : list listing) :
  Forall (fun p => isText (field p)) catalog ->
  exists options,
    uniq host (List.map field catalog) = OK (List.map VStr options) /\
    NoDup options /\
    StronglySorted (fun a b => localeCompare host a b <> Gt) options /\
    (forall s, In s options <-> s <> "" /\ exists p, In p catalog /\ field p = VStr s).
Proof.
  intros Hall. exists (sort (localeCompare host) (textsOf field catalog)).
  pose proof (sort_perm (localeCompare host) (textsOf field catalog)) as P.
  split; [| split; [| split]].
  - rewrite (map_text field catalog Hall). apply uniq_text.
  - apply (Permutation_NoDup P), textsOf_NoDup.
  - apply (sort_sorted (localeCompare host)).
    + intros x y H. rewrite collation_antisym, H. discriminate.
    + intros x y z. apply collation_trans.
  - intros s. rewrite <- (textsOf_spec field catalog s Hall).
    split; apply Permutation_in; [apply Permutation_sym |]; exact P.
Qed.

(** X16.  The options of the three drop-downs.  On a catalog of text
    listings each of [communities], [developers] and [statuses] is a list
    of strings without duplicates, in collation order, whose members are
    exactly the non-empty values the field takes in the catalog. *)
Theorem facet_options (st : App.state) :
  Forall textListing (App.all st) ->
  (exists options,
     ListingsApp.communities host st = OK (List.map VStr options) /\
     NoDup options /\
     StronglySorted (fun a b => localeCompare host a b <> Gt) options /\
     (forall s, In s options <->
                s <> "" /\ exists p, In p (App.all st) /\ Listing.community p = VStr s)) /\
  (exists options,
     ListingsApp.developers host st = OK (List.map VStr options) /\
     NoDup options /\
     StronglySorted (fun a b => localeCompare host a b <> Gt) options /\
     (forall s, In s options <->
                s <> "" /\ exists p, In p (App.all st) /\ Listing.developer p = VStr s)) /\
  (exists options,
     ListingsApp.statuses host st = OK (List.map VStr options) /\
     NoDup options /\
     StronglySorted (fun a b => localeCompare host a b <> Gt) options /\
     (forall s, In s options <->
                s <> "" /\ exists p, In p (App.all st) /\ statusLabel p = VStr s)).
Proof.
  intros Hall.
  split; [| split]; apply facet_spec; eapply Forall_impl; try exact Hall;
    intros p (Ht & Hc & Hd & Hs & Hcd); assumption.
Qed.

End PageFacts.

(** ** A title that is not text *)

Lemma insertM_length {A : Type} (cmp : A -> A -> result comparison) (x : A) (l s : list A) :
  insertM cmp x l = OK s -> List.length s = S (List.length l).
Proof.
  revert s. induction l as [| y r IH]; intros s H; cbn [insertM] in H.
  - inversion H. reflexivity.
  - apply bind_OK in H as (c & _ & H). destruct c; try (inversion H; reflexivity).
    apply bind_OK in H as (r' & E & H). inversion H; subst. simpl. rewrite (IH r' E). reflexivity.
Qed.

Lemma sortM_length {A : Type} (cmp : A -> A -> result comparison) (l s : list A) :
  sortM cmp l = OK s -> List.length s = List.length l.
Proof.
  revert s. induction l as [| x r IH]; intros s H; cbn [sortM] in H.
  - inversion H. reflexivity.
  - apply bind_OK in H as (s' & E & H). apply insertM_length in H.
    rewrite H, (IH s' E). reflexivity.
Qed.

Lemma throw_TypeError {A : Type} (r : result A) :
  (forall a, r <> OK a) -> r = Throw TypeError.
Proof. destruct r as [a | []]; [intros H; destruct (H a eq_refl) | reflexivity]. Qed.

Section BadTitle.

Variable host : Host.

Lemma compareProjects_throws (sortBy : string) (a b : listing) :
  hasTextTitle a = false \/ hasTextTitle b = false ->
  compareProjects host sortBy a b = Throw TypeError.
Proof.
  intros H. unfold compareProjects, sortProjects, lowerTitle, hasTextTitle in *.
  destruct (title a); cbn [orElse nullish bind];
    try reflexivity; destruct H as [H | H]; try discriminate H;
    destruct (title b); cbn [orElse nullish bind]; try reflexivity; discriminate H.
Qed.

Lemma sortM_throws (sortBy : string) (l : list listing) :
  (2 <= List.length l)%nat ->
  (exists p, In p l /\ hasTextTitle p = false) ->
  sortM (compareProjects host sortBy) l = Throw TypeError.
Proof.
  induction l as [| x r IH]; intros Hlen (p & Hp & Hbad); [simpl in Hlen; lia |].
  apply throw_TypeError. intros s H. cbn [sortM] in H.
  apply bind_OK in H as (s' & E & H).
  pose proof (sortM_length _ _ _ E) as Hl.
  destruct s' as [| y t]; [simpl in Hl, Hlen; lia |].
  cbn [insertM] in H. apply bind_OK in H as (c & Ec & _).
  destruct Hp as [-> | Hp].
  - rewrite compareProjects_throws in Ec by (left; exact Hbad). discriminate Ec.
  - destruct r as [| z [| z' r']]; [destruct Hp | |].
    + destruct Hp as [-> | []]. cbn [sortM bind insertM] in E. inversion E; subst.
      rewrite compareProjects_throws in Ec by (right; exact Hbad). discriminate Ec.
    + rewrite IH in E; [discriminate E | simpl; lia | exists p; auto].
Qed.

(** X17.  A title that is not text breaks the sort.  The normalizer copies
    a name that is present as it is, so a record whose name is a number
    gets a title that is a number; comparing such a listing with any other
    throws, whatever the sort key, so sorting a list of two or more that
    holds one throws, and so does [filtered] when no filter is set. *)
Theorem title_not_text_throws (sortBy : string) (l : list listing) :
  (2 <= List.length l)%nat ->
  (exists p, In p l /\ hasTextTitle p = false) ->
  sortM (compareProjects host sortBy) l = Throw TypeError /\
  (forall st,
     App.all st = l -> App.sortBy st = sortBy ->
     ListingsApp.searchingLabel st = "All listings" ->
     App.filtered host st = Throw TypeError) /\
  (forall p n t,
     normalizeProject host p = OK t -> getOpt p "name" = VNum n ->
     hasTextTitle t = false).
Proof.
  intros Hlen Hbad. split; [apply sortM_throws; assumption |]. split.
  - intros st Ha Hs Hl. unfold App.filtered.
    assert (Eq : App.q st = "" /\ App.community st = "" /\ App.developer st = "" /\
                 App.status st = "").
    { unfold ListingsApp.searchingLabel in Hl.
      destruct (Str.isEmpty (App.community st)) eqn:E1, (Str.isEmpty (App.developer st)) eqn:E2,
               (Str.isEmpty (App.status st)) eqn:E3, (Str.isEmpty (App.q st)) eqn:E4;
        try discriminate Hl.
      apply isEmpty_true in E1, E2, E3, E4. auto. }
    destruct Eq as (Eq & Ec & Ed & Es).
    rewrite (filterM_pure _ (fun _ => true)).
    + cbn [bind]. rewrite filter_all_true by reflexivity; rewrite Ha, Hs. apply sortM_throws; assumption.
    + intros q _. unfold App.keeps. rewrite Eq, Ec, Ed, Es. reflexivity.
  - intros p n t H Hn. unfold normalizeProject in H. bind_inv H.
    inversion H; subst; clear H. get_subst. unfold hasTextTitle. cbn [title].
    rewrite Hn. reflexivity.
Qed.

End BadTitle.

Section SelectionFacts.

Variable host : Host.

Lemma facet_members (field : listing -> value) (catalog : list listing)
  (options : list value) (c : string) :
  Forall (fun p => isText (field p)) catalog ->
  uniq host (List.map field catalog) = OK options -> In (VStr c) options ->
  c <> "" /\ exists p, In p catalog /\ field p = VStr c.
Proof.
  intros Hall E Hc. rewrite (map_text field catalog Hall), uniq_text in E.
  inversion E; subst; clear E.
  apply in_map_iff in Hc as (s & Es & Hs). inversion Es; subst; clear Es.
  apply (Permutation_in _ (Permutation_sym (sort_perm _ _))) in Hs.
  fold (textsOf field catalog) in Hs.
  apply (textsOf_spec field catalog c Hall), Hs.
Qed.

Lemma text_fields (p : listing) :
  textListing p ->
  exists t c d s,
    title p = VStr t /\ Listing.community p = VStr c /\ Listing.developer p = VStr d /\
    statusLabel p = VStr s.
Proof.
  intros (Ht & Hc & Hd & Hs & _).
  destruct (title p); try contradiction.
  destruct (Listing.community p); try contradiction.
  destruct (Listing.developer p); try contradiction.
  destruct (statusLabel p); try contradiction.
  eexists _, _, _, _. repeat split; reflexivity.
Qed.

(** X18.  An option a drop-down offers always matches a listing: with one
    of the offered communities (developers, statuses) chosen and no other
    filter, [filtered] returns a list that is not empty and holds only
    listings of that community (developer, status). *)
Theorem facet_option_matches (st : App.state) :
  Forall textListing (App.all st) ->
  (forall options c,
     ListingsApp.communities host st = OK options -> In (VStr c) options ->
     exists res p,
       App.filtered host (onlyCommunity c st) = OK res /\ In p res /\
       (forall r, In r res -> Listing.community r = VStr c)) /\
  (forall options d,
     ListingsApp.developers host st = OK options -> In (VStr d) options ->
     exists res p,
       App.filtered host (onlyDeveloper d st) = OK res /\ In p res /\
       (forall r, In r res -> Listing.developer r = VStr d)) /\
  (forall options s,
     ListingsApp.statuses host st = OK options -> In (VStr s) options ->
     exists res p,
       App.filtered host (onlyStatus s st) = OK res /\ In p res /\
       (forall r, In r res -> statusLabel r = VStr s)).
Proof.
  intros Hall. split; [| split]; intros options c E Hc.
  - destruct (facet_members Listing.community (App.all st) options c) as (Hne & p & Hp & Ec);
      [eapply Forall_impl; [| exact Hall]; intros q Hq; apply Hq | exact E | exact Hc |].
    pose proof (filtered_text host (onlyCommunity c st) Hall) as F.
    eexists. exists p. split; [exact F |].
    split.
    + apply (filtered_In host (onlyCommunity c st) _ p Hall F). split; [exact Hp |].
      apply keepsText_matches. unfold matches. cbn. rewrite Ec. tauto.
    + intros r Hr. apply (filtered_In host (onlyCommunity c st) _ r Hall F) in Hr as [_ Hr].
      apply keepsText_matches in Hr. destruct Hr as ([H | H] & _); [| exact H].
      cbn in H. contradiction.
  - destruct (facet_members Listing.developer (App.all st) options c) as (Hne & p & Hp & Ec);
      [eapply Forall_impl; [| exact Hall]; intros q Hq; apply Hq | exact E | exact Hc |].
    pose proof (filtered_text host (onlyDeveloper c st) Hall) as F.
    eexists. exists p. split; [exact F |].
    split.
    + apply (filtered_In host (onlyDeveloper c st) _ p Hall F). split; [exact Hp |].
      apply keepsText_matches. unfold matches. cbn. rewrite Ec. tauto.
    + intros r Hr. apply (filtered_In host (onlyDeveloper c st) _ r Hall F) in Hr as [_ Hr].
      apply keepsText_matches in Hr. destruct Hr as (_ & [H | H] & _); [| exact H].
      cbn in H. contradiction.
  - destruct (facet_members statusLabel (App.all st) options c) as (Hne & p & Hp & Ec);
      [eapply Forall_impl; [| exact Hall]; intros q Hq; apply Hq | exact E | exact Hc |].
    pose proof (filtered_text host (onlyStatus c st) Hall) as F.
    eexists. exists p. split; [exact F |].
    split.
    + apply (filtered_In host (onlyStatus c st) _ p Hall F). split; [exact Hp |].
      apply keepsText_matches. unfold matches. cbn. rewrite Ec. tauto.
    + intros r Hr. apply (filtered_In host (onlyStatus c st) _ r Hall F) in Hr as [_ Hr].
      apply keepsText_matches in Hr. destruct Hr as (_ & _ & [H | H] & _); [| exact H].
      cbn in H. contradiction.
Qed.

(** X19.  Selecting a listing of the catalog stores its id and sets the
    three filters and the query from it; the catalog and the sort key stay,
    and the map is opened when asked.  The selected listing passes the
    filters it set, so it is in [filtered], and every listing in
    [filtered] agrees with it on each of community, developer and status
    that it has.  Selecting a null listing changes nothing. *)
Theorem select_keeps_listing (st : App.state) (p : listing) (openMap : bool) :
  Forall textListing (App.all st) -> In p (App.all st) ->
  exists st' res,
    ListingsApp.selectProperty (Some p) openMap st = Some st' /\
    App.selectedId st' = Listing.id p /\
    App.all st' = App.all st /\ App.sortBy st' = App.sortBy st /\
    App.showMap st' = (if openMap then true else App.showMap st) /\
    App.filtered host st' = OK res /\
    In p res /\
    (forall r, In r res ->
       (Listing.community p = VStr "" \/ Listing.community r = Listing.community p) /\
       (Listing.developer p = VStr "" \/ Listing.developer r = Listing.developer p) /\
       (statusLabel p = VStr "" \/ statusLabel r = statusLabel p)) /\
    ListingsApp.selectProperty None openMap st = Some st.
Proof.
  intros Hall Hp.
  assert (Tp : textListing p) by (rewrite Forall_forall in Hall; apply Hall, Hp).
  destruct (text_fields p Tp) as (t & c & d & s & Et & Ec & Ed & Es).
  unfold ListingsApp.selectProperty. rewrite Et, Ec, Ed, Es.
  cbn [orElse nullish ListingsApp.asText].
  eexists. 
  match goal with
  | |- exists res, Some ?x = Some _ /\ _ => set (st' := x)
  end.
  assert (Hall' : Forall textListing (App.all st')) by exact Hall.
  pose proof (filtered_text host st' Hall') as F.
  eexists. split; [reflexivity |]. fold st'.
  split; [reflexivity |]. split; [reflexivity |]. split; [reflexivity |].
  split; [reflexivity |]. split; [exact F |]. split; [| split; [| reflexivity]].
  - apply (filtered_In host st' _ p Hall' F). split; [exact Hp |].
    apply keepsText_matches. unfold matches. subst st'. cbn [App.community App.developer App.status App.q].
    rewrite Ec, Ed, Es. split; [auto |]. split; [auto |]. split; [auto |].
    apply title_searched, Et.
  - intros r Hr. apply (filtered_In host st' _ r Hall' F) in Hr as [_ Hr].
    apply keepsText_matches in Hr. destruct Hr as (Hc & Hd & Hs & _).
    subst st'. cbn [App.community App.developer App.status] in Hc, Hd, Hs.
    split; [| split].
    + destruct Hc as [-> | ->]; auto.
    + destruct Hd as [-> | ->]; auto.
    + destruct Hs as [-> | ->]; auto.
Qed.

Hypothesis collation_antisym :
  forall a b, localeCompare host b a = CompOpp (localeCompare host a b).
Hypothesis collation_trans :
  forall a b c, localeCompare host a b <> Gt -> localeCompare host b c <> Gt ->
                localeCompare host a c <> Gt.

Lemma text_title (p : listing) : textListing p -> hasTextTitle p = true.
Proof. intros (Ht & _). unfold hasTextTitle. destruct (title p); try contradiction. reflexivity. Qed.

(** X20.  RESET.  After [resetAll] the header reads ["All listings"] and
    [filtered] is the whole catalog, rearranged with the featured
    listings first; where the titles are ASCII text, the lower-cased
    titles of each group are in collation order.  The state it leaves does
    not depend on what was selected before. *)
Theorem reset_shows_all (st : App.state) :
  Forall textListing (App.all st) ->
  ListingsApp.searchingLabel (ListingsApp.resetAll st) = "All listings" /\
  (exists res,
     App.filtered host (ListingsApp.resetAll st) = OK res /\
     Permutation (App.all st) res /\
     StronglySorted (fun a b => featured b = true -> featured a = true) res /\
     (Forall asciiTitle (App.all st) ->
      StronglySorted (before host false featuredKey) res)) /\
  (forall p openMap st',
     ListingsApp.selectProperty p openMap st = Some st' ->
     ListingsApp.resetAll st' = ListingsApp.resetAll st).
Proof.
  intros Hall. split; [reflexivity |]. split.
  - unfold App.filtered. cbn [ListingsApp.resetAll App.q App.all App.sortBy].
    rewrite (filterM_pure _ (fun _ => true)).
    + cbn [bind]. rewrite filter_all_true by reflexivity.
      destruct (sorted_by_key host collation_antisym collation_trans featuredKey false
                  (compareProjects host "featured_then_name") (App.all st))
        as (res & E & P & S).
      * rewrite Forall_forall in Hall. intros a b Ha Hb.
        apply compareProjects_default; [| apply text_title, Hall, Ha
                                        | apply text_title, Hall, Hb].
        simpl. intros [H | [H | [H | [H | [H | [H | []]]]]]]; discriminate H.
      * exists res. split; [exact E |]. split; [exact P |].
        split; [| intros _; exact S].
        eapply StronglySorted_impl; [| exact S].
        intros x y _ _. apply featuredKey_first.
    + intros q _. reflexivity.
  - intros p openMap st' H. unfold ListingsApp.selectProperty in H.
    destruct p as [p |]; [| inversion H; reflexivity].
    repeat match type of H with
           | match ?x with _ => _ end = _ => destruct x; try discriminate H
           end.
    inversion H; subst. reflexivity.
Qed.

End SelectionFacts.

(** ** The markers of the map *)

Lemma replaceAll_app (c : ascii) (by_ a b : string) :
  Markers.replaceAll c by_ (a ++ b) = Markers.replaceAll c by_ a ++ Markers.replaceAll c by_ b.
Proof.
  induction a as [| d r IH]; [reflexivity |]. cbn [append Markers.replaceAll].
  destruct (Ascii.eqb d c); rewrite IH; [rewrite append_assoc |]; reflexivity.
Qed.

Lemma escaped_cons (c : ascii) (r : string) :
  Markers.escaped (String c r) = entity c ++ Markers.escaped r.
Proof.
  unfold Markers.escaped, entity. cbn [Markers.replaceAll].
  destruct (Ascii.eqb_spec c "&") as [-> | Ha].
  - rewrite !replaceAll_app. reflexivity.
  - cbn [Markers.replaceAll]. destruct (Ascii.eqb_spec c "<") as [-> | Hl].
    + rewrite !replaceAll_app. reflexivity.
    + cbn [Markers.replaceAll]. destruct (Ascii.eqb_spec c ">") as [-> | Hg]; reflexivity.
Qed.

Lemma escaped_noMarkup (s : string) : noMarkup (Markers.escaped s) = true.
Proof.
  induction s as [| c r IH]; [reflexivity |].
  rewrite escaped_cons. unfold noMarkup in *. rewrite all_app, IH, andb_true_r.
  unfold entity.
  destruct (Ascii.eqb c "&"); [reflexivity |].
  destruct (Ascii.eqb c "<") eqn:El; [reflexivity |].
  destruct (Ascii.eqb c ">") eqn:Eg; [reflexivity |].
  cbn [Str.all]. rewrite El, Eg. reflexivity.
Qed.

Lemma escaped_plain (s : string) : plainText s = true -> Markers.escaped s = s.
Proof.
  unfold plainText. induction s as [| c r IH]; [reflexivity |].
  cbn [Str.all]. intros H. apply andb_true_iff in H as [Hc Hr].
  rewrite escaped_cons, (IH Hr). unfold entity.
  apply negb_true_iff in Hc. apply orb_false_iff in Hc as [Hc Hg].
  apply orb_false_iff in Hc as [Ha Hl]. rewrite Ha, Hl, Hg. reflexivity.
Qed.

Lemma entity_cases (c : ascii) :
  (c = "&"%char /\ entity c = "&amp;") \/ (c = "<"%char /\ entity c = "&lt;") \/
  (c = ">"%char /\ entity c = "&gt;") \/
  (c <> "&"%char /\ entity c = String c "").
Proof.
  unfold entity.
  destruct (Ascii.eqb_spec c "&") as [-> | Ha]; [auto |].
  destruct (Ascii.eqb_spec c "<") as [-> | Hl]; [auto |].
  destruct (Ascii.eqb_spec c ">") as [-> | Hg]; [auto 6 |].
  auto 6.
Qed.

Lemma escaped_injective (s t : string) :
  Markers.escaped s = Markers.escaped t -> s = t.
Proof.
  revert t. induction s as [| c r IH]; intros [| d u].
  - reflexivity.
  - rewrite escaped_cons.
    destruct (entity_cases d) as [[_ ->] | [[_ ->] | [[_ ->] | [_ ->]]]]; discriminate.
  - rewrite escaped_cons.
    destruct (entity_cases c) as [[_ ->] | [[_ ->] | [[_ ->] | [_ ->]]]]; discriminate.
  - rewrite !escaped_cons.
    destruct (entity_cases c) as [[-> ->] | [[-> ->] | [[-> ->] | [Hc ->]]]];
      destruct (entity_cases d) as [[-> ->] | [[-> ->] | [[-> ->] | [Hd ->]]]];
      cbn [append]; intros E; try discriminate E;
      try (inversion E; subst; f_equal; apply IH; assumption);
      try (inversion E; subst; congruence).
Qed.

(** X21.  [escapeHtml].  On a string it returns a text in which no [<] and
    no [>] is left; a string without [&], [<] and [>] is returned as it is;
    two different strings give two different texts.  Quotes are not
    escaped.  [undefined] gives the empty string, and every other value
    that is not a string makes it throw. *)
Theorem escapeHtml_safe :
  (forall s,
     exists r, Markers.escapeHtml (VStr s) = OK r /\ noMarkup r = true /\
               (plainText s = true -> r = s)) /\
  (forall s t, Markers.escapeHtml (VStr s) = Markers.escapeHtml (VStr t) -> s = t) /\
  (forall s r, Markers.escapeHtml (VStr s) = OK r ->
               Markers.escapeHtml (VStr (Markers.dq ++ s)) = OK (Markers.dq ++ r)) /\
  Markers.escapeHtml VUndefined = OK "" /\
  (forall v, v <> VUndefined -> (forall s, v <> VStr s) ->
             Markers.escapeHtml v = Throw TypeError).
Proof.
  split; [| split; [| split; [| split]]].
  - intros s. exists (Markers.escaped s).
    split; [reflexivity |]. split; [apply escaped_noMarkup | apply escaped_plain].
  - intros s t E. cbn [Markers.escapeHtml] in E. inversion E. apply escaped_injective. assumption.
  - intros s r E. inversion E. reflexivity.
  - reflexivity.
  - intros v Hu Hs. destruct v; try reflexivity; [congruence | destruct (Hs s eq_refl)].
Qed.

(** *** The effect *)

Lemma mapM_pure {A B : Type} (f : A -> result B) (g : A -> B) (l : list A) :
  (forall x, In x l -> f x = OK (g x)) -> mapM f l = OK (List.map g l).
Proof.
  induction l as [| x r IH]; intros H; [reflexivity |]. cbn [mapM List.map].
  rewrite (H x (or_introl eq_refl)). cbn [bind].
  rewrite IH by (intros y Hy; apply H; right; exact Hy). reflexivity.
Qed.

Lemma mapM_throws {A B : Type} (f : A -> result B) (l : list A) (x : A) :
  In x l -> f x = Throw TypeError -> mapM f l = Throw TypeError.
Proof.
  induction l as [| y r IH]; intros Hx Hf; [destruct Hx |]. cbn [mapM].
  destruct (f y) as [b | []] eqn:E; [| reflexivity]. cbn [bind].
  destruct Hx as [-> | Hx]; [congruence |].
  rewrite (IH Hx Hf). reflexivity.
Qed.

Section EffectFacts.

Variable formatAED : number -> string.

Lemma markerOf_text (selectedId : string) (p : listing) :
  textListing p -> Markers.markerOf formatAED selectedId p = OK (textMarker formatAED selectedId p).
Proof.
  intros (Ht & Hc & Hd & Hs & _). unfold Markers.markerOf, textMarker, Markers.statusLabelOf.
  destruct (title p); try contradiction.
  destruct (Listing.community p); try contradiction.
  destruct (Listing.developer p); try contradiction.
  destruct (statusLabel p) as [| | | | s2 | | |]; try contradiction.
  cbn [Markers.escapeHtml bind textOf truthy].
  destruct (Str.isEmpty s2); reflexivity.
Qed.

Lemma isSelected_spec (selectedId : string) (p : listing) :
  Markers.isSelected selectedId p = true <-> selectedId <> "" /\ Listing.id p = selectedId.
Proof.
  unfold Markers.isSelected, Markers.selectedIdStr.
  destruct (Str.isEmpty selectedId) eqn:E.
  - apply isEmpty_true in E. subst. cbn. split; [discriminate | intros [H _]; congruence].
  - cbn [negb]. rewrite E. cbn [negb andb]. rewrite String.eqb_eq.
    apply isEmpty_false in E. tauto.
Qed.

Lemma fold_selected_none (ms : list Markers.marker) (acc : option (option number * option number)) :
  (forall m, In m ms -> Markers.selectedIcon m = false) ->
  fold_left (fun a m => if Markers.selectedIcon m then Some (Markers.position m) else a) ms acc
  = acc.
Proof.
  revert acc. induction ms as [| m r IH]; intros acc H; [reflexivity |]. cbn [fold_left].
  rewrite (H m (or_introl eq_refl)). apply IH. intros m' Hm. apply H. right. exact Hm.
Qed.

Lemma selectedLatLng_none (ms : list Markers.marker) :
  (forall m, In m ms -> Markers.selectedIcon m = false) ->
  Markers.selectedLatLng ms = None.
Proof. apply fold_selected_none. Qed.

Lemma selectedLatLng_last (pre post : list Markers.marker) (m : Markers.marker) :
  Markers.selectedIcon m = true ->
  (forall m', In m' post -> Markers.selectedIcon m' = false) ->
  Markers.selectedLatLng (pre ++ m :: post) = Some (Markers.position m).
Proof.
  intros Hm Hpost. unfold Markers.selectedLatLng.
  rewrite fold_left_app. cbn [fold_left]. rewrite Hm. apply fold_selected_none, Hpost.
Qed.

(** X22.  The marker effect on pins that are text listings.  It adds one
    marker per pin, in order, at the pin's coordinates, drawn as selected
    exactly when a listing is selected and the pin has its id.  When no
    pin has the selected id (none is selected, or the selected listing is
    not plotted) the map is fitted to all pins, and left as it is when
    there is none.  Otherwise the map is centred on the last pin with the
    selected id, at zoom [Math.max(zoom, 13)].  A pin whose title is
    neither a string nor [undefined] makes the effect throw. *)
Theorem marker_view (zoom : number) (properties : option (list listing))
  (selectedId : string) :
  (Forall textListing (MapView.pins properties) ->
   exists ms v,
     Markers.effect formatAED zoom properties selectedId = OK (ms, v) /\
     List.map Markers.target ms = MapView.pins properties /\
     (forall m, In m ms ->
        Markers.position m = coordinates (Markers.target m) /\
        (Markers.selectedIcon m = true <->
         selectedId <> "" /\ Listing.id (Markers.target m) = selectedId)) /\
     ((selectedId = "" \/ forall p, In p (MapView.pins properties) -> Listing.id p <> selectedId) ->
      v = match MapView.pins properties with
          | [] => Markers.Unchanged
          | _ => Markers.FitBounds (List.map coordinates (MapView.pins properties))
          end) /\
     (forall pre p post,
        selectedId <> "" ->
        MapView.pins properties = (pre ++ p :: post)%list ->
        Listing.id p = selectedId ->
        (forall r, In r post -> Listing.id r <> selectedId) ->
        v = Markers.SetView (coordinates p) (NumMore.max2 zoom (Fin 13 0))))
  /\
  (forall p,
     In p (MapView.pins properties) ->
     title p <> VUndefined -> (forall s, title p <> VStr s) ->
     Markers.effect formatAED zoom properties selectedId = Throw TypeError).
Proof.
  split.
  - intros Hall. rewrite Forall_forall in Hall.
    unfold Markers.effect.
    rewrite (mapM_pure _ (textMarker formatAED selectedId))
      by (intros p Hp; apply markerOf_text, Hall, Hp).
    cbn [bind]. eexists _, _. split; [reflexivity |].
    set (pins := MapView.pins properties) in *.
    assert (Epos : List.map Markers.position (List.map (textMarker formatAED selectedId) pins)
                   = List.map coordinates pins).
    { rewrite List.map_map. reflexivity. }
    split; [| split; [| split]].
    + rewrite List.map_map. cbn [textMarker Markers.target]. apply List.map_id.
    + intros m Hm. apply in_map_iff in Hm as (p & <- & _).
      split; [reflexivity |]. apply isSelected_spec.
    + intros Hno. rewrite selectedLatLng_none.
      * rewrite Epos. destruct pins; reflexivity.
      * intros m Hm. apply in_map_iff in Hm as (p & <- & Hp). cbn [textMarker Markers.selectedIcon].
        destruct (Markers.isSelected selectedId p) eqn:E; [| reflexivity].
        apply isSelected_spec in E as [Hne Hid].
        destruct Hno as [H | H]; [contradiction | destruct (H p Hp Hid)].
    + intros pre p post Hne E Hid Hpost. rewrite E, List.map_app. cbn [List.map].
      rewrite selectedLatLng_last.
      * reflexivity.
      * apply isSelected_spec. auto.
      * intros m Hm. apply in_map_iff in Hm as (r & <- & Hr). cbn [textMarker Markers.selectedIcon].
        destruct (Markers.isSelected selectedId r) eqn:Er; [| reflexivity].
        apply isSelected_spec in Er as [_ Hr']. destruct (Hpost r Hr Hr').
  - intros p Hp Hu Hs. unfold Markers.effect.
    rewrite (mapM_throws _ _ p Hp); [reflexivity |].
    unfold Markers.markerOf.
    destruct (title p); try reflexivity; [congruence | destruct (Hs s eq_refl)].
Qed.

End EffectFacts.

(** ** Counting pins *)

(** X23.  Counting pins.  The capped map never plots more pins than the
    header counts: [mapPinsCount] is the number of geolocated listings,
    which is what the earlier map component plots, one marker each, and it
    is at most the number of listings.  The two counts agree when every
    geolocated listing lies in the bounding box and there are at most
    [MAX_MARKERS] of them. *)
Theorem pin_counts (l : list listing) :
  (List.length (MapView.pins (Some l)) <= ListingsApp.mapPinsCount l)%nat /\
  ListingsApp.mapPinsCount l = List.length (MapViewLegacy.pts l) /\
  (ListingsApp.mapPinsCount l <= List.length l)%nat /\
  (Forall (fun p => MapView.geolocated p = true ->
                    MapView.isInMiddleEastBBox (lat p) (lng p) = true) l ->
   (ListingsApp.mapPinsCount l <= MapView.MAX_MARKERS)%nat ->
   List.length (MapView.pins (Some l)) = ListingsApp.mapPinsCount l).
Proof.
  unfold ListingsApp.mapPinsCount, MapViewLegacy.pts, MapView.pins.
  fold MapView.geolocated.
  split; [| split; [| split]].
  - rewrite length_firstn.
    etransitivity; [apply Nat.le_min_r |]. apply filter_shorter.
  - rewrite length_map. reflexivity.
  - apply filter_shorter.
  - intros Hbox Hcap. rewrite length_firstn.
    assert (E : filter (fun p => MapView.isInMiddleEastBBox (lat p) (lng p))
                  (filter MapView.geolocated l) = filter MapView.geolocated l).
    { clear Hcap. induction Hbox as [| p r Hp _ IH]; [reflexivity |]. cbn [filter].
      destruct (MapView.geolocated p) eqn:G; [| exact IH].
      cbn [filter]. rewrite (Hp eq_refl), IH. reflexivity. }
    rewrite E. apply Nat.min_r. exact Hcap.
Qed.

(** ** Examples of the further properties *)

(** X3 on the eighth card, a listing without a cover image: it is drawn
    with the third fallback image and falls back to the fourth. *)
Lemma image_fallback_once_witness :
  Z.of_nat 7 + 1 < 2 ^ 53 /\
  ListingsApp.src (ListingsApp.rendered sparseListing 7) = Some "/images/pc3.jpg" /\
  ListingsApp.src (ListingsApp.onError (fun s => s) 7 (ListingsApp.rendered sparseListing 7))
  = Some "/images/pc4.jpg" /\
  ListingsApp.fallbackApplied
    (ListingsApp.onError (fun s => s) 7 (ListingsApp.rendered sparseListing 7)) = true.
Proof.
  assert (H : Z.of_nat 7 + 1 < 2 ^ 53) by reflexivity.
  split; [exact H |]. split; [reflexivity |]. split; [reflexivity |].
  apply (image_fallback_once (fun s => s) 7 (ListingsApp.rendered sparseListing 7) H).
Defined.

(** X8 on the sample record, whose longitude is not a number. *)
Lemma normalized_coordinates_witness :
  exists l,
    normalizeProject sampleHost sampleRecord = OK l /\
    hasPin l = false /\
    (hasPin l = true <-> lat l <> None /\ lng l <> None) /\
    hasPin l = MapView.geolocated l.
Proof.
  eexists. split; [vm_compute; reflexivity |]. split; [reflexivity |].
  split; eapply (normalized_coordinates sampleHost sampleRecord); vm_compute; reflexivity.
Defined.

(** X9 on the sample record. *)
Lemma normalized_defaults_witness :
  exists l,
    normalizeProject sampleHost sampleRecord = OK l /\
    raw l = sampleRecord /\ title l = VStr "Marina Heights" /\
    Listing.community l = VStr "" /\ nullish (statusLabel l) = false.
Proof.
  eexists. split; [vm_compute; reflexivity |].
  split; [eapply (normalized_defaults sampleHost sampleRecord); vm_compute; reflexivity |].
  repeat split.
Defined.

Lemma sampleCatalog_text : Forall textListing sampleCatalog.
Proof. repeat constructor. Qed.

Lemma communityCatalog_text : Forall textListing communityCatalog.
Proof. repeat constructor. Qed.

Lemma sampleCatalog_ascii : Forall asciiListing sampleCatalog.
Proof. repeat constructor. Qed.

Lemma communityCatalog_asciiTitle : Forall asciiTitle communityCatalog.
Proof. repeat constructor. Qed.

(** X15 on the catalog of four, of ASCII text, with no filter. *)
Lemma filtered_rearranges_witness :
  Forall textListing sampleCatalog /\ Forall asciiListing sampleCatalog /\
  exists res,
    App.filtered sampleHost (searchState sampleCatalog "") = OK res /\
    (List.length res <= 4)%nat /\
    (NoDup sampleCatalog -> NoDup res) /\
    (ListingsApp.searchingLabel (searchState sampleCatalog "") = "All listings" ->
     Permutation sampleCatalog res) /\
    Permutation (filter (keepsText (searchState sampleCatalog "")) sampleCatalog) res.
Proof.
  split; [exact sampleCatalog_text |]. split; [exact sampleCatalog_ascii |].
  destruct (filtered_rearranges sampleHost (searchState sampleCatalog "") sampleCatalog_text)
    as (res & E & L & N & A & P).
  exists res. split; [exact E |]. split; [exact L |]. split; [exact N |].
  split; [exact A |]. exact (P sampleCatalog_ascii eq_refl).
Defined.

(** X16 on a catalog of four listings in two communities, one of them
    without a community: the options are Downtown and Marina. *)
Lemma facet_options_witness :
  ListingsApp.communities sampleHost (searchState communityCatalog "")
  = OK [VStr "Downtown"; VStr "Marina"] /\
  exists options,
    ListingsApp.communities sampleHost (searchState communityCatalog "")
    = OK (List.map VStr options) /\
    NoDup options /\
    StronglySorted (fun a b => localeCompare sampleHost a b <> Gt) options /\
    (forall s, In s options <->
               s <> "" /\ exists p, In p communityCatalog /\ Listing.community p = VStr s).
Proof.
  split; [vm_compute; reflexivity |].
  exact (proj1 (facet_options sampleHost sampleHost_antisym sampleHost_trans
                  (searchState communityCatalog "") communityCatalog_text)).
Defined.

(** X18 on the same catalog: the option Marina matches. *)
Lemma facet_option_matches_witness :
  exists res p,
    App.filtered sampleHost (onlyCommunity "Marina" (searchState communityCatalog "")) = OK res /\
    In p res /\ (forall r, In r res -> Listing.community r = VStr "Marina").
Proof.
  apply (proj1 (facet_option_matches sampleHost (searchState communityCatalog "")
                  communityCatalog_text) [VStr "Downtown"; VStr "Marina"] "Marina").
  - vm_compute. reflexivity.
  - right. left. reflexivity.
Defined.

(** X19 on the same catalog: selecting Vida, of Marina, from a search
    that shows nothing. *)
Lemma select_keeps_listing_witness :
  In (inCommunity "Vida" "Marina") communityCatalog /\
  exists st' res,
    ListingsApp.selectProperty (Some (inCommunity "Vida" "Marina")) true
      (searchState communityCatalog "no such text") = Some st' /\
    App.selectedId st' = "Vida" /\ App.community st' = "Marina" /\ App.q st' = "Vida" /\
    App.filtered sampleHost st' = OK res /\ In (inCommunity "Vida" "Marina") res.
Proof.
  assert (H : In (inCommunity "Vida" "Marina") communityCatalog) by (left; reflexivity).
  split; [exact H |].
  destruct (select_keeps_listing sampleHost (searchState communityCatalog "no such text")
              (inCommunity "Vida" "Marina") true communityCatalog_text H)
    as (st' & res & E & Hid & _ & _ & _ & F & Hin & _).
  exists st', res. inversion E; subst st'. repeat split; assumption.
Defined.

(** X20 on that catalog, whose titles are ASCII, after a search. *)
Lemma reset_shows_all_witness :
  Forall textListing communityCatalog /\ Forall asciiTitle communityCatalog /\
  exists res,
    App.filtered sampleHost (ListingsApp.resetAll (searchState communityCatalog "vida")) = OK res /\
    Permutation communityCatalog res /\
    StronglySorted (fun a b => featured b = true -> featured a = true) res /\
    StronglySorted (before sampleHost false featuredKey) res.
Proof.
  split; [exact communityCatalog_text |]. split; [exact communityCatalog_asciiTitle |].
  destruct (proj1 (proj2 (reset_shows_all sampleHost sampleHost_antisym sampleHost_trans
                            (searchState communityCatalog "vida") communityCatalog_text)))
    as (res & E & P & F & T).
  exists res. split; [exact E |]. split; [exact P |]. split; [exact F |].
  exact (T communityCatalog_asciiTitle).
Defined.

(** X17 on a catalog of two, one of them titled with the number 42. *)
Lemma title_not_text_throws_witness :
  sortM (compareProjects sampleHost "name_asc") [numberTitled; sparseListing] = Throw TypeError /\
  App.filtered sampleHost (searchState [numberTitled; sparseListing] "") = Throw TypeError.
Proof.
  assert (H1 : (2 <= List.length [numberTitled; sparseListing])%nat) by (simpl; lia).
  assert (H2 : exists p, In p [numberTitled; sparseListing] /\ hasTextTitle p = false).
  { exists numberTitled. split; [left |]; reflexivity. }
  destruct (title_not_text_throws sampleHost "name_asc" [numberTitled; sparseListing] H1 H2)
    as (E & _).
  split; [exact E |].
  destruct (title_not_text_throws sampleHost "featured_then_name"
              [numberTitled; sparseListing] H1 H2) as (_ & F & _).
  apply F; reflexivity.
Defined.

(** X22 on London and Dubai: with Dubai selected the map is centred on
    it; with London selected, which lies outside the box, it is fitted to
    the pins. *)
Lemma marker_view_witness :
  (exists ms, Markers.effect (fun _ => "") (Fin 11 0) (Some [london; dubai]) "Dubai"
              = OK (ms, Markers.SetView (coordinates dubai) (Fin 13 0))) /\
  (exists ms, Markers.effect (fun _ => "") (Fin 11 0) (Some [london; dubai]) "London"
              = OK (ms, Markers.FitBounds [coordinates dubai])).
Proof.
  assert (P : MapView.pins (Some [london; dubai]) = [dubai]) by (vm_compute; reflexivity).
  assert (T : Forall textListing (MapView.pins (Some [london; dubai]))).
  { rewrite P. repeat constructor. }
  split.
  - destruct (proj1 (marker_view (fun _ => "") (Fin 11 0) (Some [london; dubai]) "Dubai") T)
      as (ms & v & E & _ & _ & _ & S).
    exists ms. rewrite E.
    rewrite (S [] dubai []); [reflexivity | discriminate | exact P | reflexivity |].
    intros r [].
  - destruct (proj1 (marker_view (fun _ => "") (Fin 11 0) (Some [london; dubai]) "London") T)
      as (ms & v & E & _ & _ & F & _).
    exists ms. rewrite E, F; rewrite P; [reflexivity |].
    right. intros p [<- | []]. discriminate.
Defined.
